(** * Loadrefs_Ink: the reference pipeline of [bibtex_loader.py]

    A shallow embedding of the parse / sort / format / number / wrap
    pipeline of the [BibTeXLoader] extension, and the properties of it
    that the specification states.

    Python values are modelled as follows.
    - A [str] is the list of its code points ([pystr]); [len] is the
      length of that list.
    - An [int] is a [Z].
    - A [dict] with string keys and string values (the [fields] of an
      entry) is a [gmap pystr pystr]; the code only tests membership,
      reads and writes single keys, and tests emptiness.
    - An exception is a [Raise] result; [try ... except Exception] is
      [try_except].
    - The value returned by [json.load] is a [pyval]. *)

From Stdlib Require Import ZArith NArith List Ascii String Lia Bool.
From Stdlib Require Import Numbers.DecimalString Numbers.DecimalZ.
From stdpp Require Import base option list sorting gmap.

Local Open Scope Z_scope.

(** ** Text *)

Abbreviation char := N (only parsing).
Abbreviation pystr := (list N) (only parsing).

(** ASCII literals. *)
Definition u (s : string) : pystr := N_of_ascii <$> list_ascii_of_string s.
Arguments u s%_string.

Definition len {A} (l : list A) : Z := Z.of_nat (length l).

(** [str.isspace] on one code point; the same set is the [\s] of [re]
    on [str] patterns. *)
Definition isspace (c : char) : bool :=
  ((9 <=? c) && (c <=? 13) || (28 <=? c) && (c <=? 32)
   || (c =? 133) || (c =? 160) || (c =? 5760)
   || (8192 <=? c) && (c <=? 8202)
   || (c =? 8232) || (c =? 8233) || (c =? 8239) || (c =? 8287)
   || (c =? 12288))%N.

(** The builtins whose tables are not part of the repository:
    [str.lower], the [\w] class of [re], and [repr] of a [str]. *)
Class PyText := {
  str_lower : pystr -> pystr;
  isword : char -> bool;
  repr_str : pystr -> pystr
}.

(** [bool(s)] of a sequence. *)
Definition truthy {A} (l : list A) : bool :=
  match l with [] => false | _ => true end.

(** [sep.join(l)] *)
Fixpoint join (sep : pystr) (l : list pystr) : pystr :=
  match l with
  | [] => []
  | [x] => x
  | x :: l' => x ++ sep ++ join sep l'
  end.

(** [s.split()] : maximal runs of non-whitespace. [cur] is the run being
    read, most recent character first. *)
Fixpoint split_ws_from (cur : pystr) (s : pystr) : list pystr :=
  match s with
  | [] => if truthy cur then [rev cur] else []
  | c :: s' =>
      if isspace c
      then (if truthy cur then rev cur :: split_ws_from [] s'
            else split_ws_from [] s')
      else split_ws_from (c :: cur) s'
  end.

Definition split_ws (s : pystr) : list pystr := split_ws_from [] s.

Fixpoint lstrip (s : pystr) : pystr :=
  match s with
  | c :: s' => if isspace c then lstrip s' else s
  | [] => []
  end.

(** [s.strip()] *)
Definition strip (s : pystr) : pystr := rev (lstrip (rev (lstrip s))).

(** [s.startswith(p)] *)
Fixpoint startswith (p s : pystr) : bool :=
  match p, s with
  | [], _ => true
  | a :: p', b :: s' => (a =? b)%N && startswith p' s'
  | _ :: _, [] => false
  end.

(** [p in s] for two strings *)
Fixpoint contains (p s : pystr) : bool :=
  startswith p s || match s with [] => false | _ :: s' => contains p s' end.

(** [s.split(sep, maxsplit)] for a non-empty [sep]; [maxsplit = None] is
    the unbounded [s.split(sep)]. [skip] counts the characters of a
    separator still to be passed over. *)
Fixpoint split_from (sep : pystr) (maxsplit : option nat) (skip : nat)
    (cur : pystr) (s : pystr) : list pystr :=
  match s with
  | [] => [rev cur]
  | c :: s' =>
      match skip with
      | S k => split_from sep maxsplit k cur s'
      | O =>
          if startswith sep s && negb (bool_decide (maxsplit = Some O))
          then rev cur :: split_from sep (pred <$> maxsplit) (length sep - 1) [] s'
          else split_from sep maxsplit O (c :: cur) s'
      end
  end.

Definition split (sep : pystr) (s : pystr) : list pystr :=
  split_from sep None O [] s.

Definition split_max (sep : pystr) (n : nat) (s : pystr) : list pystr :=
  split_from sep (Some n) O [] s.

(** [s.replace(old, new)] for a non-empty [old] *)
Fixpoint replace_from (old new : pystr) (skip : nat) (s : pystr) : pystr :=
  match s with
  | [] => []
  | c :: s' =>
      match skip with
      | S k => replace_from old new k s'
      | O =>
          if startswith old s
          then new ++ replace_from old new (length old - 1) s'
          else c :: replace_from old new O s'
      end
  end.

Definition replace (old new s : pystr) : pystr := replace_from old new O s.

(** [str(n)] of an [int], as an f-string field renders it. The model
    is that of integers of at most 4300 digits, the interpreter's
    default limit for the conversion; beyond it Python raises
    [ValueError]. *)
Definition str_of_int (n : Z) : pystr :=
  u (NilEmpty.string_of_int (Z.to_int n)).

(** Lexicographic [<] on strings, by code point *)
Fixpoint str_lt (a b : pystr) : bool :=
  match a, b with
  | _, [] => false
  | [], _ :: _ => true
  | x :: a', y :: b' => (x <? y)%N || (x =? y)%N && str_lt a' b'
  end.

(** ** Exceptions *)

Inductive exn :=
  | IndexError | KeyError | TypeError | ValueError | AttributeError
  | OSError | UnicodeDecodeError | JSONDecodeError.

Inductive result (A : Type) :=
  | Ok (a : A)
  | Raise (e : exn).
Arguments Ok {A} a.
Arguments Raise {A} e.

#[global] Instance result_ret : MRet result := fun A a => Ok a.
#[global] Instance result_bind : MBind result := fun A B f m =>
  match m with Ok a => f a | Raise e => Raise e end.
#[global] Instance result_fmap : FMap result := fun A B f m =>
  match m with Ok a => Ok (f a) | Raise e => Raise e end.

(** [try: body  except Exception: return handler] *)
Definition try_except {A} (body : result A) (handler : A) : result A :=
  match body with Ok a => Ok a | Raise _ => Ok handler end.

(** [l[i]] for a list and an [int], negative indices counting from the end *)
Definition getitem {A} (l : list A) (i : Z) : result A :=
  let j := if i <? 0 then i + len l else i in
  if j <? 0 then Raise IndexError
  else match l !! Z.to_nat j with
       | Some x => Ok x
       | None => Raise IndexError
       end.

(** [l[:-1]] *)
Definition but_last {A} (l : list A) : list A := take (length l - 1) l.

(** [l[-1]] *)
Definition last_item {A} (l : list A) : result A := getitem l (-1).

(** [chr(i)] for an [i] in the range of a C [int], where an argument
    that is no code point raises [ValueError]; outside that range Python
    raises [OverflowError]. *)
Definition chr (i : Z) : result pystr :=
  if (0 <=? i) && (i <? 1114112) then Ok [Z.to_N i] else Raise ValueError.

(** [mapM] for loops whose body may raise *)
Fixpoint mapM {A B} (f : A -> result B) (l : list A) : result (list B) :=
  match l with
  | [] => Ok []
  | x :: l' => y ← f x; ys ← mapM f l'; Ok (y :: ys)
  end.

Fixpoint foldM {A S} (f : S -> A -> result S) (s : S) (l : list A) : result S :=
  match l with
  | [] => Ok s
  | x :: l' => s' ← f s x; foldM f s' l'
  end.

(** ** Regular expressions

    The fragment of [re] the program uses: character classes, sequence,
    ordered alternation, greedy repetition and capture groups, matched
    by backtracking in the order [re] tries the alternatives. [k] is the
    continuation matching the rest of the pattern; [caps] maps a group
    number to the text it captured last. A repetition stops when its
    body consumes nothing. *)

Inductive regex :=
  | Eps
  | Chr (p : char -> bool)
  | Seq (r1 r2 : regex)
  | Alt (r1 r2 : regex)
  | Star (r : regex)
  | Group (n : nat) (r : regex).

Definition Plus (r : regex) : regex := Seq r (Star r).

Fixpoint rmatch {R} (r : regex) (s : pystr) (caps : gmap nat pystr)
    (k : pystr -> gmap nat pystr -> option R) {struct r} : option R :=
  match r with
  | Eps => k s caps
  | Chr p =>
      match s with
      | c :: s' => if p c then k s' caps else None
      | [] => None
      end
  | Seq r1 r2 => rmatch r1 s caps (fun s' caps' => rmatch r2 s' caps' k)
  | Alt r1 r2 =>
      match rmatch r1 s caps k with
      | Some x => Some x
      | None => rmatch r2 s caps k
      end
  | Star r' =>
      (fix star (fuel : nat) (s : pystr) (caps : gmap nat pystr) {struct fuel} :=
         match fuel with
         | O => k s caps
         | S fuel' =>
             match rmatch r' s caps (fun s' caps' =>
                     if (length s' <? length s)%nat then star fuel' s' caps'
                     else None) with
             | Some x => Some x
             | None => k s caps
             end
         end) (length s) s caps
  | Group n r' =>
      rmatch r' s caps (fun s' caps' =>
        k s' (<[n := take (length s - length s') s]> caps'))
  end.

(** A match object: group number to captured text, group 0 the whole match. *)
Definition group (m : gmap nat pystr) (n : nat) : pystr := default [] (m !! n).

(** Left-to-right scan for non-overlapping matches: the characters outside
    any match, and the matches. The patterns of this program match no
    empty string. *)
Fixpoint scan (r : regex) (skip : nat) (s : pystr) : list (char + gmap nat pystr) :=
  match s with
  | [] => []
  | c :: s' =>
      match skip with
      | S k => scan r k s'
      | O =>
          match rmatch r s ∅ (fun rest caps => Some (rest, caps)) with
          | Some (rest, caps) =>
              let n := (length s - length rest)%nat in
              if (n =? 0)%nat then inl c :: scan r O s'
              else inr (<[O := take n s]> caps) :: scan r (n - 1) s'
          | None => inl c :: scan r O s'
          end
      end
  end.

(** [re.finditer(r, s)] *)
Definition finditer (r : regex) (s : pystr) : list (gmap nat pystr) :=
  omap (fun t => match t with inr m => Some m | inl _ => None end) (scan r O s).

(** [re.sub(r, r'\1', s)] *)
Definition sub_group1 (r : regex) (s : pystr) : pystr :=
  mbind (M := list) (fun t => match t with inr m => group m 1 | inl c => [c] end)
        (scan r O s).

(** [re.split(r, s)] for a pattern without groups *)
Fixpoint split_tokens (cur : pystr) (ts : list (char + gmap nat pystr)) : list pystr :=
  match ts with
  | [] => [rev cur]
  | inl c :: ts' => split_tokens (c :: cur) ts'
  | inr _ :: ts' => rev cur :: split_tokens [] ts'
  end.

Definition re_split (r : regex) (s : pystr) : list pystr :=
  split_tokens [] (scan r O s).

Definition lit (c : char) : regex := Chr (N.eqb c).
Definition none_of (cs : list char) : regex :=
  Chr (fun c => negb (bool_decide (c ∈ cs))).
Definition one_of (cs : list char) : regex :=
  Chr (fun c => bool_decide (c ∈ cs)).

Definition c_at : char := 64%N.
Definition c_lbrace : char := 123%N.
Definition c_rbrace : char := 125%N.
Definition c_comma : char := 44%N.
Definition c_equals : char := 61%N.
Definition c_dquote : char := 34%N.
Definition c_newline : char := 10%N.

Fixpoint seqs (rs : list regex) : regex :=
  match rs with
  | [] => Eps
  | [r] => r
  | r :: rs' => Seq r (seqs rs')
  end.

(** The repeated group shared by the two BibTeX patterns: any number of
    items, each one character other than a brace (or a character of
    [cs]), or a brace pair around characters that are not braces. *)
Definition braced_body (cs : list char) : regex :=
  Star (Alt (none_of (c_lbrace :: c_rbrace :: cs))
            (seqs [lit c_lbrace; Star (none_of [c_lbrace; c_rbrace]); lit c_rbrace])).

Section Patterns.
Context {T : PyText}.

(** [pattern] of [parse_bibtex]: an at sign, group 1 = [\w+], [\s*], an
    opening brace, [\s*], group 2 = [[^,]+], [\s*], a comma, [\s*],
    group 3 = the repeated group, a closing brace. *)
Definition entry_pattern : regex :=
  seqs [lit c_at; Group 1 (Plus (Chr isword)); Star (Chr isspace);
        lit c_lbrace; Star (Chr isspace); Group 2 (Plus (none_of [c_comma]));
        Star (Chr isspace); lit c_comma; Star (Chr isspace);
        Group 3 (braced_body []); lit c_rbrace].

(** [field_pattern] of [parse_bibtex]: group 1 = [\w+], [\s*], an equals
    sign, [\s*], an opening brace or double quote, group 2 = the repeated
    group (double quotes excluded too), a closing brace or double quote. *)
Definition field_pattern : regex :=
  seqs [Group 1 (Plus (Chr isword)); Star (Chr isspace); lit c_equals;
        Star (Chr isspace); one_of [c_lbrace; c_dquote];
        Group 2 (braced_body [c_dquote]); one_of [c_rbrace; c_dquote]].

End Patterns.

(** The pattern of the [re.sub] call: a brace pair around group 1 = any
    number of characters that are not braces. *)
Definition brace_pattern : regex :=
  seqs [lit c_lbrace; Group 1 (Star (none_of [c_lbrace; c_rbrace])); lit c_rbrace].

(** The record separator of [parse_endnote]: a newline, [\s*], a newline. *)
Definition blank_line_pattern : regex :=
  seqs [lit c_newline; Star (Chr isspace); lit c_newline].

(** An instance of the builtin tables for running the model on ASCII
    inputs: [str_lower] and [isword] are those of Python on ASCII text,
    and [repr_str] is that of Python on printable ASCII text without
    quotes and backslashes. *)
Definition ascii_lower_char (c : char) : char :=
  if ((65 <=? c) && (c <=? 90))%N then (c + 32)%N else c.
Definition ascii_isword (c : char) : bool :=
  ((48 <=? c) && (c <=? 57) || (65 <=? c) && (c <=? 90)
   || (97 <=? c) && (c <=? 122) || (c =? 95))%N.
Definition ascii_text : PyText :=
  {| str_lower := map ascii_lower_char;
     isword := ascii_isword;
     repr_str := fun s => u "'" ++ s ++ u "'" |}.

(** ** Data model *)

(** A value as [json.load] returns it. A [float] is kept as its [repr],
    the only thing the program reads of it. A [dict] lists its items in
    order; its keys are strings and pairwise distinct. *)
#[warnings="-register-all"] Inductive pyval :=
  | VNone
  | VBool (b : bool)
  | VInt (n : Z)
  | VFloat (repr : pystr)
  | VStr (s : pystr)
  | VList (l : list pyval)
  | VDict (d : list (pystr * pyval)).

(** An entry: the dict with keys ['type'], ['key'] and ['fields']. The
    first two are strings for three of the parsers; [parse_json] stores
    whatever the file holds under ["type"] and ["id"]. *)
Record Entry := {
  type : pyval;
  key : pyval;
  fields : gmap pystr pystr
}.

(** [entry_type == 'article'] *)
Definition is_article (entry_type : pyval) : bool :=
  match entry_type with
  | VStr s => bool_decide (s = u "article")
  | _ => false
  end.

Fixpoint assoc (k : pystr) (d : list (pystr * pyval)) : option pyval :=
  match d with
  | [] => None
  | (k', v) :: d' => if bool_decide (k = k') then Some v else assoc k d'
  end.

(** [k in v] for a string [k] *)
Definition py_in (k : pystr) (v : pyval) : result bool :=
  match v with
  | VDict d => Ok (bool_decide (is_Some (assoc k d)))
  | VList l => Ok (existsb (fun x => match x with
                                     | VStr s => bool_decide (s = k)
                                     | _ => false
                                     end) l)
  | VStr s => Ok (contains k s)
  | _ => Raise TypeError
  end.

(** [v[k]] for a string [k] *)
Definition getitem_key (v : pyval) (k : pystr) : result pyval :=
  match v with
  | VDict d => match assoc k d with Some x => Ok x | None => Raise KeyError end
  | _ => Raise TypeError
  end.

(** [v[i]] for an [int] [i] *)
Definition getitem_index (v : pyval) (i : Z) : result pyval :=
  match v with
  | VList l => getitem l i
  | VStr s => c ← getitem s i; Ok (VStr [c])
  | VDict _ => Raise KeyError
  | _ => Raise TypeError
  end.

(** The items a [for] loop over [v] visits *)
Definition iter (v : pyval) : result (list pyval) :=
  match v with
  | VList l => Ok l
  | VDict d => Ok ((fun kv => VStr (fst kv)) <$> d)
  | VStr s => Ok ((fun c => VStr [c]) <$> s)
  | _ => Raise TypeError
  end.

(** [v.get(k, default)] *)
Definition py_get (v : pyval) (k : pystr) (default : pyval) : result pyval :=
  match v with
  | VDict d => Ok (match assoc k d with Some x => x | None => default end)
  | _ => Raise AttributeError
  end.

Section Values.
Context {T : PyText}.

(** [repr(v)] *)
Fixpoint py_repr (v : pyval) : pystr :=
  match v with
  | VNone => u "None"
  | VBool b => if b then u "True" else u "False"
  | VInt n => str_of_int n
  | VFloat r => r
  | VStr s => repr_str s
  | VList l => u "[" ++ join (u ", ") (map py_repr l) ++ u "]"
  | VDict d =>
      u "{" ++ join (u ", ")
                 (map (fun kv => match kv with
                                 | (k, x) => repr_str k ++ u ": " ++ py_repr x
                                 end) d) ++ u "}"
  end.

(** [str(v)], also what an f-string field renders *)
Definition py_str (v : pyval) : pystr :=
  match v with
  | VStr s => s
  | _ => py_repr v
  end.

End Values.

(** [sep.join(l)] for a list of arbitrary values *)
Definition join_values (sep : pystr) (l : list pyval) : result pystr :=
  strs ← mapM (fun v => match v with VStr s => Ok s | _ => Raise TypeError end) l;
  Ok (join sep strs).

Definition f_author : pystr := u "author".
Definition f_title : pystr := u "title".
Definition f_year : pystr := u "year".
Definition f_journal : pystr := u "journal".
Definition f_volume : pystr := u "volume".
Definition f_number : pystr := u "number".
Definition f_pages : pystr := u "pages".
Definition f_publisher : pystr := u "publisher".

(** The eight recognized field names. *)
Definition schema : list pystr :=
  [f_author; f_title; f_year; f_journal; f_volume; f_number; f_pages; f_publisher].

(** [fields.get(k, default)] *)
Definition fields_get (fields : gmap pystr pystr) (k default : pystr) : pystr :=
  match fields !! k with Some v => v | None => default end.

(** [k in fields] *)
Definition has (fields : gmap pystr pystr) (k : pystr) : bool :=
  match fields !! k with Some _ => true | None => false end.

(** [fields[k]], read under a membership test *)
Definition fields_item (fields : gmap pystr pystr) (k : pystr) : result pystr :=
  match fields !! k with Some v => Ok v | None => Raise KeyError end.

(** ** Format parsers

    The argument [file] is what opening and reading the file yields: its
    text, or the exception raised. *)

Section Parsers.
Context {T : PyText}.

Definition bibtex_fields (fields_str : pystr) : gmap pystr pystr :=
  foldl (fun fields field_match =>
           let field_name := str_lower (group field_match 1) in
           let field_value := strip (group field_match 2) in
           let field_value := sub_group1 brace_pattern field_value in
           <[field_name := field_value]> fields)
        ∅ (finditer field_pattern fields_str).

Definition bibtex_entry (m : gmap nat pystr) : Entry :=
  let entry_type := group m 1 in
  let cite_key := strip (group m 2) in
  let fields_str := group m 3 in
  {| type := VStr (str_lower entry_type);
     key := VStr cite_key;
     fields := bibtex_fields fields_str |}.

(** The [try] block of [parse_bibtex] *)
Definition parse_bibtex_try (file : result pystr) : result (list Entry) :=
  content ← file;
  Ok (bibtex_entry <$> finditer entry_pattern content).

Definition parse_bibtex (file : result pystr) : result (list Entry) :=
  try_except (parse_bibtex_try file) [].

(** One line of an RIS record; the loop state is [(fields, entry_type)]. *)
Definition ris_line (st : gmap pystr pystr * pystr) (line : pystr)
    : result (gmap pystr pystr * pystr) :=
  let '(fields, entry_type) := st in
  let line := strip line in
  if negb (truthy line) || negb (contains (u "  -") line) then Ok st
  else
    match split_max (u "  -") 1 line with
    | [tag; value] =>
        let tag := strip tag in
        let value := strip value in
        if bool_decide (tag = u "TY") then Ok (fields, str_lower value)
        else if bool_decide (tag = u "AU") then
          if has fields f_author
          then old ← fields_item fields f_author;
               Ok (<[f_author := old ++ u " and " ++ value]> fields, entry_type)
          else Ok (<[f_author := value]> fields, entry_type)
        else if bool_decide (tag = u "TI") then Ok (<[f_title := value]> fields, entry_type)
        else if bool_decide (tag = u "PY") then
          y ← getitem (split (u "/") value) 0;
          Ok (<[f_year := y]> fields, entry_type)
        else if bool_decide (tag = u "JO") || bool_decide (tag = u "JF")
                || bool_decide (tag = u "T2")
        then Ok (<[f_journal := value]> fields, entry_type)
        else if bool_decide (tag = u "VL") then Ok (<[f_volume := value]> fields, entry_type)
        else if bool_decide (tag = u "IS") then Ok (<[f_number := value]> fields, entry_type)
        else if bool_decide (tag = u "SP") then Ok (<[f_pages := value]> fields, entry_type)
        else if bool_decide (tag = u "EP") && has fields f_pages then
          old ← fields_item fields f_pages;
          Ok (<[f_pages := old ++ u "-" ++ value]> fields, entry_type)
        else if bool_decide (tag = u "PB") then Ok (<[f_publisher := value]> fields, entry_type)
        else Ok st
    | _ => Raise ValueError
    end.

(** The entry a record of the RIS and EndNote parsers appends, if any *)
Definition record_entry (st : gmap pystr pystr * pystr) : list Entry :=
  let '(fields, entry_type) := st in
  if bool_decide (fields = ∅) then []
  else [ {| type := VStr entry_type;
            key := VStr (take 20 (fields_get fields f_title (u "unknown")));
            fields := fields |} ].

Definition ris_record (entries : list Entry) (record : pystr) : result (list Entry) :=
  if negb (truthy (strip record)) then Ok entries
  else
    st ← foldM ris_line (∅, u "article") (split [c_newline] record);
    Ok (entries ++ record_entry st).

(** The [try] block of [parse_ris] *)
Definition parse_ris_try (file : result pystr) : result (list Entry) :=
  content ← file;
  foldM ris_record [] (split (u "ER  -") content).

Definition parse_ris (file : result pystr) : result (list Entry) :=
  try_except (parse_ris_try file) [].

(** The author block of [parse_json]: the names collected from
    [item['author']], joined. *)
Definition json_author (authors : list pyval) (author : pyval) : result (list pyval) :=
  match author with
  | VDict _ =>
      has_family ← py_in (u "family") author;
      has_given ← (if (has_family : bool) then py_in (u "given") author else Ok false);
      if (has_given : bool) then
        given ← getitem_key author (u "given");
        family ← getitem_key author (u "family");
        Ok (authors ++ [VStr (py_str given ++ u " " ++ py_str family)])
      else
        has_literal ← py_in (u "literal") author;
        if (has_literal : bool) then
          literal ← getitem_key author (u "literal");
          Ok (authors ++ [literal])
        else Ok authors
  | _ => Ok authors
  end.

Definition field_map : list (pystr * pystr) :=
  [(u "title", f_title); (u "container-title", f_journal);
   (u "publisher", f_publisher); (u "volume", f_volume);
   (u "issue", f_number); (u "page", f_pages)].

Definition json_field (item : pyval) (fields : gmap pystr pystr)
    (names : pystr * pystr) : result (gmap pystr pystr) :=
  let '(json_field, bib_field) := names in
  present ← py_in json_field item;
  if (present : bool) then
    v ← getitem_key item json_field;
    Ok (<[bib_field := py_str v]> fields)
  else Ok fields.

Definition json_year (item : pyval) (fields : gmap pystr pystr)
    : result (gmap pystr pystr) :=
  present ← py_in (u "issued") item;
  if (present : bool) then
    issued ← getitem_key item (u "issued");
    is_parts ← (match issued with
                | VDict _ => py_in (u "date-parts") issued
                | _ => Ok false
                end);
    if (is_parts : bool) then
      parts ← getitem_key issued (u "date-parts");
      first ← getitem_index parts 0;
      y ← getitem_index first 0;
      Ok (<[f_year := py_str y]> fields)
    else
      match issued with
      | VStr s => Ok (<[f_year := take 4 s]> fields)
      | _ => Ok fields
      end
  else Ok fields.

Definition json_item (item : pyval) : result Entry :=
  has_author ← py_in f_author item;
  fields ← (if (has_author : bool) then
              author_list ← getitem_key item f_author;
              author_items ← iter author_list;
              authors ← foldM json_author [] author_items;
              joined ← join_values (u " and ") authors;
              Ok (<[f_author := joined]> ∅)
            else Ok ∅);
  fields ← foldM (json_field item) fields field_map;
  fields ← json_year item fields;
  entry_type ← py_get item (u "type") (VStr (u "article-journal"));
  is_journal ← py_in (u "journal") entry_type;
  let entry_type := if (is_journal : bool) then VStr (u "article") else entry_type in
  key ← py_get item (u "id") (VStr (take 20 (fields_get fields f_title (u "unknown"))));
  Ok {| type := entry_type; key := key; fields := fields |}.

(** The [try] block of [parse_json]; [loaded] is what opening the file
    and [json.load] yield. *)
Definition parse_json_try (loaded : result pyval) : result (list Entry) :=
  data ← loaded;
  let data := match data with VDict _ => VList [data] | _ => data end in
  items ← iter data;
  mapM json_item items.

Definition parse_json (loaded : result pyval) : result (list Entry) :=
  try_except (parse_json_try loaded) [].

(** One line of an EndNote record; the loop state is [(fields, entry_type)]. *)
Definition endnote_line (st : gmap pystr pystr * pystr) (line : pystr)
    : result (gmap pystr pystr * pystr) :=
  let '(fields, entry_type) := st in
  if negb (truthy (strip line)) || negb (startswith (u "%") line) then Ok st
  else
    c ← getitem line 1;
    let tag := [c] in
    let value := strip (drop 2 line) in
    if bool_decide (tag = u "0") then Ok (fields, str_lower value)
    else if bool_decide (tag = u "A") then
      if has fields f_author
      then old ← fields_item fields f_author;
           Ok (<[f_author := old ++ u " and " ++ value]> fields, entry_type)
      else Ok (<[f_author := value]> fields, entry_type)
    else if bool_decide (tag = u "T") then Ok (<[f_title := value]> fields, entry_type)
    else if bool_decide (tag = u "D") then Ok (<[f_year := take 4 value]> fields, entry_type)
    else if bool_decide (tag = u "J") then Ok (<[f_journal := value]> fields, entry_type)
    else if bool_decide (tag = u "V") then Ok (<[f_volume := value]> fields, entry_type)
    else if bool_decide (tag = u "N") then Ok (<[f_number := value]> fields, entry_type)
    else if bool_decide (tag = u "P") then Ok (<[f_pages := value]> fields, entry_type)
    else if bool_decide (tag = u "I") then Ok (<[f_publisher := value]> fields, entry_type)
    else Ok st.

Definition endnote_record (entries : list Entry) (record : pystr) : result (list Entry) :=
  if negb (truthy (strip record)) then Ok entries
  else
    st ← foldM endnote_line (∅, u "article") (split [c_newline] record);
    Ok (entries ++ record_entry st).

(** The [try] block of [parse_endnote] *)
Definition parse_endnote_try (file : result pystr) : result (list Entry) :=
  content ← file;
  foldM endnote_record [] (re_split blank_line_pattern content).

Definition parse_endnote (file : result pystr) : result (list Entry) :=
  try_except (parse_endnote_try file) [].

End Parsers.

(** ** Entry sorter *)

Section Sorter.
Context {T : PyText}.

(** [sorted(l, key=...)] for string keys: a stable sort by [<]. Insertion
    from the right keeps equal keys in their input order. *)
Fixpoint insert_by {A} (key : A -> pystr) (x : A) (l : list A) : list A :=
  match l with
  | [] => [x]
  | y :: l' => if str_lt (key y) (key x) then y :: insert_by key x l' else x :: l
  end.

Fixpoint sorted {A} (key : A -> pystr) (l : list A) : list A :=
  match l with
  | [] => []
  | x :: l' => insert_by key x (sorted key l')
  end.

Definition sort_entries (sort_order : pystr) (entries : list Entry) : list Entry :=
  if bool_decide (sort_order = u "author") then
    sorted (fun x => str_lower (fields_get (fields x) f_author [])) entries
  else if bool_decide (sort_order = u "year") then
    sorted (fun x => fields_get (fields x) f_year (u "9999")) entries
  else if bool_decide (sort_order = u "title") then
    sorted (fun x => str_lower (fields_get (fields x) f_title [])) entries
  else entries.

End Sorter.

(** ** Numbering marker generator *)

Definition symbols : list pystr :=
  [u "*"; [8224%N]; [8225%N]; [167%N]; [182%N]; [8214%N]; u "**";
   [8224%N; 8224%N]; [8225%N; 8225%N]].

Definition roman_numerals : list pystr :=
  [u "i"; u "ii"; u "iii"; u "iv"; u "v"; u "vi"; u "vii"; u "viii"; u "ix"; u "x";
   u "xi"; u "xii"; u "xiii"; u "xiv"; u "xv"; u "xvi"; u "xvii"; u "xviii";
   u "xix"; u "xx"].

(** The f-string with [index] between square brackets *)
Definition bracketed (index : Z) : pystr := u "[" ++ str_of_int index ++ u "]".

Definition get_numbering_marker (style : pystr) (index : Z) : result pystr :=
  if bool_decide (style = u "numeric") then Ok (bracketed index)
  else if bool_decide (style = u "numeric_dot") then Ok (str_of_int index ++ u ".")
  else if bool_decide (style = u "numeric_paren") then
    Ok (u "(" ++ str_of_int index ++ u ")")
  else if bool_decide (style = u "bullet") then Ok [8226%N]
  else if bool_decide (style = u "dash") then Ok [8211%N]
  else if bool_decide (style = u "asterisk") then Ok (u "*")
  else if bool_decide (style = u "symbols") then
    if index - 1 <? len symbols then getitem symbols (index - 1)
    else Ok (bracketed index)
  else if bool_decide (style = u "alpha") then
    if index <=? 26 then c ← chr (96 + index); Ok (c ++ u ".")
    else Ok (bracketed index)
  else if bool_decide (style = u "roman") then
    if index - 1 <? len roman_numerals
    then r ← getitem roman_numerals (index - 1); Ok (r ++ u ".")
    else Ok (bracketed index)
  else if bool_decide (style = u "none") then Ok []
  else Ok (bracketed index).

(** ** Author name formatter *)

(** The list comprehension taking the first character of each non-empty
    item *)
Definition initials_of (parts : list pystr) : list pystr :=
  p ← parts; match p with c :: _ => [[c]] | [] => [] end.

(** The two list comprehensions at the head of [format_authors] *)
Definition author_names (author_str : pystr) : list pystr :=
  filter (fun a => truthy a = true)
         (strip <$> split (u ",") (replace (u " and ") (u ", ") author_str)).

(** One author in the "Last, F. M." form *)
Definition author_initials_dotted (author : pystr) : result pystr :=
  let parts := split_ws author in
  if 1 <? len parts then
    last ← last_item parts;
    let initials := join (u ". ") (initials_of (but_last parts)) ++ u "." in
    Ok (last ++ u ", " ++ initials)
  else Ok author.

(** One author in the abbreviated form *)
Definition author_abbreviated (author : pystr) : result pystr :=
  let parts := split_ws author in
  if 1 <? len parts then
    let initials := join [] (initials_of (but_last parts)) in
    last ← last_item parts;
    Ok (last ++ u " " ++ initials)
  else Ok author.

Definition format_authors (author_str style : pystr) : result pystr :=
  if negb (truthy author_str) then Ok []
  else
    let authors := author_names author_str in
    if bool_decide (style ∈ [u "apa"; u "apa7"; u "chicago"; u "harvard"]) then
      formatted ← mapM author_initials_dotted authors;
      if 2 <? len formatted then
        last ← last_item formatted;
        Ok (join (u ", ") (but_last formatted) ++ u ", & " ++ last)
      else if len formatted =? 2 then
        a ← getitem formatted 0;
        b ← getitem formatted 1;
        Ok (a ++ u " & " ++ b)
      else if truthy formatted then getitem formatted 0 else Ok []
    else if bool_decide (style = u "mla") then
      if 1 <? len authors then
        a ← getitem authors 0; Ok (a ++ u ", et al.")
      else getitem authors 0
    else if bool_decide (style ∈ [u "ieee"; u "vancouver"; u "nature"]) then
      formatted ← mapM author_abbreviated (take 6 authors);
      if 6 <? len authors then Ok (join (u ", ") formatted ++ u ", et al.")
      else Ok (join (u ", ") formatted)
    else Ok (join (u ", ") authors).

(** ** Citation style formatter *)

Definition dq : pystr := [c_dquote].

(** [if k in fields: x = g(x, fields[k])] *)
Definition add_field (fields : gmap pystr pystr) (k : pystr)
    (g : pystr -> pystr -> pystr) (x : pystr) : result pystr :=
  if has fields k then v ← fields_item fields k; Ok (g x v) else Ok x.

(** [if k in fields: parts.append(g(fields[k]))] *)
Definition append_field (fields : gmap pystr pystr) (k : pystr)
    (g : pystr -> pystr) (parts : list pystr) : result (list pystr) :=
  if has fields k then v ← fields_item fields k; Ok (parts ++ [g v]) else Ok parts.

Definition format_apa (entry_type : pyval) (authors year title : pystr)
    (fields : gmap pystr pystr) : result pystr :=
  let parts :=
    if truthy authors then [authors ++ u " (" ++ year ++ u ")."]
    else [u "(" ++ year ++ u ")."] in
  parts ←
    (if is_article entry_type then
       let parts := parts ++ [title ++ u "."] in
       if has fields f_journal then
         journal ← fields_item fields f_journal;
         let vol_str := journal in
         vol_str ← add_field fields f_volume (fun s v => s ++ u ", " ++ v) vol_str;
         vol_str ← add_field fields f_number (fun s v => s ++ u "(" ++ v ++ u ")") vol_str;
         vol_str ← add_field fields f_pages (fun s v => s ++ u ", " ++ v) vol_str;
         Ok (parts ++ [vol_str ++ u "."])
       else Ok parts
     else
       let parts := parts ++ [title ++ u "."] in
       append_field fields f_publisher (fun p => p ++ u ".") parts);
  Ok (join (u " ") parts).

Definition format_mla (entry_type : pyval) (authors year title : pystr)
    (fields : gmap pystr pystr) : result pystr :=
  let parts := if truthy authors then [authors ++ u "."] else [] in
  let parts := parts ++ [dq ++ title ++ u "." ++ dq] in
  parts ←
    (if is_article entry_type && has fields f_journal then
       journal ← fields_item fields f_journal;
       let parts := parts ++ [journal ++ u ","] in
       parts ← append_field fields f_volume (fun v => u "vol. " ++ v ++ u ",") parts;
       parts ← append_field fields f_number (fun v => u "no. " ++ v ++ u ",") parts;
       let parts := parts ++ [year ++ u ","] in
       append_field fields f_pages (fun v => u "pp. " ++ v ++ u ".") parts
     else
       append_field fields f_publisher (fun p => p ++ u ", " ++ year ++ u ".") parts);
  Ok (join (u " ") parts).

Definition format_chicago (entry_type : pyval) (authors year title : pystr)
    (fields : gmap pystr pystr) : result pystr :=
  let parts := if truthy authors then [authors ++ u "."] else [] in
  let parts := parts ++ [year ++ u ". " ++ dq ++ title ++ u "." ++ dq] in
  parts ←
    (if is_article entry_type && has fields f_journal then
       journal_part ← fields_item fields f_journal;
       journal_part ← add_field fields f_volume (fun s v => s ++ u " " ++ v) journal_part;
       journal_part ← add_field fields f_number (fun s v => s ++ u ", no. " ++ v) journal_part;
       journal_part ← add_field fields f_pages (fun s v => s ++ u ": " ++ v) journal_part;
       Ok (parts ++ [journal_part ++ u "."])
     else
       append_field fields f_publisher (fun p => p ++ u ".") parts);
  Ok (join (u " ") parts).

Definition format_harvard (entry_type : pyval) (authors year title : pystr)
    (fields : gmap pystr pystr) : result pystr :=
  format_apa entry_type authors year title fields.

Definition format_ieee (entry_type : pyval) (authors year title : pystr)
    (fields : gmap pystr pystr) : result pystr :=
  let parts := if truthy authors then [authors ++ u ","] else [] in
  let parts := parts ++ [dq ++ title ++ u "," ++ dq] in
  parts ←
    (if is_article entry_type && has fields f_journal then
       journal_part ← fields_item fields f_journal;
       journal_part ← add_field fields f_volume (fun s v => s ++ u ", vol. " ++ v) journal_part;
       journal_part ← add_field fields f_number (fun s v => s ++ u ", no. " ++ v) journal_part;
       journal_part ← add_field fields f_pages (fun s v => s ++ u ", pp. " ++ v) journal_part;
       Ok (parts ++ [journal_part ++ u ", " ++ year ++ u "."])
     else
       append_field fields f_publisher (fun p => p ++ u ", " ++ year ++ u ".") parts);
  Ok (join (u " ") parts).

Definition format_vancouver (entry_type : pyval) (authors year title : pystr)
    (fields : gmap pystr pystr) : result pystr :=
  let parts := if truthy authors then [authors ++ u "."] else [] in
  let parts := parts ++ [title ++ u "."] in
  parts ←
    (if is_article entry_type && has fields f_journal then
       journal ← fields_item fields f_journal;
       let parts := parts ++ [journal ++ u "."] in
       parts ←
         (if has fields f_year then
            let date_str := year in
            date_str ← add_field fields (u "month") (fun _ m => year ++ u " " ++ m) date_str;
            Ok (parts ++ [date_str ++ u ";"])
          else Ok parts);
       (if has fields f_volume then
          vol_str ← fields_item fields f_volume;
          vol_str ← add_field fields f_number (fun s v => s ++ u "(" ++ v ++ u ")") vol_str;
          vol_str ← add_field fields f_pages (fun s v => s ++ u ":" ++ v) vol_str;
          Ok (parts ++ [vol_str ++ u "."])
        else Ok parts)
     else
       append_field fields f_publisher (fun p => p ++ u "; " ++ year ++ u ".") parts);
  Ok (join (u " ") parts).

Definition format_ama (entry_type : pyval) (authors year title : pystr)
    (fields : gmap pystr pystr) : result pystr :=
  let parts := if truthy authors then [authors ++ u "."] else [] in
  let parts := parts ++ [title ++ u "."] in
  parts ←
    (if is_article entry_type && has fields f_journal then
       journal ← fields_item fields f_journal;
       let parts := parts ++ [journal ++ u "."] in
       let parts := if has fields f_year then parts ++ [year ++ u ";"] else parts in
       (if has fields f_volume then
          vol_str ← fields_item fields f_volume;
          vol_str ← add_field fields f_number (fun s v => s ++ u "(" ++ v ++ u ")") vol_str;
          vol_str ← add_field fields f_pages (fun s v => s ++ u ":" ++ v) vol_str;
          Ok (parts ++ [vol_str ++ u "."])
        else Ok parts)
     else
       append_field fields f_publisher (fun p => p ++ u "; " ++ year ++ u ".") parts);
  Ok (join (u " ") parts).

Definition format_acs (entry_type : pyval) (authors year title : pystr)
    (fields : gmap pystr pystr) : result pystr :=
  let parts := if truthy authors then [authors ++ u "."] else [] in
  let parts := parts ++ [title ++ u "."] in
  parts ←
    (if is_article entry_type && has fields f_journal then
       journal_part ← fields_item fields f_journal;
       let journal_part :=
         if has fields f_year then journal_part ++ u " " ++ year else journal_part in
       journal_part ← add_field fields f_volume (fun s v => s ++ u ", " ++ v) journal_part;
       journal_part ← add_field fields f_pages (fun s v => s ++ u ", " ++ v) journal_part;
       Ok (parts ++ [journal_part ++ u "."])
     else
       append_field fields f_publisher (fun p => p ++ u ": " ++ year ++ u ".") parts);
  Ok (join (u " ") parts).

Definition format_nature (entry_type : pyval) (authors year title : pystr)
    (fields : gmap pystr pystr) : result pystr :=
  let parts := if truthy authors then [authors ++ u "."] else [] in
  let parts := parts ++ [title ++ u "."] in
  parts ←
    (if is_article entry_type && has fields f_journal then
       journal ← fields_item fields f_journal;
       let vol_str := journal in
       vol_str ← add_field fields f_volume (fun s v => s ++ u " " ++ v ++ u ",") vol_str;
       vol_str ← add_field fields f_pages (fun s v => s ++ u " " ++ v) vol_str;
       let vol_str := vol_str ++ u " (" ++ year ++ u ")" in
       Ok (parts ++ [vol_str ++ u "."])
     else
       append_field fields f_publisher
         (fun p => u "(" ++ p ++ u ", " ++ year ++ u ").") parts);
  Ok (join (u " ") parts).

Definition format_entry_python (entry : Entry) (style : pystr) : result pystr :=
  let fields := fields entry in
  let entry_type := type entry in
  authors ← format_authors (fields_get fields f_author []) style;
  let year := fields_get fields f_year (u "n.d.") in
  let title := fields_get fields f_title [] in
  if bool_decide (style = u "apa") || bool_decide (style = u "apa7") then
    format_apa entry_type authors year title fields
  else if bool_decide (style = u "mla") then
    format_mla entry_type authors year title fields
  else if bool_decide (style = u "chicago") then
    format_chicago entry_type authors year title fields
  else if bool_decide (style = u "harvard") then
    format_harvard entry_type authors year title fields
  else if bool_decide (style = u "ieee") then
    format_ieee entry_type authors year title fields
  else if bool_decide (style = u "vancouver") then
    format_vancouver entry_type authors year title fields
  else if bool_decide (style = u "ama") then
    format_ama entry_type authors year title fields
  else if bool_decide (style = u "acs") then
    format_acs entry_type authors year title fields
  else if bool_decide (style = u "nature") then
    format_nature entry_type authors year title fields
  else format_apa entry_type authors year title fields.

Definition format_with_python (format_style : pystr) (entries : list Entry)
    : result (list pystr) :=
  foldM (fun refs entry =>
           formatted ← format_entry_python entry format_style;
           Ok (if truthy formatted then refs ++ [formatted] else refs))
        [] entries.

(** ** Text wrapping *)

(** The variables the loop of [wrap_text] updates *)
Record wrap_state := {
  lines : list pystr;
  current_line : list pystr;
  current_length : Z;
  is_first_line : bool
}.

Definition wrap_step (first_line_max subsequent_max : Z)
    (st : wrap_state) (word : pystr) : wrap_state :=
  let word_length := len word in
  let max_line_length :=
    if is_first_line st then first_line_max else subsequent_max in
  if current_length st + word_length + len (current_line st) <=? max_line_length
  then {| lines := lines st;
          current_line := current_line st ++ [word];
          current_length := current_length st + word_length;
          is_first_line := is_first_line st |}
  else
    let flushed := truthy (current_line st) in
    {| lines := if flushed then lines st ++ [join (u " ") (current_line st)]
                else lines st;
       current_line := [word];
       current_length := word_length;
       is_first_line := if flushed then false else is_first_line st |}.

Definition wrap_text (text : pystr) (max_width_chars : Z)
    (first_line_indent subsequent_indent : Z) : list pystr :=
  let words := split_ws text in
  let first_line_max := max_width_chars - first_line_indent in
  let subsequent_max := max_width_chars - subsequent_indent in
  let st := foldl (wrap_step first_line_max subsequent_max)
                  {| lines := []; current_line := []; current_length := 0;
                     is_first_line := true |} words in
  if truthy (current_line st)
  then lines st ++ [join (u " ") (current_line st)]
  else lines st.

(** ** Layout of the reference list

    [add_references_to_document] as far as it builds [all_lines], the
    list it then turns into one text element per line. [max_chars] is
    the integer the method derives from the width and font size options
    by floating-point arithmetic; it is taken as given. *)

Record Options := {
  numbering_style : pystr;
  hanging_indent : bool;
  indent_size : Z;
  show_title : bool;
  title_text : pystr
}.

(** An element of [all_lines]; a title line has no ['is_first'] key. *)
Record Line := {
  text : pystr;
  is_title : bool;
  is_first : option bool;
  indent : Z
}.

(** [(first_indent, subsequent_indent)] of one reference *)
Definition indents (opts : Options) (marker_chars : Z) (marker : pystr) : Z * Z :=
  if hanging_indent opts && truthy marker then (0, marker_chars) else (0, 0).

(** [full_text] of one reference *)
Definition full_text (marker ref : pystr) : pystr :=
  if truthy marker then marker ++ u " " ++ ref else ref.

Definition line_of (opts : Options) (j : nat) (line : pystr) : Line :=
  {| text := line;
     is_title := false;
     is_first := Some (bool_decide (j = O));
     indent := if bool_decide (j = O) then 0
               else if hanging_indent opts then indent_size opts else 0 |}.

(** The body of the loop over the references, for the [i]-th one *)
Definition reference_lines (opts : Options) (max_chars marker_chars : Z)
    (all_lines : list Line) (item : Z * pystr) : result (list Line) :=
  let '(i, ref) := item in
  marker ← get_numbering_marker (numbering_style opts) i;
  let '(first_indent, subsequent_indent) := indents opts marker_chars marker in
  let wrapped_lines :=
    wrap_text (full_text marker ref) max_chars first_indent subsequent_indent in
  Ok (all_lines ++ imap (line_of opts) wrapped_lines).

(** [enumerate(l, start)] *)
Fixpoint enumerate {A} (start : Z) (l : list A) : list (Z * A) :=
  match l with
  | [] => []
  | x :: l' => (start, x) :: enumerate (start + 1) l'
  end.

Definition add_references_to_document (opts : Options) (max_chars : Z) (formatted_refs : list pystr)
    : result (list Line) :=
  sample_marker ← get_numbering_marker (numbering_style opts) (len formatted_refs);
  let marker_chars := len sample_marker + 1 in
  let all_lines :=
    if show_title opts
    then [ {| text := title_text opts; is_title := true; is_first := None;
              indent := 0 |} ]
    else [] in
  foldM (reference_lines opts max_chars marker_chars) all_lines
        (enumerate 1 formatted_refs).

(** ** Vocabulary of the properties *)

(** The ten numbering styles [get_numbering_marker] names *)
Definition marker_styles : list pystr :=
  [u "numeric"; u "numeric_dot"; u "numeric_paren"; u "bullet"; u "dash";
   u "asterisk"; u "symbols"; u "alpha"; u "roman"; u "none"].

(** Total length of a list of words *)
Fixpoint sum_len (ws : list pystr) : Z :=
  match ws with
  | [] => 0
  | w :: ws' => len w + sum_len ws'
  end.

(** A line is within the width, or is one word that is wider by itself. *)
Definition line_ok (W : Z) (g : list pystr) : Prop :=
  len (join (u " ") g) <= W \/ exists w, g = [w] /\ W < len w.

(** What the loop of [wrap_text] maintains after the words [ws], for
    equal first and continuation widths [W]: the finished lines are the
    joined groups [gs]. *)
Definition wrap_inv (W : Z) (ws : list pystr) (st : wrap_state) : Prop :=
  exists gs : list (list pystr),
    lines st = join (u " ") <$> gs
    /\ Forall (fun g => g <> [] /\ line_ok W g) gs
    /\ concat gs ++ current_line st = ws
    /\ current_length st = sum_len (current_line st)
    /\ (current_line st = [] \/ line_ok W (current_line st)).


(** The list is in non-decreasing order of the keys. *)
Definition ordered_by {A} (key : A -> pystr) (l : list A) : Prop :=
  StronglySorted (fun x y => str_lt (key y) (key x) = false) l.

(** [l'] keeps the items of [l] that have the same key in the order they
    have in [l]. *)
Definition stable_by {A} (key : A -> pystr) (l l' : list A) : Prop :=
  forall k, filter (fun x => key x = k) l' = filter (fun x => key x = k) l.

(** The sort keys of the three sorting orders *)
Definition author_key {T : PyText} (x : Entry) : pystr :=
  str_lower (fields_get (fields x) f_author []).
Definition year_key (x : Entry) : pystr :=
  fields_get (fields x) f_year (u "9999").
Definition title_key {T : PyText} (x : Entry) : pystr :=
  str_lower (fields_get (fields x) f_title []).

(** The marker of an index, once it is known to be produced *)
Definition marker_of (style : pystr) (index : Z) : pystr :=
  match get_numbering_marker style index with Ok m => m | Raise _ => [] end.

(** The continuation indent of the reference at position [i] of [n] *)
Definition continuation_indent (opts : Options) (n i : Z) : Z :=
  if hanging_indent opts && truthy (marker_of (numbering_style opts) i)
  then len (marker_of (numbering_style opts) n) + 1
  else 0.

(** The lines of the reference at position [i] of [n] *)
Definition reference_block (opts : Options) (max_chars n i : Z) (ref : pystr)
    : list Line :=
  imap (line_of opts)
       (wrap_text (full_text (marker_of (numbering_style opts) i) ref)
                  max_chars 0 (continuation_indent opts n i)).

Definition title_block (opts : Options) : list Line :=
  if show_title opts
  then [ {| text := title_text opts; is_title := true; is_first := None;
            indent := 0 |} ]
  else [].

(** The "Last II" rendering in the words of the specification: the last
    token, a space, and the first characters of the tokens before it; a
    name of a single token is left as it is. *)
Definition last_initials (author : pystr) : pystr :=
  match reverse (split_ws author) with
  | surname :: (_ :: _) as before =>
      surname ++ u " " ++ concat (take 1 <$> reverse before)
  | _ => author
  end.

(** The "Last, F. M." rendering, in the same way *)
Definition last_dotted (author : pystr) : pystr :=
  match reverse (split_ws author) with
  | surname :: (_ :: _) as before =>
      surname ++ u ", " ++ join (u ". ") (take 1 <$> reverse before) ++ u "."
  | _ => author
  end.

(** The style identifiers [format_entry_python] names *)
Definition format_styles : list pystr :=
  [u "apa"; u "apa7"; u "mla"; u "chicago"; u "harvard"; u "ieee";
   u "vancouver"; u "ama"; u "acs"; u "nature"].

(** The field names of an entry are among the eight of the schema. *)
Definition within_schema (fields : gmap pystr pystr) : Prop :=
  forall k, is_Some (fields !! k) -> k ∈ schema.

(** [s] is [s'] with one contiguous piece taken out. *)
Definition deletes (s' s : pystr) : Prop :=
  exists pre mid post, s' = pre ++ mid ++ post /\ s = pre ++ post.

(** [l] is the list of parts [l'] with one part shortened in that way, or
    with one part or all its last parts taken out. *)
Inductive parts_del : list pystr -> list pystr -> Prop :=
  | pd_same l : parts_del l l
  | pd_rest l : parts_del l []
  | pd_skip x l l' : parts_del l l' -> parts_del (x :: l) (x :: l')
  | pd_drop p l : parts_del (p :: l) l
  | pd_part p p' l : deletes p p' -> parts_del (p :: l) (p' :: l).

(** The entry with one more field *)
Definition with_field (entry : Entry) (k v : pystr) : Entry :=
  {| type := type entry; key := key entry; fields := <[k := v]> (fields entry) |}.

(** The dispatch table of [format_entry_python]: the composer of a style *)
Definition composer_of (style : pystr)
    : pyval -> pystr -> pystr -> pystr -> gmap pystr pystr -> result pystr :=
  if bool_decide (style = u "apa") || bool_decide (style = u "apa7") then format_apa
  else if bool_decide (style = u "mla") then format_mla
  else if bool_decide (style = u "chicago") then format_chicago
  else if bool_decide (style = u "harvard") then format_harvard
  else if bool_decide (style = u "ieee") then format_ieee
  else if bool_decide (style = u "vancouver") then format_vancouver
  else if bool_decide (style = u "ama") then format_ama
  else if bool_decide (style = u "acs") then format_acs
  else if bool_decide (style = u "nature") then format_nature
  else format_apa.



(** ** Font family *)

Definition font_map : gmap pystr pystr :=
  list_to_map
    [(u "serif", u "serif"); (u "sans-serif", u "sans-serif");
     (u "monospace", u "monospace"); (u "times", u "Times New Roman, serif");
     (u "arial", u "Arial, sans-serif"); (u "helvetica", u "Helvetica, sans-serif");
     (u "georgia", u "Georgia, serif");
     (u "palatino", u "Palatino Linotype, serif");
     (u "garamond", u "Garamond, serif"); (u "courier", u "Courier New, monospace");
     (u "verdana", u "Verdana, sans-serif");
     (u "trebuchet", u "Trebuchet MS, sans-serif")].

Definition get_font_family (font_family : pystr) : pystr :=
  fields_get font_map font_family (u "serif").

(** ** Entry point

    [effect] as far as it decides which lines are drawn. The removal of
    an earlier reference group, the messages and the SVG elements built
    from the lines are left out. *)

(** The reference file as the program sees it: the suffix of its path,
    what the test whether the path exists yields (the operating system
    refuses some paths, one with a name that is too long for one, with an
    [OSError]), what opening and reading the file yields, and what
    [json.load] yields. *)
Record RefFile := {
  suffix : pystr;
  path_exists : result bool;
  read : result pystr;
  load : result pyval
}.

(** The options [effect] reads. [bibfile] is [None] when the path is the
    empty string. [max_chars] is what the floating-point computation of
    the line width in characters yields: an integer, or the exception of
    a division by zero when the font size is 0. *)
Record Settings := {
  bibfile : option RefFile;
  backend : pystr;
  format : pystr;
  sort_order : pystr;
  max_chars : result Z;
  layout : Options
}.

(** The class has no method of this name: its definition is commented
    out, so the attribute lookup raises. *)
Definition add_references_latex : result (list Line) := Raise AttributeError.

Section EntryPoint.
Context {T : PyText}.

Definition parse_reference_file (filepath : RefFile) : result (list Entry) :=
  let extension := str_lower (suffix filepath) in
  if bool_decide (extension = u ".bib") then parse_bibtex (read filepath)
  else if bool_decide (extension = u ".ris") then parse_ris (read filepath)
  else if bool_decide (extension = u ".json") then parse_json (load filepath)
  else if bool_decide (extension ∈ [u ".enw"; u ".endnote"])
  then parse_endnote (read filepath)
  else Ok [].

Definition effect (s : Settings) : result (option (list Line)) :=
  match bibfile s with
  | None => Ok None
  | Some filepath =>
      found ← path_exists filepath;
      if negb found then Ok None
      else
        entries ← parse_reference_file filepath;
        if negb (truthy entries) then Ok None
        else
          let entries := sort_entries (sort_order s) entries in
          formatted_refs ← format_with_python (format s) entries;
          let to_document :=
            max_chars ← max_chars s;
            add_references_to_document (layout s) max_chars formatted_refs in
          lines ← (if bool_decide (backend s = u "latex")
                   then match add_references_latex with
                        | Ok lines => Ok lines
                        | Raise _ => to_document
                        end
                   else to_document);
          Ok (Some lines)
  end.

End EntryPoint.

(** ** Vocabulary of the further properties *)

(** The interpreter's default limit on the digits of an [int] that is
    turned into a [str]: a longer one raises [ValueError]. *)
Definition max_str_digits : Z := 4300.

(** The first line is within the first width, the others within the
    continuation width, each unless it is one word wider by itself. *)
Definition lines_fit (first_max later_max : Z) (gs : list (list pystr)) : Prop :=
  match gs with
  | [] => True
  | g :: rest => line_ok first_max g /\ Forall (line_ok later_max) rest
  end.

(** What the loop of [wrap_text] maintains after the words [ws], for any
    two widths. *)
Definition wrap_inv_widths (first_max later_max : Z) (ws : list pystr)
    (st : wrap_state) : Prop :=
  exists gs : list (list pystr),
    lines st = join (u " ") <$> gs
    /\ Forall (fun g => g <> []) gs
    /\ lines_fit first_max later_max gs
    /\ concat gs ++ current_line st = ws
    /\ current_length st = sum_len (current_line st)
    /\ (is_first_line st = true <-> gs = [])
    /\ (current_line st = []
        \/ line_ok (if is_first_line st then first_max else later_max)
                   (current_line st)).

(** The author list of the apa family: one name as it is, two names with
    an ampersand between them, three or more separated by commas with
    ", & " before the last. *)
Definition ampersand_join (names : list pystr) : pystr :=
  match reverse names with
  | [] => []
  | [a] => a
  | [b; a] => a ++ u " & " ++ b
  | last :: before => join (u ", ") (reverse before) ++ u ", & " ++ last
  end.

(** What the RIS and EndNote parsers give every entry *)
Definition record_shaped (e : Entry) : Prop :=
  fields e <> ∅
  /\ key e = VStr (take 20 (fields_get (fields e) f_title (u "unknown")))
  /\ exists t, type e = VStr t.

Definition c_slash : char := 47%N.

(** The text in front of the first [c], all of it when [c] does not
    occur *)
Fixpoint before (c : char) (s : pystr) : pystr :=
  match s with
  | [] => []
  | a :: s' => if (a =? c)%N then [] else a :: before c s'
  end.

(** A line of the RIS record sets the year [y]: it has the tag PY, and
    [y] is the text in front of the first slash of its value. *)
Definition ris_year_line (record y : pystr) : Prop :=
  exists line tag value,
    line ∈ split [c_newline] record
    /\ split_max (u "  -") 1 (strip line) = [tag; value]
    /\ strip tag = u "PY"
    /\ y = before c_slash (strip value).

(** A line of the EndNote record sets the year [y]: it starts with a
    percent sign and a D, and [y] is the first four characters of its
    value. *)
Definition endnote_year_line (record y : pystr) : Prop :=
  exists line,
    line ∈ split [c_newline] record
    /\ startswith (u "%D") line = true
    /\ y = take 4 (strip (drop 2 line)).

(** The year comes from a record of the file. *)
Definition ris_year_from (content y : pystr) : Prop :=
  exists record,
    record ∈ split (u "ER  -") content /\ ris_year_line record y.

Definition endnote_year_from (content y : pystr) : Prop :=
  exists record,
    record ∈ re_split blank_line_pattern content /\ endnote_year_line record y.

(** The type [parse_json] gives the entry of an item: the type of the
    item, "article-journal" when it has none, and "article" in its place
    when "journal" occurs in it. *)
Definition json_type_of (item entry_type : pyval) : Prop :=
  exists t, py_get item (u "type") (VStr (u "article-journal")) = Ok t
            /\ ((py_in (u "journal") t = Ok true /\ entry_type = VStr (u "article"))
                \/ (py_in (u "journal") t = Ok false /\ entry_type = t)).

Definition c_dot : char := 46%N.

(** The string holds a full stop or a comma. *)
Definition punctuated (s : pystr) : Prop := c_dot ∈ s \/ c_comma ∈ s.

(** The string holds a character that is not white space. *)
Definition has_word (s : pystr) : Prop :=
  exists c, c ∈ s /\ isspace c = false.

(** The author field is not empty but holds no name. *)
Definition nameless (entry : Entry) : Prop :=
  fields_get (fields entry) f_author [] <> []
  /\ author_names (fields_get (fields entry) f_author []) = [].

(** The lines flagged as the first of a reference *)
Definition first_lines (ls : list Line) : list Line :=
  filter (fun l => is_first l = Some true) ls.

(** The formatted string of an entry, once it is known to be produced *)
Definition formatted_of (style : pystr) (entry : Entry) : pystr :=
  match format_entry_python entry style with Ok r => r | Raise _ => [] end.

(** The words of a pattern: [matches r w] when [w] is in the language of
    [r], whatever the order in which the matcher tries alternatives. *)
Inductive matches : regex -> pystr -> Prop :=
  | matches_eps : matches Eps []
  | matches_chr p c : p c = true -> matches (Chr p) [c]
  | matches_seq r1 r2 w1 w2 :
      matches r1 w1 -> matches r2 w2 -> matches (Seq r1 r2) (w1 ++ w2)
  | matches_alt_l r1 r2 w : matches r1 w -> matches (Alt r1 r2) w
  | matches_alt_r r1 r2 w : matches r2 w -> matches (Alt r1 r2) w
  | matches_star_nil r : matches (Star r) []
  | matches_star_cons r w1 w2 :
      matches r w1 -> matches (Star r) w2 -> matches (Star r) (w1 ++ w2)
  | matches_group n r w : matches r w -> matches (Group n r) w.

(** Every capture group of the pattern keeps [I] when it stores a word of
    its body. *)
Fixpoint groups_keep (I : gmap nat pystr -> Prop) (r : regex) : Prop :=
  match r with
  | Eps | Chr _ => True
  | Seq r1 r2 | Alt r1 r2 => groups_keep I r1 /\ groups_keep I r2
  | Star r' => groups_keep I r'
  | Group n r' =>
      groups_keep I r'
      /\ forall caps w, I caps -> matches r' w -> I (<[n := w]> caps)
  end.

(** Reading from left to right, every opening brace is outside a pair and
    every closing brace closes one: the braces of the text form pairs
    around text without braces. [inside] tells whether a pair is open. *)
Fixpoint paired_from (inside : bool) (s : pystr) : bool :=
  match s with
  | [] => negb inside
  | c :: s' =>
      if (c =? c_lbrace)%N then negb inside && paired_from true s'
      else if (c =? c_rbrace)%N then inside && paired_from false s'
      else paired_from inside s'
  end.

Definition paired (s : pystr) : Prop := paired_from false s = true.

(** The text holds no brace. *)
Definition brace_free (s : pystr) : Prop :=
  Forall (fun c => c <> c_lbrace /\ c <> c_rbrace) s.

(** Every break is forced: a group followed by another could not take
    the first word of the next one within its width, [F] for the first
    group and [S] for the others. *)
Fixpoint breaks_forced (F S : Z) (gs : list (list pystr)) : Prop :=
  match gs with
  | [] => True
  | g :: rest =>
      match rest with
      | (w :: _) :: _ => F < len (join (u " ") (g ++ [w]))
      | _ => True
      end
      /\ breaks_forced S S rest
  end.

(** What the loop of [wrap_text] maintains about its breaks after the
    words [ws] *)
Definition wrap_inv_greedy (F S : Z) (ws : list pystr) (st : wrap_state) : Prop :=
  exists gs : list (list pystr),
    lines st = join (u " ") <$> gs
    /\ Forall (fun g => g <> []) gs
    /\ concat gs ++ current_line st = ws
    /\ current_length st = sum_len (current_line st)
    /\ (is_first_line st = true <-> gs = [])
    /\ (current_line st = [] -> gs = [])
    /\ breaks_forced F S (gs ++ [current_line st]).

(** * Properties *)

(** ** The exception monad *)

Lemma bind_Ok {A B} (f : A -> result B) (a : A) : (Ok a ≫= f) = f a.
Proof. reflexivity. Qed.

Lemma Ok_inj {A} (a b : A) : Ok a = Ok b -> a = b.
Proof. by intros [= ->]. Qed.

Lemma bind_inv {A B} (f : A -> result B) (m : result A) (b : B) :
  (m ≫= f) = Ok b -> exists a, m = Ok a /\ f a = Ok b.
Proof. destruct m as [a|e]; [eauto | discriminate]. Qed.

Lemma foldM_cons {A S} (f : S -> A -> result S) (s : S) (x : A) (l : list A) :
  foldM f s (x :: l) = (f s x ≫= fun s' => foldM f s' l).
Proof. reflexivity. Qed.

Lemma mapM_cons {A B} (f : A -> result B) (x : A) (l : list A) :
  mapM f (x :: l) = (f x ≫= fun y => mapM f l ≫= fun ys => Ok (y :: ys)).
Proof. reflexivity. Qed.

Lemma try_except_total {A} (body : result A) (handler : A) :
  exists a, try_except body handler = Ok a.
Proof. destruct body; simpl; eauto. Qed.

Lemma getitem_ok {A} (l : list A) (i : Z) :
  - len l <= i < len l -> exists x, getitem l i = Ok x.
Proof.
  unfold getitem, len. intros Hi.
  set (j := if i <? 0 then _ else _).
  assert (Hj : 0 <= j < Z.of_nat (length l)).
  { subst j. destruct (Z.ltb_spec i 0); lia. }
  destruct (Z.ltb_spec j 0); [lia|].
  destruct (lookup_lt_is_Some_2 l (Z.to_nat j)) as [x Hx]; [lia|].
  rewrite Hx. eauto.
Qed.

(** ** Numbering markers *)

(** A closed string is not in a closed list of strings. *)
Ltac not_in_list :=
  let Hin := fresh "Hin" in
  intros Hin; vm_compute in Hin;
  repeat (apply elem_of_cons in Hin as [Hin|Hin]; [discriminate|]);
  inversion Hin.

Ltac style_false :=
  repeat (rewrite bool_decide_eq_false_2 by (intros Hs; vm_compute in Hs; congruence)).

Lemma marker_unknown style index :
  style ∉ marker_styles -> get_numbering_marker style index = Ok (bracketed index).
Proof.
  intros Hs. unfold get_numbering_marker.
  repeat (rewrite bool_decide_eq_false_2;
          [| intros ->; apply Hs; apply list_elem_of_In; vm_compute; tauto]).
  reflexivity.
Qed.

Lemma marker_alpha index :
  1 <= index <= 26 ->
  get_numbering_marker (u "alpha") index = Ok [Z.to_N (96 + index); 46%N].
Proof.
  intros Hi. unfold get_numbering_marker.
  style_false. rewrite bool_decide_eq_true_2 by reflexivity.
  destruct (Z.leb_spec index 26); [|lia].
  unfold chr. destruct (Z.leb_spec 0 (96 + index)); [|lia].
  destruct (Z.ltb_spec (96 + index) 1114112); [|lia]. reflexivity.
Qed.

Lemma marker_alpha_beyond index :
  26 < index -> get_numbering_marker (u "alpha") index = Ok (bracketed index).
Proof.
  intros Hi. unfold get_numbering_marker.
  style_false. rewrite bool_decide_eq_true_2 by reflexivity.
  destruct (Z.leb_spec index 26); [lia|]. reflexivity.
Qed.

Lemma marker_roman_beyond index :
  20 < index -> get_numbering_marker (u "roman") index = Ok (bracketed index).
Proof.
  intros Hi. unfold get_numbering_marker.
  style_false. rewrite bool_decide_eq_true_2 by reflexivity.
  destruct (Z.ltb_spec (index - 1) (len roman_numerals)); [|reflexivity].
  unfold len in *. simpl in *. lia.
Qed.

Lemma marker_none index : get_numbering_marker (u "none") index = Ok [].
Proof. unfold get_numbering_marker. style_false. reflexivity. Qed.

(** For the indices the pipeline uses, the marker is always produced. *)
Lemma marker_total style index :
  0 <= index -> exists m, get_numbering_marker style index = Ok m.
Proof.
  intros Hi. unfold get_numbering_marker.
  repeat case_bool_decide; eauto.
  - destruct (Z.ltb_spec (index - 1) (len symbols)); eauto.
    apply getitem_ok. unfold len in *. simpl in *. lia.
  - destruct (Z.leb_spec index 26); eauto.
    unfold chr. destruct (Z.leb_spec 0 (96 + index)); [|lia].
    destruct (Z.ltb_spec (96 + index) 1114112); [|lia]. simpl. eauto.
  - destruct (Z.ltb_spec (index - 1) (len roman_numerals)); eauto.
    destruct (getitem_ok roman_numerals (index - 1)) as [r Hr].
    { unfold len in *. simpl in *. lia. }
    rewrite Hr. simpl. eauto.
Qed.

(** C6. The marker for style alpha is "a." to "z." for the indices 1 to
    26 and "[27]" for 27 (and the bracketed index for every larger one);
    for style roman it is the lowercase numeral "i." to "xx." for the
    indices 1 to 20 and the bracketed index beyond; for style none it is
    the empty string; for a style that is none of the ten known ones it
    is the bracketed index. *)
Theorem marker_alpha_roman_none_unknown :
  (get_numbering_marker (u "alpha") <$> seqZ 1 26) =
    (fun s => Ok (u s)) <$>
      ["a."; "b."; "c."; "d."; "e."; "f."; "g."; "h."; "i."; "j."; "k."; "l.";
       "m."; "n."; "o."; "p."; "q."; "r."; "s."; "t."; "u."; "v."; "w."; "x.";
       "y."; "z."]%string
  /\ get_numbering_marker (u "alpha") 27 = Ok (u "[27]")
  /\ (forall index, 26 < index ->
        get_numbering_marker (u "alpha") index = Ok (bracketed index))
  /\ (get_numbering_marker (u "roman") <$> seqZ 1 20) =
       (fun s => Ok (u s)) <$>
         ["i."; "ii."; "iii."; "iv."; "v."; "vi."; "vii."; "viii."; "ix."; "x.";
          "xi."; "xii."; "xiii."; "xiv."; "xv."; "xvi."; "xvii."; "xviii.";
          "xix."; "xx."]%string
  /\ (forall index, 20 < index ->
        get_numbering_marker (u "roman") index = Ok (bracketed index))
  /\ (forall index, get_numbering_marker (u "none") index = Ok [])
  /\ (forall style index, style ∉ marker_styles ->
        get_numbering_marker style index = Ok (bracketed index)).
Proof.
  split; [vm_compute; reflexivity|].
  split; [vm_compute; reflexivity|].
  split; [apply marker_alpha_beyond|].
  split; [vm_compute; reflexivity|].
  split; [apply marker_roman_beyond|].
  split; [apply marker_none|].
  apply marker_unknown.
Qed.

Lemma marker_alpha_roman_none_unknown_witness :
  get_numbering_marker (u "alpha") 30 = Ok (u "[30]")
  /\ get_numbering_marker (u "roman") 21 = Ok (u "[21]")
  /\ get_numbering_marker (u "letters") 4 = Ok (u "[4]").
Proof.
  destruct marker_alpha_roman_none_unknown as (_ & _ & Ha & _ & Hr & _ & Hu).
  split; [rewrite Ha by lia; vm_compute; reflexivity|].
  split; [rewrite Hr by lia; vm_compute; reflexivity|].
  rewrite Hu; [vm_compute; reflexivity|]. not_in_list.
Defined.

(** ** Joining and wrapping *)

Lemma len_app {A} (l1 l2 : list A) : len (l1 ++ l2) = len l1 + len l2.
Proof. unfold len. rewrite length_app. lia. Qed.

Lemma len_nonneg {A} (l : list A) : 0 <= len l.
Proof. unfold len. lia. Qed.

Lemma sum_len_app ws1 ws2 : sum_len (ws1 ++ ws2) = sum_len ws1 + sum_len ws2.
Proof. induction ws1 as [|w ws1 IH]; simpl; lia. Qed.

Lemma join_cons sep x l :
  l <> [] -> join sep (x :: l) = x ++ sep ++ join sep l.
Proof. by destruct l. Qed.

Lemma join_app sep l1 l2 :
  l1 <> [] -> l2 <> [] -> join sep (l1 ++ l2) = join sep l1 ++ sep ++ join sep l2.
Proof.
  intros H1 H2. induction l1 as [|x l1 IH]; [done|].
  destruct (decide (l1 = [])) as [->|Hne].
  - simpl. by destruct l2.
  - rewrite <- app_comm_cons, !join_cons, IH, <- !app_assoc; try done.
    by destruct l1.
Qed.

Lemma join_snoc sep l x :
  l <> [] -> join sep (l ++ [x]) = join sep l ++ sep ++ x.
Proof. intros Hl. by rewrite join_app. Qed.

(** The length of a joined line: the words and the single spaces between
    them. *)
Lemma len_join_space ws :
  ws <> [] -> len (join (u " ") ws) = sum_len ws + len ws - 1.
Proof.
  induction ws as [|w ws IH]; [done|]. intros _.
  destruct ws as [|w' ws].
  - simpl. unfold len. simpl. lia.
  - rewrite join_cons, !len_app, IH by done.
    change (len (u " ")) with 1. change (sum_len (w :: w' :: ws)) with (len w + sum_len (w' :: ws)).
    unfold len. rewrite !length_cons. lia.
Qed.

(** Joining lines that are themselves joined groups of words is joining
    all the words. *)
Lemma join_join sep (gs : list (list pystr)) :
  Forall (fun g => g <> []) gs ->
  join sep (join sep <$> gs) = join sep (concat gs).
Proof.
  induction 1 as [|g gs Hg Hgs IH]; [reflexivity|].
  destruct gs as [|g' gs].
  - simpl. by rewrite app_nil_r.
  - rewrite fmap_cons, join_cons, IH by done.
    change (concat (g :: g' :: gs)) with (g ++ concat (g' :: gs)).
    rewrite join_app; [done|done|].
    inversion Hgs; subst. simpl. by destruct g'.
Qed.

Lemma wrap_step_inv W ws st w :
  wrap_inv W ws st -> wrap_inv W (ws ++ [w]) (wrap_step W W st w).
Proof.
  intros (gs & Hlines & Hgs & Hws & Hlen & Hcur).
  unfold wrap_step.
  replace (if is_first_line st then W else W) with W by (by destruct (is_first_line st)).
  destruct (Z.leb_spec (current_length st + len w + len (current_line st)) W) as [Hfit|Hfit].
  - exists gs. simpl. repeat split; try done.
    + rewrite <- Hws. by rewrite app_assoc.
    + rewrite sum_len_app. simpl. lia.
    + right. left. rewrite len_join_space by (by destruct (current_line st)).
      rewrite sum_len_app, len_app. change (len [w]) with 1. simpl. lia.
  - destruct (current_line st) as [|w0 cur] eqn:Ecur; simpl.
    + exists gs. simpl. repeat split; try done.
      * rewrite <- Hws. by rewrite app_nil_r.
      * lia.
      * right. right. exists w. split; [done|]. change (len []) with 0 in Hfit. simpl in *. lia.
    + exists (gs ++ [w0 :: cur]). simpl. repeat split.
      * rewrite fmap_app. by rewrite Hlines.
      * apply Forall_app. split; [done|]. constructor; [|done].
        split; [done|]. by destruct Hcur.
      * rewrite concat_app. simpl. rewrite app_nil_r. by rewrite <- Hws.
      * lia.
      * destruct (Z.le_gt_cases (len w) W) as [Hw|Hw].
        -- right. left. simpl. done.
        -- right. right. eauto.
Qed.

Lemma wrap_fold_inv W ws' ws st :
  wrap_inv W ws st -> wrap_inv W (ws ++ ws') (foldl (wrap_step W W) st ws').
Proof.
  revert ws st. induction ws' as [|w ws' IH]; intros ws st Hinv; simpl.
  - by rewrite app_nil_r.
  - replace (ws ++ w :: ws') with ((ws ++ [w]) ++ ws') by (by rewrite <- app_assoc).
    apply IH. by apply wrap_step_inv.
Qed.

(** The lines of [wrap_text] with no indents are the joins of consecutive
    non-empty groups of the words of the text, each within the width or a
    single over-long word. *)
Lemma wrap_text_groups text W :
  exists gs : list (list pystr),
    wrap_text text W 0 0 = join (u " ") <$> gs
    /\ Forall (fun g => g <> [] /\ line_ok W g) gs
    /\ concat gs = split_ws text.
Proof.
  unfold wrap_text. rewrite !Z.sub_0_r.
  set (st0 := {| lines := []; current_line := []; current_length := 0;
                 is_first_line := true |}).
  destruct (wrap_fold_inv W (split_ws text) [] st0) as (gs & Hl & Hgs & Hws & _ & Hcur).
  { exists []. simpl. repeat split; auto. }
  simpl in Hws.
  destruct (current_line _) as [|w cur] eqn:Ecur; simpl.
  - exists gs. rewrite app_nil_r in Hws. done.
  - exists (gs ++ [w :: cur]). repeat split.
    + rewrite fmap_app. by rewrite Hl.
    + apply Forall_app. split; [done|]. constructor; [|done].
      split; [done|]. by destruct Hcur.
    + rewrite concat_app. simpl. by rewrite app_nil_r.
Qed.

(** C5. With both indents zero, the lines [wrap_text] returns, rejoined
    with single spaces, are the whitespace-normalized text (its words
    joined with single spaces); and every line is at most [W] characters
    long unless it is a single word of the text that is itself longer
    than [W]. *)
Theorem wrap_text_reconstructs_and_fits (text : pystr) (W : Z) :
  join (u " ") (wrap_text text W 0 0) = join (u " ") (split_ws text)
  /\ forall line, line ∈ wrap_text text W 0 0 ->
       len line <= W \/ (line ∈ split_ws text /\ W < len line).
Proof.
  destruct (wrap_text_groups text W) as (gs & -> & Hgs & Hws). split.
  - rewrite <- Hws. apply join_join.
    eapply Forall_impl; [exact Hgs|]. by intros g [? _].
  - intros line Hin. apply list_elem_of_fmap in Hin as (g & -> & Hg).
    rewrite Forall_forall in Hgs. destruct (Hgs g Hg) as [_ [Hfit|(w & -> & Hw)]].
    + by left.
    + right. simpl. split; [|done].
      rewrite <- Hws. apply list_elem_of_In, in_concat.
      exists [w]. split; [by apply list_elem_of_In|by left].
Qed.

Lemma wrap_text_reconstructs_and_fits_witness :
  wrap_text (u "  the quick  brown fox jumped") 9 0 0
  = [u "the quick"; u "brown fox"; u "jumped"]
  /\ join (u " ") [u "the quick"; u "brown fox"; u "jumped"]
     = join (u " ") (split_ws (u "  the quick  brown fox jumped"))
  /\ (len (u "the quick") <= 9
      \/ (u "the quick" ∈ split_ws (u "  the quick  brown fox jumped")
          /\ 9 < len (u "the quick"))).
Proof.
  destruct (wrap_text_reconstructs_and_fits (u "  the quick  brown fox jumped") 9)
    as [Hjoin Hfit].
  assert (Hw : wrap_text (u "  the quick  brown fox jumped") 9 0 0
               = [u "the quick"; u "brown fox"; u "jumped"])
    by (vm_compute; reflexivity).
  split; [exact Hw|]. rewrite Hw in Hjoin, Hfit. split; [exact Hjoin|].
  apply Hfit. by left.
Defined.
(** ** Sorting *)

Lemma str_lt_irrefl a : str_lt a a = false.
Proof.
  induction a as [|x a IH]; [done|]. simpl.
  rewrite N.ltb_irrefl, N.eqb_refl. done.
Qed.

Lemma str_lt_trichotomy a b : str_lt a b = true \/ a = b \/ str_lt b a = true.
Proof.
  revert b. induction a as [|x a IH]; intros [|y b]; simpl; auto.
  destruct (N.lt_trichotomy x y) as [Hlt|[->|Hgt]].
  - left. apply N.ltb_lt in Hlt. by rewrite Hlt.
  - rewrite N.ltb_irrefl, N.eqb_refl. simpl.
    destruct (IH b) as [?|[->|?]]; auto.
  - right. right. apply N.ltb_lt in Hgt. by rewrite Hgt.
Qed.

Lemma str_lt_trans a b c :
  str_lt a b = true -> str_lt b c = true -> str_lt a c = true.
Proof.
  revert b c. induction a as [|x a IH]; intros [|y b] [|z c]; simpl; try done.
  intros Hab Hbc.
  apply orb_true_iff in Hab as [Hab|Hab]; apply orb_true_iff in Hbc as [Hbc|Hbc].
  - apply N.ltb_lt in Hab, Hbc. apply orb_true_iff. left. apply N.ltb_lt. lia.
  - apply andb_true_iff in Hbc as [Hbc _]. apply N.eqb_eq in Hbc as <-.
    by rewrite Hab.
  - apply andb_true_iff in Hab as [Hab _]. apply N.eqb_eq in Hab as <-.
    by rewrite Hbc.
  - apply andb_true_iff in Hab as [Hxy Hab]. apply andb_true_iff in Hbc as [Hyz Hbc].
    apply N.eqb_eq in Hxy as <-. rewrite Hyz. simpl.
    rewrite (IH _ _ Hab Hbc). apply orb_true_r.
Qed.

(** [not (b < a)] and [not (c < b)] give [not (c < a)]. *)
Lemma str_ge_trans a b c :
  str_lt b a = false -> str_lt c b = false -> str_lt c a = false.
Proof.
  intros Hba Hcb. destruct (str_lt c a) eqn:Hca; [|done].
  destruct (str_lt_trichotomy a b) as [Hab|[->|Hab]]; [|congruence..].
  rewrite (str_lt_trans _ _ _ Hca Hab) in Hcb. done.
Qed.

Section SortedBy.
Context {A : Type} (key : A -> pystr).

Lemma insert_by_perm x l : insert_by key x l ≡ₚ x :: l.
Proof.
  induction l as [|y l IH]; simpl; [done|].
  destruct (str_lt (key y) (key x)); [|done].
  rewrite IH. apply Permutation_swap.
Qed.

Lemma sorted_perm l : sorted key l ≡ₚ l.
Proof.
  induction l as [|x l IH]; simpl; [done|].
  by rewrite insert_by_perm, IH.
Qed.

Lemma insert_by_ordered x l :
  ordered_by key l -> ordered_by key (insert_by key x l).
Proof.
  unfold ordered_by. induction 1 as [|y l Hl IH Hy]; simpl.
  - repeat constructor.
  - destruct (str_lt (key y) (key x)) eqn:Hyx.
    + constructor; [done|].
      rewrite insert_by_perm. constructor; [|done].
      destruct (str_lt (key x) (key y)) eqn:Hxy; [|done].
      pose proof (str_lt_trans _ _ _ Hxy Hyx) as Hc.
      by rewrite str_lt_irrefl in Hc.
    + constructor; [by constructor|].
      constructor; [done|].
      eapply Forall_impl; [exact Hy|]. simpl. intros z Hz.
      by apply (str_ge_trans _ (key y)).
Qed.

Lemma sorted_ordered l : ordered_by key (sorted key l).
Proof.
  induction l as [|x l IH]; simpl; [constructor|].
  by apply insert_by_ordered.
Qed.

Lemma insert_by_stable x l : stable_by key (x :: l) (insert_by key x l).
Proof.
  intros k. induction l as [|y l IH]; simpl; [done|].
  destruct (str_lt (key y) (key x)) eqn:Hyx; [|done].
  rewrite !filter_cons in *.
  destruct (decide (key y = k)) as [Hy|Hy]; destruct (decide (key x = k)) as [Hx|Hx];
    try (by rewrite IH).
  rewrite Hy, Hx, str_lt_irrefl in Hyx. done.
Qed.

Lemma sorted_stable l : stable_by key l (sorted key l).
Proof.
  intros k. induction l as [|x l IH]; simpl; [done|].
  rewrite insert_by_stable, !filter_cons. by rewrite IH.
Qed.

(** In an ordered list, an element with a strictly smaller key comes
    first. *)
Lemma ordered_lookup_lt l i j x y :
  ordered_by key l -> l !! i = Some x -> l !! j = Some y ->
  str_lt (key y) (key x) = true -> (j < i)%nat.
Proof.
  unfold ordered_by. intros Hl. revert i j.
  induction Hl as [|z l Hl IH Hz]; intros i j Hi Hj Hlt; [done|].
  destruct i as [|i], j as [|j]; simpl in *.
  - simplify_eq. by rewrite str_lt_irrefl in Hlt.
  - simplify_eq. rewrite Forall_forall in Hz.
    rewrite (Hz y) in Hlt; [done|]. by eapply list_elem_of_lookup_2.
  - lia.
  - apply ->Nat.succ_lt_mono. by eapply IH.
Qed.

End SortedBy.

(** The ordered list that keeps equal keys in their order is unique, so
    [sorted] is the result of any stable sort by [<]. *)
Lemma ordered_stable_unique {A} (key : A -> pystr) (l1 l2 : list A) :
  ordered_by key l1 -> ordered_by key l2 ->
  (forall k, filter (fun x => key x = k) l1 = filter (fun x => key x = k) l2) ->
  l1 = l2.
Proof.
  unfold ordered_by. intros H1. revert l2.
  induction H1 as [|x l1 H1 IH Hx]; intros l2 H2 Hf.
  - destruct l2 as [|y l2]; [done|].
    specialize (Hf (key y)). rewrite filter_cons_True in Hf by done. done.
  - destruct H2 as [|y l2 H2 Hy].
    { specialize (Hf (key x)). rewrite filter_cons_True in Hf by done. done. }
    assert (Hxy : str_lt (key x) (key y) = false).
    { assert (x ∈ y :: l2) as Hin.
      { eapply (list_elem_of_filter (fun z => key z = key x)).
        rewrite <- Hf, filter_cons_True by done. by left. }
      apply elem_of_cons in Hin as [->|Hin]; [apply str_lt_irrefl|].
      rewrite Forall_forall in Hy. by apply Hy. }
    assert (Hyx : str_lt (key y) (key x) = false).
    { assert (y ∈ x :: l1) as Hin.
      { eapply (list_elem_of_filter (fun z => key z = key y)).
        rewrite Hf, filter_cons_True by done. by left. }
      apply elem_of_cons in Hin as [->|Hin]; [apply str_lt_irrefl|].
      rewrite Forall_forall in Hx. by apply Hx. }
    assert (Hk : key x = key y).
    { destruct (str_lt_trichotomy (key x) (key y)) as [?|[?|?]]; congruence. }
    pose proof (Hf (key x)) as Hhead.
    rewrite filter_cons_True in Hhead by done.
    rewrite (filter_cons_True _ y) in Hhead by done.
    injection Hhead as -> Htail. f_equal. apply IH; [done|].
    intros k. destruct (decide (key y = k)) as [<-|Hne]; [done|].
    specialize (Hf k). by rewrite !filter_cons_False in Hf.
Qed.

Lemma sorted_unique {A} (key : A -> pystr) (l l' : list A) :
  ordered_by key l' -> stable_by key l l' -> l' = sorted key l.
Proof.
  intros Ho Hs. apply (ordered_stable_unique key); [done|apply sorted_ordered|].
  intros k. by rewrite Hs, sorted_stable.
Qed.

Lemma sort_entries_other {T : PyText} order entries :
  order ∉ [u "author"; u "year"; u "title"] -> sort_entries order entries = entries.
Proof.
  intros Ho. unfold sort_entries.
  repeat (rewrite bool_decide_eq_false_2;
          [| intros ->; apply Ho; apply list_elem_of_In; vm_compute; tauto]).
  reflexivity.
Qed.

Lemma sort_entries_perm {T : PyText} order entries :
  sort_entries order entries ≡ₚ entries.
Proof.
  unfold sort_entries. repeat case_bool_decide; try done; apply sorted_perm.
Qed.

(** The counterexample to C7 as stated: sorted by year, an entry without a
    year stays in front of an entry whose year is the text "in press". *)
Lemma sort_year_missing_before_in_press :
  let a := {| type := VStr (u "article"); key := VStr (u "a");
              fields := {[ f_title := u "First" ]} |} in
  let b := {| type := VStr (u "article"); key := VStr (u "b");
              fields := {[ f_year := u "in press" ]} |} in
  fields a !! f_year = None
  /\ fields b !! f_year = Some (u "in press")
  /\ sort_entries (T := ascii_text) (u "year") [a; b] = [a; b].
Proof. vm_compute. auto. Qed.

(** C7 (amended). Sorting by "appearance", or by any order other than
    author, year and title, returns the input list; sorting by any order
    returns a permutation of the input that keeps entries with equal keys
    in their input order; and sorting by "year" places every entry with a
    missing year after every entry whose year text is less than "9999". *)
Theorem sort_entries_identity_stable_year {T : PyText} :
  (forall entries, sort_entries (u "appearance") entries = entries)
  /\ (forall order entries,
        order ∉ [u "author"; u "year"; u "title"] ->
        sort_entries order entries = entries)
  /\ (forall order entries, sort_entries order entries ≡ₚ entries)
  /\ (forall entries, stable_by author_key entries (sort_entries (u "author") entries))
  /\ (forall entries, stable_by year_key entries (sort_entries (u "year") entries))
  /\ (forall entries, stable_by title_key entries (sort_entries (u "title") entries))
  /\ (forall entries i j x y v,
        sort_entries (u "year") entries !! i = Some x ->
        sort_entries (u "year") entries !! j = Some y ->
        fields x !! f_year = None ->
        fields y !! f_year = Some v ->
        str_lt v (u "9999") = true ->
        (j < i)%nat).
Proof.
  split; [intros; apply sort_entries_other; not_in_list|].
  split; [apply @sort_entries_other|].
  split; [apply @sort_entries_perm|].
  split; [intros; apply sorted_stable|].
  split; [intros; apply sorted_stable|].
  split; [intros; apply sorted_stable|].
  intros entries i j x y v Hi Hj Hx Hy Hv.
  eapply (ordered_lookup_lt year_key); [apply sorted_ordered|exact Hi|exact Hj|].
  unfold year_key, fields_get. by rewrite Hx, Hy.
Qed.

Lemma sort_entries_identity_stable_year_witness :
  let a := {| type := VStr (u "article"); key := VStr (u "a");
              fields := {[ f_title := u "First" ]} |} in
  let b := {| type := VStr (u "article"); key := VStr (u "b");
              fields := {[ f_year := u "2020" ]} |} in
  sort_entries (T := ascii_text) (u "by-key") [a; b] = [a; b]
  /\ sort_entries (T := ascii_text) (u "year") [a; b] = [b; a]
  /\ (0 < 1)%nat.
Proof.
  intros a b.
  destruct (sort_entries_identity_stable_year (T := ascii_text))
    as (_ & Hother & _ & _ & _ & _ & Hyear).
  split.
  - apply Hother. not_in_list.
  - split; [vm_compute; reflexivity|].
    apply (Hyear [a; b] 1%nat 0%nat a b (u "2020")); vm_compute; reflexivity.
Defined.

(** ** Layout *)

Lemma marker_of_ok style index :
  0 <= index -> get_numbering_marker style index = Ok (marker_of style index).
Proof.
  intros Hi. unfold marker_of.
  by destruct (marker_total style index Hi) as [m ->].
Qed.

Lemma reference_lines_block opts max_chars n acc i ref :
  0 <= i ->
  reference_lines opts max_chars (len (marker_of (numbering_style opts) n) + 1)
                  acc (i, ref)
  = Ok (acc ++ reference_block opts max_chars n i ref).
Proof.
  intros Hi. unfold reference_lines, reference_block, continuation_indent, indents.
  rewrite marker_of_ok by done. simpl.
  by destruct (hanging_indent opts && truthy _).
Qed.

Lemma layout_loop opts max_chars n refs : forall start acc,
  0 <= start ->
  foldM (reference_lines opts max_chars
           (len (marker_of (numbering_style opts) n) + 1))
        acc (enumerate start refs)
  = Ok (acc ++ concat (imap (fun k ref =>
          reference_block opts max_chars n (start + Z.of_nat k) ref) refs)).
Proof.
  induction refs as [|ref refs IH]; intros start acc Hs.
  - simpl. by rewrite app_nil_r.
  - cbn [enumerate]. rewrite foldM_cons, reference_lines_block, bind_Ok by done.
    rewrite IH by lia. cbn [imap concat].
    rewrite Z.add_0_r, <- app_assoc. do 4 f_equal.
    apply imap_ext. intros k x _. simpl. f_equal. lia.
Qed.

(** The counterexample to C4 as stated: with ten numbered references the
    first one, whose own marker "[1]" has three characters, is wrapped
    with continuation indent 5 and not 4; at width 10 that gives three
    lines where indent 4 would give two. *)
Lemma layout_indent_from_last_marker :
  let opts := {| numbering_style := u "numeric"; hanging_indent := true;
                 indent_size := 20; show_title := false;
                 title_text := u "References" |} in
  let refs := u "aaaaaa bb ccc" :: replicate 9 (u "x") in
  get_numbering_marker (u "numeric") 1 = Ok (u "[1]")
  /\ ((fun ls => take 3 (text <$> ls)) <$> add_references_to_document opts 10 refs)
     = Ok [u "[1] aaaaaa"; u "bb"; u "ccc"]
  /\ wrap_text (u "[1] aaaaaa bb ccc") 10 0 (len (u "[1]") + 1)
     = [u "[1] aaaaaa"; u "bb ccc"]
  /\ wrap_text (u "[1] aaaaaa bb ccc") 10 0 5
     = [u "[1] aaaaaa"; u "bb"; u "ccc"].
Proof. vm_compute. auto. Qed.

(** C4 (amended). The line list is the title line, if shown, followed by
    the lines of each reference in turn; the reference at position [i]
    (from 1) of [n] is wrapped with first-line indent 0 and, when hanging
    indent is enabled and its marker is not empty, a continuation indent
    of one more than the length of the marker of the last position [n],
    the same for every reference; otherwise the continuation indent is 0.
    Every marker involved is produced without an exception. *)
Theorem layout_hanging_indent (opts : Options) (max_chars : Z) (formatted_refs : list pystr) :
  add_references_to_document opts max_chars formatted_refs
  = Ok (title_block opts ++
        concat (imap (fun k ref =>
                  reference_block opts max_chars (len formatted_refs)
                                  (1 + Z.of_nat k) ref) formatted_refs))
  /\ (forall i, 0 <= i ->
        get_numbering_marker (numbering_style opts) i
        = Ok (marker_of (numbering_style opts) i)).
Proof.
  split; [|intros; by apply marker_of_ok].
  unfold add_references_to_document. rewrite marker_of_ok, bind_Ok by apply len_nonneg.
  by rewrite layout_loop.
Qed.

Lemma layout_hanging_indent_witness :
  let opts := {| numbering_style := u "roman"; hanging_indent := true;
                 indent_size := 20; show_title := true;
                 title_text := u "References" |} in
  ((fun ls : list Line => text <$> ls)
     <$> add_references_to_document opts 12 [u "Alpha beta gamma."; u "Delta."])
  = Ok [u "References"; u "i. Alpha"; u "beta"; u "gamma."; u "ii. Delta."]
  /\ get_numbering_marker (u "roman") 2 = Ok (u "ii.").
Proof.
  intros opts.
  destruct (layout_hanging_indent opts 12 [u "Alpha beta gamma."; u "Delta."])
    as [Hl Hm].
  split; [rewrite Hl; vm_compute; reflexivity|].
  change (u "roman") with (numbering_style opts).
  rewrite Hm by lia. vm_compute. reflexivity.
Defined.

(** ** Author names *)

Lemma split_ws_from_nonempty cur s : Forall (fun w => w <> []) (split_ws_from cur s).
Proof.
  revert cur. induction s as [|c s IH]; intros cur; simpl.
  - destruct cur; simpl; constructor; [|constructor].
    intros Hr. by destruct (rev cur).
  - destruct (isspace c); [|apply IH].
    destruct cur; simpl; [apply IH|]. constructor; [|apply IH].
    intros Hr. by destruct (rev cur).
Qed.

Lemma split_ws_nonempty s : Forall (fun w => w <> []) (split_ws s).
Proof. apply split_ws_from_nonempty. Qed.

(** The words of a text hold no whitespace. *)
Lemma split_ws_from_no_space cur s :
  Forall (fun c => isspace c = false) cur ->
  Forall (Forall (fun c => isspace c = false)) (split_ws_from cur s).
Proof.
  revert cur. induction s as [|c s IH]; intros cur Hcur; simpl.
  - destruct cur; simpl; constructor; [|constructor].
    change (rev cur ++ [n]) with (rev (n :: cur)). by apply Forall_rev.
  - destruct (isspace c) eqn:Hc.
    + destruct cur; simpl; [by apply IH|]. constructor; [|by apply IH].
      change (rev cur ++ [n]) with (rev (n :: cur)). by apply Forall_rev.
    + apply IH. by constructor.
Qed.

Lemma split_ws_no_space s :
  Forall (Forall (fun c => isspace c = false)) (split_ws s).
Proof. by apply split_ws_from_no_space. Qed.


Lemma last_item_snoc {A} (l : list A) (x : A) : last_item (l ++ [x]) = Ok x.
Proof.
  unfold last_item, getitem, len. rewrite length_app. simpl.
  destruct (Z.ltb_spec (-1 + Z.of_nat (length l + 1)) 0); [lia|].
  replace (Z.to_nat (-1 + Z.of_nat (length l + 1))) with (length l) by lia.
  by rewrite list_lookup_middle.
Qed.

Lemma but_last_snoc {A} (l : list A) (x : A) : but_last (l ++ [x]) = l.
Proof.
  unfold but_last. rewrite length_app. simpl.
  replace (length l + 1 - 1)%nat with (length l) by lia.
  by rewrite take_app_length.
Qed.

Lemma getitem_0 {A} (x : A) (l : list A) : getitem (x :: l) 0 = Ok x.
Proof. reflexivity. Qed.

Lemma getitem_1 {A} (x y : A) (l : list A) : getitem (x :: y :: l) 1 = Ok y.
Proof. reflexivity. Qed.

Lemma join_nil_concat l : join [] l = concat l.
Proof.
  induction l as [|x l IH]; [done|].
  destruct l as [|y l]; simpl in *; [by rewrite app_nil_r|]. by rewrite IH.
Qed.

Lemma initials_of_take parts :
  Forall (fun w => w <> []) parts -> initials_of parts = take 1 <$> parts.
Proof.
  induction 1 as [|p parts Hp _ IH]; [done|].
  unfold initials_of in *. cbn [mbind list_bind]. fold (@mbind list _). 
  destruct p as [|c p]; [done|]. simpl. f_equal. exact IH.
Qed.

Lemma mapM_pure {A B} (f : A -> result B) (g : A -> B) (l : list A) :
  (forall x, f x = Ok (g x)) -> mapM f l = Ok (g <$> l).
Proof.
  intros Hf. induction l as [|x l IH]; [done|].
  by rewrite mapM_cons, Hf, IH.
Qed.

(** The token list of a name: empty, one token, or some tokens and a
    last one. *)
Lemma tokens_cases (l : list pystr) :
  l = [] \/ (exists w, l = [w]) \/ (exists before w, l = before ++ [w] /\ before <> []).
Proof.
  destruct l as [|w0 l] using rev_ind; [by left|]. right.
  destruct l as [|w1 l]; [left; by eexists|].
  right. by exists (w1 :: l), w0.
Qed.

Lemma reverse_cons_inv {A} (l : list A) : l <> [] -> exists x r, reverse l = x :: r.
Proof.
  destruct l using rev_ind; [done|]. intros _. rewrite reverse_snoc. eauto.
Qed.

Lemma author_abbreviated_spec author :
  author_abbreviated author = Ok (last_initials author).
Proof.
  unfold author_abbreviated, last_initials.
  pose proof (split_ws_nonempty author) as Hne.
  destruct (tokens_cases (split_ws author)) as [E|[[w E]|(before & w & E & Hb)]];
    rewrite E in *; [done|done|].
  apply Forall_app in Hne as [Hne _].
  rewrite reverse_snoc.
  destruct (reverse_cons_inv before Hb) as (x & r & Hr).
  assert (before = reverse (x :: r)) as Hbefore by (by rewrite <- Hr, reverse_involutive).
  rewrite Hr.
  destruct (Z.ltb_spec 1 (len (before ++ [w]))) as [_|Hlen].
  - rewrite but_last_snoc, last_item_snoc, bind_Ok.
    by rewrite join_nil_concat, initials_of_take, Hbefore.
  - rewrite len_app in Hlen. destruct before; [done|].
    unfold len in Hlen. simpl in Hlen. lia.
Qed.

Lemma author_initials_dotted_spec author :
  author_initials_dotted author = Ok (last_dotted author).
Proof.
  unfold author_initials_dotted, last_dotted.
  pose proof (split_ws_nonempty author) as Hne.
  destruct (tokens_cases (split_ws author)) as [E|[[w E]|(before & w & E & Hb)]];
    rewrite E in *; [done|done|].
  apply Forall_app in Hne as [Hne _].
  rewrite reverse_snoc.
  destruct (reverse_cons_inv before Hb) as (x & r & Hr).
  assert (before = reverse (x :: r)) as Hbefore by (by rewrite <- Hr, reverse_involutive).
  rewrite Hr.
  destruct (Z.ltb_spec 1 (len (before ++ [w]))) as [_|Hlen].
  - rewrite but_last_snoc, last_item_snoc, bind_Ok.
    by rewrite initials_of_take, Hbefore.
  - rewrite len_app in Hlen. destruct before; [done|].
    unfold len in Hlen. simpl in Hlen. lia.
Qed.

Lemma author_names_nil : author_names [] = [].
Proof. reflexivity. Qed.

(** Decide the tests on a closed style identifier. *)
Ltac in_list := apply list_elem_of_In; vm_compute; tauto.
Ltac style_eval :=
  repeat first
    [ rewrite bool_decide_eq_true_2 by (first [reflexivity | in_list])
    | rewrite bool_decide_eq_false_2
        by (first [not_in_list | (let Hs := fresh in intros Hs; vm_compute in Hs; congruence)]) ].

(** From [style ∉ l], the tests of [style] against members of [l] fail. *)
Ltac style_not_in Hs :=
  first
    [ solve [intros ->; apply Hs; in_list]
    | let Hin := fresh in
      intros Hin; apply Hs;
      repeat (apply elem_of_cons in Hin as [->|Hin]; [in_list|]); inversion Hin ].
Ltac style_unknown Hs :=
  repeat (rewrite bool_decide_eq_false_2 by (style_not_in Hs)).

Lemma elem_of_3 {A} (x a b c : A) : x ∈ [a; b; c] -> x = a \/ x = b \/ x = c.
Proof.
  intros H. repeat (apply elem_of_cons in H as [H|H]; [auto|]). inversion H.
Qed.

Lemma elem_of_4 {A} (x a b c d : A) :
  x ∈ [a; b; c; d] -> x = a \/ x = b \/ x = c \/ x = d.
Proof.
  intros H. repeat (apply elem_of_cons in H as [H|H]; [auto|]). inversion H.
Qed.

(** The abbreviated family of [format_authors] *)
Lemma format_authors_abbreviated author_str style :
  style ∈ [u "ieee"; u "vancouver"; u "nature"] ->
  format_authors author_str style
  = Ok (join (u ", ") (last_initials <$> take 6 (author_names author_str))
        ++ (if 6 <? len (author_names author_str) then u ", et al." else [])).
Proof.
  intros Hs. destruct author_str as [|c s]; [by destruct (elem_of_3 _ _ _ _ Hs) as [->|[->| ->]]|].
  unfold format_authors. cbn [truthy negb].
  destruct (elem_of_3 _ _ _ _ Hs) as [->|[->| ->]]; style_eval;
    rewrite (mapM_pure _ last_initials) by apply author_abbreviated_spec;
    rewrite bind_Ok; (destruct (6 <? _); [done|by rewrite app_nil_r]).
Qed.

(** The fallback of [format_authors] *)
Lemma format_authors_fallback author_str style :
  style ∉ [u "apa"; u "apa7"; u "chicago"; u "harvard"; u "mla"; u "ieee";
           u "vancouver"; u "nature"] ->
  format_authors author_str style = Ok (join (u ", ") (author_names author_str)).
Proof.
  intros Hs. destruct author_str as [|c s]; [done|].
  unfold format_authors. cbn [truthy negb].
  by style_unknown Hs.
Qed.

Lemma last_initials_many author before surname :
  split_ws author = before ++ [surname] -> before <> [] ->
  last_initials author = surname ++ u " " ++ concat (take 1 <$> before).
Proof.
  intros E Hb. unfold last_initials. rewrite E, reverse_snoc.
  destruct (reverse_cons_inv before Hb) as (x & r & Hr). rewrite Hr.
  by rewrite <- Hr, reverse_involutive.
Qed.

Lemma last_initials_single author :
  len (split_ws author) <= 1 -> last_initials author = author.
Proof.
  intros Hlen. unfold last_initials.
  destruct (tokens_cases (split_ws author)) as [E|[[w E]|(before & w & E & Hb)]];
    rewrite E in *; [done|done|].
  rewrite len_app in Hlen. destruct before; [done|].
  unfold len in Hlen. simpl in Hlen. lia.
Qed.

(** An author of a single token passes through unchanged, and a comma
    separates authors: the author field "Knuth, Donald" is read as two
    authors of one token each. *)
Lemma abbreviated_single_token_unchanged :
  split_ws (u "Plato") = [u "Plato"]
  /\ format_authors (u "Plato") (u "ieee") = Ok (u "Plato")
  /\ u "Plato" <> u "Plato" ++ u " " ++ concat (take 1 <$> [])
  /\ author_names (u "Knuth, Donald") = [u "Knuth"; u "Donald"]
  /\ format_authors (u "Knuth, Donald") (u "ieee") = Ok (u "Knuth, Donald").
Proof. vm_compute. repeat split; try reflexivity. discriminate. Qed.

(** C9. For the styles ieee, vancouver and nature, [format_authors]
    renders each of the first six authors and joins the renderings with
    ", ", followed by ", et al." when there are more than six authors.
    An author is rendered as the last token, a space, and the
    concatenated first characters of the tokens before it; an author of
    a single token, which has no tokens before the last, passes through
    unchanged. *)
Theorem format_authors_abbreviated_family (author_str style : pystr) :
  style ∈ [u "ieee"; u "vancouver"; u "nature"] ->
  format_authors author_str style
  = Ok (join (u ", ") (last_initials <$> take 6 (author_names author_str))
        ++ (if 6 <? len (author_names author_str) then u ", et al." else []))
  /\ (forall author before surname,
        split_ws author = before ++ [surname] -> before <> [] ->
        last_initials author = surname ++ u " " ++ concat (take 1 <$> before))
  /\ (forall author, len (split_ws author) <= 1 -> last_initials author = author).
Proof.
  intros Hs. split; [by apply format_authors_abbreviated|].
  split; [apply last_initials_many|apply last_initials_single].
Qed.

Lemma format_authors_abbreviated_family_witness :
  format_authors (u "Ada B Lovelace and Alan Turing and C and D and E and F and G")
                 (u "nature")
  = Ok (u "Lovelace AB, Turing A, C, D, E, F, et al.")
  /\ last_initials (u "Ada B Lovelace") = u "Lovelace AB"
  /\ last_initials (u "Plato") = u "Plato".
Proof.
  destruct (format_authors_abbreviated_family
              (u "Ada B Lovelace and Alan Turing and C and D and E and F and G")
              (u "nature")) as (Hf & Hmany & Hone); [in_list|].
  split; [rewrite Hf; vm_compute; reflexivity|]. split.
  - rewrite (Hmany _ [u "Ada"; u "B"] (u "Lovelace")); [|vm_compute; reflexivity|done].
    vm_compute. reflexivity.
  - apply Hone. vm_compute. discriminate.
Defined.

(** ** Style dispatch *)

Lemma format_entry_apa entry :
  format_entry_python entry (u "apa")
  = (format_authors (fields_get (fields entry) f_author []) (u "apa") ≫= fun authors =>
     format_apa (type entry) authors (fields_get (fields entry) f_year (u "n.d."))
                (fields_get (fields entry) f_title []) (fields entry)).
Proof. unfold format_entry_python. by style_eval. Qed.

Lemma format_entry_unknown entry style :
  style ∉ format_styles ->
  format_entry_python entry style
  = format_apa (type entry)
               (join (u ", ") (author_names (fields_get (fields entry) f_author [])))
               (fields_get (fields entry) f_year (u "n.d."))
               (fields_get (fields entry) f_title []) (fields entry).
Proof.
  intros Hs. unfold format_entry_python.
  rewrite format_authors_fallback by style_not_in Hs.
  rewrite bind_Ok. by style_unknown Hs.
Qed.

(** The counterexample to C3 as stated: under an unknown style the author
    is not put in the "Last, F." form that style apa gives it. *)
Lemma format_entry_unknown_differs_from_apa :
  let entry := {| type := VStr (u "article"); key := VStr (u "smith2020");
                  fields := list_to_map
                    [(f_author, u "Jane Smith"); (f_year, u "2020");
                     (f_title, u "A Study"); (f_journal, u "J. Sci");
                     (f_volume, u "5"); (f_number, u "2"); (f_pages, u "10-20")] |} in
  format_entry_python entry (u "turabian")
    = Ok (u "Jane Smith (2020). A Study. J. Sci, 5(2), 10-20.")
  /\ format_entry_python entry (u "apa")
    = Ok (u "Smith, J. (2020). A Study. J. Sci, 5(2), 10-20.").
Proof. vm_compute. auto. Qed.

(** C3 (amended). For a style identifier that is none of the ten named
    ones, [format_entry_python] applies the apa composer to the authors
    as the fallback of [format_authors] renders them, joined with ", "
    and otherwise unmodified; the result is that of style "apa" whenever
    the apa rendering of the authors is that same string, in particular
    when the entry has no author field. *)
Theorem format_entry_unknown_style (entry : Entry) (style : pystr) :
  style ∉ format_styles ->
  format_entry_python entry style
  = format_apa (type entry)
               (join (u ", ") (author_names (fields_get (fields entry) f_author [])))
               (fields_get (fields entry) f_year (u "n.d."))
               (fields_get (fields entry) f_title []) (fields entry)
  /\ (format_authors (fields_get (fields entry) f_author []) (u "apa")
      = Ok (join (u ", ") (author_names (fields_get (fields entry) f_author []))) ->
      format_entry_python entry style = format_entry_python entry (u "apa"))
  /\ (fields entry !! f_author = None ->
      format_entry_python entry style = format_entry_python entry (u "apa")).
Proof.
  intros Hs. split; [by apply format_entry_unknown|]. split.
  - intros Ha. by rewrite format_entry_unknown, format_entry_apa, Ha.
  - intros Ha. rewrite format_entry_unknown, format_entry_apa by done.
    unfold fields_get. by rewrite Ha.
Qed.

Lemma format_entry_unknown_style_witness :
  let entry := {| type := VStr (u "book"); key := VStr (u "k");
                  fields := {[ f_title := u "Elements" ]} |} in
  let entry' := {| type := VStr (u "book"); key := VStr (u "k");
                   fields := {[ f_author := u "Euclid"; f_title := u "Elements" ]} |} in
  format_entry_python entry (u "turabian") = Ok (u "(n.d.). Elements.")
  /\ format_entry_python entry (u "turabian") = format_entry_python entry (u "apa")
  /\ format_entry_python entry' (u "turabian") = format_entry_python entry' (u "apa").
Proof.
  intros entry entry'.
  destruct (format_entry_unknown_style entry (u "turabian")) as (Hf & _ & Hnone);
    [not_in_list|].
  destruct (format_entry_unknown_style entry' (u "turabian")) as (_ & Hsame & _);
    [not_in_list|].
  split; [rewrite Hf; vm_compute; reflexivity|].
  split; [apply Hnone; vm_compute; reflexivity|].
  apply Hsame. vm_compute. reflexivity.
Defined.

(** C10. The failing input: an entry whose author field is a lone comma,
    as [parse_bibtex] reads it from a file, has no author names, and
    under style mla [format_authors] reads the first of them; the
    exception leaves [format_entry_python] and [format_with_python]. The
    apa family guards the same read. *)
Theorem format_entry_mla_no_names_raises :
  let entry := {| type := VStr (u "article"); key := VStr (u "k");
                  fields := {[ f_author := u ","; f_title := u "A Study" ]} |} in
  parse_bibtex (T := ascii_text) (Ok (u "@article{k, author={,}, title={A Study}}"))
    = Ok [entry]
  /\ author_names (u ",") = []
  /\ format_entry_python entry (u "mla") = Raise IndexError
  /\ format_with_python (u "mla") [entry] = Raise IndexError
  /\ format_entry_python entry (u "apa") = Ok (u "(n.d.). A Study.").
Proof. vm_compute. repeat split; reflexivity. Qed.

(** ** Parsers *)

Lemma foldM_invariant {A S} (I : S -> Prop) (f : S -> A -> result S) (l : list A) :
  (forall s x s', x ∈ l -> I s -> f s x = Ok s' -> I s') ->
  forall s s', I s -> foldM f s l = Ok s' -> I s'.
Proof.
  induction l as [|x l IH]; intros Hf s s' Hs Hfold.
  - simpl in Hfold. by simplify_eq.
  - rewrite foldM_cons in Hfold. apply bind_inv in Hfold as (s1 & H1 & Hfold).
    eapply IH; [|eapply Hf; [by left|exact Hs|exact H1]|exact Hfold].
    intros s0 y s0' Hy. apply Hf. by right.
Qed.

Lemma mapM_Forall {A B} (P : B -> Prop) (f : A -> result B) (l : list A) (l' : list B) :
  (forall x y, f x = Ok y -> P y) -> mapM f l = Ok l' -> Forall P l'.
Proof.
  intros Hf. revert l'. induction l as [|x l IH]; intros l' Hm.
  - simpl in Hm. simplify_eq. constructor.
  - rewrite mapM_cons in Hm. apply bind_inv in Hm as (y & Hy & Hm).
    apply bind_inv in Hm as (ys & Hys & Hm). simplify_eq.
    constructor; [by eapply Hf|by apply IH].
Qed.

Lemma within_schema_empty : within_schema ∅.
Proof. intros k [v Hv]. by rewrite lookup_empty in Hv. Qed.

Lemma within_schema_insert fields k v :
  k ∈ schema -> within_schema fields -> within_schema (<[k := v]> fields).
Proof.
  intros Hk Hf k' Hk'. destruct (decide (k = k')) as [<-|Hne]; [done|].
  rewrite lookup_insert_ne in Hk' by done. by apply Hf.
Qed.

Create HintDb schema.
#[local] Hint Resolve within_schema_empty : schema.
#[local] Hint Extern 1 (_ ∈ schema) => in_list : schema.
#[local] Hint Extern 2 (within_schema (<[_ := _]> _)) =>
  apply within_schema_insert : schema.

Section ParserProperties.
Context {T : PyText}.

Lemma ris_line_schema st line st' :
  within_schema st.1 -> ris_line st line = Ok st' -> within_schema st'.1.
Proof.
  destruct st as [fields entry_type]. unfold ris_line. simpl. intros Hf Hl.
  repeat case_match; simplify_eq; simpl; auto with schema;
    try (apply bind_inv in Hl as (? & ? & ?); simplify_eq; simpl; auto with schema).
Qed.

Lemma endnote_line_schema st line st' :
  within_schema st.1 -> endnote_line st line = Ok st' -> within_schema st'.1.
Proof.
  destruct st as [fields entry_type]. unfold endnote_line. simpl. intros Hf Hl.
  case_match; simplify_eq; [done|].
  apply bind_inv in Hl as (c & _ & Hl).
  repeat case_match; simplify_eq; simpl; auto with schema;
    try (apply bind_inv in Hl as (? & ? & ?); simplify_eq; simpl; auto with schema).
Qed.

Lemma record_entry_schema st :
  within_schema st.1 -> Forall (fun e => within_schema (fields e)) (record_entry st).
Proof.
  destruct st as [fields entry_type]. unfold record_entry. simpl. intros Hf.
  case_bool_decide; [constructor|]. constructor; [done|constructor].
Qed.

Lemma ris_record_schema entries record entries' :
  Forall (fun e => within_schema (fields e)) entries ->
  ris_record entries record = Ok entries' ->
  Forall (fun e => within_schema (fields e)) entries'.
Proof.
  unfold ris_record. intros He Hr. case_match; simplify_eq; [done|].
  apply bind_inv in Hr as (st & Hst & Hr). simplify_eq.
  apply Forall_app. split; [done|]. apply record_entry_schema.
  exact (foldM_invariant (fun st => within_schema st.1) ris_line _
           (fun s x s' _ => ris_line_schema s x s') (∅, u "article") st
           within_schema_empty Hst).
Qed.

Lemma endnote_record_schema entries record entries' :
  Forall (fun e => within_schema (fields e)) entries ->
  endnote_record entries record = Ok entries' ->
  Forall (fun e => within_schema (fields e)) entries'.
Proof.
  unfold endnote_record. intros He Hr. case_match; simplify_eq; [done|].
  apply bind_inv in Hr as (st & Hst & Hr). simplify_eq.
  apply Forall_app. split; [done|]. apply record_entry_schema.
  exact (foldM_invariant (fun st => within_schema st.1) endnote_line _
           (fun s x s' _ => endnote_line_schema s x s') (∅, u "article") st
           within_schema_empty Hst).
Qed.

Lemma json_field_schema item fields names fields' :
  names ∈ field_map -> within_schema fields ->
  json_field item fields names = Ok fields' -> within_schema fields'.
Proof.
  intros Hn Hf. unfold json_field. destruct names as [json_name bib_field].
  intros Hj. apply bind_inv in Hj as ([] & _ & Hj); simplify_eq; [|done].
  apply bind_inv in Hj as (v & _ & Hj). simplify_eq.
  apply within_schema_insert; [|done].
  unfold field_map in Hn.
  repeat (apply elem_of_cons in Hn as [Hn|Hn]; [simplify_eq; in_list|]).
  inversion Hn.
Qed.

Lemma json_year_schema item fields fields' :
  within_schema fields -> json_year item fields = Ok fields' -> within_schema fields'.
Proof.
  intros Hf. unfold json_year. intros Hj.
  apply bind_inv in Hj as ([] & _ & Hj); simplify_eq; [|done].
  apply bind_inv in Hj as (issued & _ & Hj).
  apply bind_inv in Hj as ([] & _ & Hj).
  - repeat (apply bind_inv in Hj as (? & _ & Hj)). simplify_eq. auto with schema.
  - repeat case_match; simplify_eq; auto with schema.
Qed.

Lemma json_item_schema item entry :
  json_item item = Ok entry -> within_schema (fields entry).
Proof.
  unfold json_item. intros Hj.
  apply bind_inv in Hj as (has_author & _ & Hj).
  apply bind_inv in Hj as (fields0 & H0 & Hj).
  apply bind_inv in Hj as (fields1 & H1 & Hj).
  apply bind_inv in Hj as (fields2 & H2 & Hj).
  repeat (apply bind_inv in Hj as (? & _ & Hj)). simplify_eq. simpl.
  eapply json_year_schema; [|exact H2].
  eapply (foldM_invariant within_schema); [| |exact H1].
  - intros s0 names s0' Hnames. by apply json_field_schema.
  - destruct has_author; simplify_eq; [|apply within_schema_empty].
    repeat (apply bind_inv in H0 as (? & _ & H0)). simplify_eq. auto with schema.
Qed.

Lemma parse_ris_schema file :
  exists entries, parse_ris file = Ok entries
    /\ Forall (fun e => within_schema (fields e)) entries.
Proof.
  unfold parse_ris, try_except.
  destruct (parse_ris_try file) as [entries|e] eqn:Hp; [|by exists []].
  exists entries. split; [done|].
  unfold parse_ris_try in Hp. apply bind_inv in Hp as (content & _ & Hp).
  eapply (foldM_invariant (Forall (fun e => within_schema (fields e))));
    [|constructor|exact Hp].
  intros s x s' _. apply ris_record_schema.
Qed.

Lemma parse_endnote_schema file :
  exists entries, parse_endnote file = Ok entries
    /\ Forall (fun e => within_schema (fields e)) entries.
Proof.
  unfold parse_endnote, try_except.
  destruct (parse_endnote_try file) as [entries|e] eqn:Hp; [|by exists []].
  exists entries. split; [done|].
  unfold parse_endnote_try in Hp. apply bind_inv in Hp as (content & _ & Hp).
  eapply (foldM_invariant (Forall (fun e => within_schema (fields e))));
    [|constructor|exact Hp].
  intros s x s' _. apply endnote_record_schema.
Qed.

Lemma parse_json_schema loaded :
  exists entries, parse_json loaded = Ok entries
    /\ Forall (fun e => within_schema (fields e)) entries.
Proof.
  unfold parse_json, try_except.
  destruct (parse_json_try loaded) as [entries|e] eqn:Hp; [|by exists []].
  exists entries. split; [done|].
  unfold parse_json_try in Hp. apply bind_inv in Hp as (data & _ & Hp).
  apply bind_inv in Hp as (items & _ & Hp).
  eapply mapM_Forall; [|exact Hp]. intros x y. apply json_item_schema.
Qed.

(** The field names [parse_bibtex] keeps: every name the field pattern
    matches, lower-cased. *)
Lemma bibtex_fields_names fields_str k :
  is_Some (bibtex_fields fields_str !! k) <->
  exists m, m ∈ finditer field_pattern fields_str /\ k = str_lower (group m 1).
Proof.
  unfold bibtex_fields.
  assert (Hgen : forall (ms : list (gmap nat pystr)) (init : gmap pystr pystr),
    is_Some (foldl (fun fields field_match =>
                      <[str_lower (group field_match 1) :=
                          sub_group1 brace_pattern (strip (group field_match 2))]> fields)
                   init ms !! k) <->
    is_Some (init !! k) \/ exists m, m ∈ ms /\ k = str_lower (group m 1)).
  { induction ms as [|m ms IH]; intros init; simpl.
    - split; [by left|]. intros [?|(m & Hm & _)]; [done|inversion Hm].
    - rewrite IH. split.
      + intros [Hk|(m' & Hm' & ->)]; [|right; exists m'; split; [by right|done]].
        destruct (decide (str_lower (group m 1) = k)) as [<-|Hne].
        * right. exists m. split; [by left|done].
        * rewrite lookup_insert_ne in Hk by done. by left.
      + intros [Hk|(m' & Hm' & ->)].
        * left. destruct (decide (str_lower (group m 1) = k)) as [<-|Hne].
          -- rewrite lookup_insert_eq. by eexists.
          -- by rewrite lookup_insert_ne.
        * apply elem_of_cons in Hm' as [->|Hm'].
          -- left. rewrite lookup_insert_eq. by eexists.
          -- right. by exists m'. }
  rewrite Hgen. split; [|by right].
  intros [Hk|?]; [|done]. rewrite lookup_empty in Hk. by destruct Hk.
Qed.

End ParserProperties.

(** The counterexample to C1 as stated: [parse_bibtex] keeps the field
    "month", which is not in the schema. *)
Lemma parse_bibtex_keeps_month :
  parse_bibtex (T := ascii_text) (Ok (u "@article{k, month={jan}}"))
  = Ok [ {| type := VStr (u "article"); key := VStr (u "k");
            fields := {[ u "month" := u "jan" ]} |} ]
  /\ u "month" ∉ schema.
Proof. split; [vm_compute; reflexivity|not_in_list]. Qed.

(** C1 (amended). For every input, [parse_ris], [parse_json] and
    [parse_endnote] return entries whose fields have only names of the
    eight-field schema. [parse_bibtex] returns one entry for each match
    of the entry pattern, and its fields have exactly the names the
    field pattern matches, lower-cased, whether or not the schema has
    them. *)
Theorem parsers_field_names {T : PyText} :
  (forall file, exists entries,
      parse_ris file = Ok entries
      /\ Forall (fun e => within_schema (fields e)) entries)
  /\ (forall loaded, exists entries,
        parse_json loaded = Ok entries
        /\ Forall (fun e => within_schema (fields e)) entries)
  /\ (forall file, exists entries,
        parse_endnote file = Ok entries
        /\ Forall (fun e => within_schema (fields e)) entries)
  /\ (forall content,
        parse_bibtex (Ok content) = Ok (bibtex_entry <$> finditer entry_pattern content))
  /\ (forall m k,
        is_Some (fields (bibtex_entry m) !! k) <->
        exists fm, fm ∈ finditer field_pattern (group m 3)
                   /\ k = str_lower (group fm 1)).
Proof.
  split; [apply @parse_ris_schema|].
  split; [apply @parse_json_schema|].
  split; [apply @parse_endnote_schema|].
  split; [done|].
  intros m k. apply bibtex_fields_names.
Qed.

Lemma parsers_field_names_witness :
  let m : gmap nat pystr := {[ 3%nat := u "month={jan}" ]} in
  is_Some (fields (bibtex_entry (T := ascii_text) m) !! u "month")
  /\ exists fm, fm ∈ finditer (field_pattern (T := ascii_text)) (group m 3)
                /\ u "month" = str_lower (PyText := ascii_text) (group fm 1).
Proof.
  intros m.
  destruct (parsers_field_names (T := ascii_text)) as (_ & _ & _ & _ & Hnames).
  assert (Hm : is_Some (fields (bibtex_entry (T := ascii_text) m) !! u "month"))
    by (vm_compute; eauto).
  split; [exact Hm|]. by apply (proj1 (Hnames m (u "month"))).
Defined.

(** C8. Each parser returns a list of entries for every input, never an
    exception: the empty list when the file cannot be read or decoded
    (for [parse_json]: when [json.load] fails), and the empty list
    whenever anything else in its [try] block raises. *)
Theorem parsers_never_raise {T : PyText} :
  (forall file, exists entries, parse_bibtex file = Ok entries)
  /\ (forall file, exists entries, parse_ris file = Ok entries)
  /\ (forall loaded, exists entries, parse_json loaded = Ok entries)
  /\ (forall file, exists entries, parse_endnote file = Ok entries)
  /\ (forall e, parse_bibtex (Raise e) = Ok [] /\ parse_ris (Raise e) = Ok []
                /\ parse_json (Raise e) = Ok [] /\ parse_endnote (Raise e) = Ok [])
  /\ (forall file e, parse_bibtex_try file = Raise e -> parse_bibtex file = Ok [])
  /\ (forall file e, parse_ris_try file = Raise e -> parse_ris file = Ok [])
  /\ (forall loaded e, parse_json_try loaded = Raise e -> parse_json loaded = Ok [])
  /\ (forall file e, parse_endnote_try file = Raise e -> parse_endnote file = Ok []).
Proof.
  repeat split; try (intros; apply try_except_total);
    intros x e He; unfold parse_bibtex, parse_ris, parse_json, parse_endnote;
    by rewrite He.
Qed.

Lemma parsers_never_raise_witness :
  parse_json (T := ascii_text) (Ok (VInt 3)) = Ok []
  /\ parse_json (T := ascii_text)
       (Ok (VList [VDict [(u "title", VStr (u "A Study"))]; VInt 3])) = Ok []
  /\ parse_endnote (T := ascii_text)
       (Ok (u "%T A Study" ++ [c_newline] ++ u "%")) = Ok []
  /\ parse_ris (T := ascii_text) (Raise OSError) = Ok []
  /\ parse_bibtex (T := ascii_text) (Raise UnicodeDecodeError) = Ok [].
Proof.
  destruct (parsers_never_raise (T := ascii_text))
    as (_ & _ & _ & _ & _ & Hb & Hr & Hj & He).
  split; [apply (Hj _ TypeError); vm_compute; reflexivity|].
  split; [apply (Hj _ TypeError); vm_compute; reflexivity|].
  split; [apply (He _ IndexError); vm_compute; reflexivity|].
  split; [apply (Hr _ OSError); vm_compute; reflexivity|].
  apply (Hb _ UnicodeDecodeError); vm_compute; reflexivity.
Defined.

(** *** Readable RIS and BibTeX text never takes the [except] path *)

Lemma split_from_nonempty sep maxsplit skip cur s :
  split_from sep maxsplit skip cur s <> [].
Proof.
  revert maxsplit skip cur. induction s as [|c s IH]; intros maxsplit skip cur; simpl.
  - done.
  - destruct skip; [|apply IH].
    destruct (startswith sep (c :: s) && _); [done|apply IH].
Qed.

Lemma split_from_no_more sep skip cur s :
  exists x, split_from sep (Some O) skip cur s = [x].
Proof.
  revert skip cur. induction s as [|c s IH]; intros skip cur; cbn [split_from].
  - eauto.
  - destruct skip; [|apply IH].
    rewrite bool_decide_eq_true_2 by done. cbn [negb]. rewrite andb_false_r. apply IH.
Qed.

(** A line that contains the separator splits in two at its first
    occurrence. *)
Lemma split_max_1_contains sep cur s :
  sep <> [] -> contains sep s = true ->
  exists x y, split_from sep (Some 1%nat) O cur s = [x; y].
Proof.
  intros Hsep. revert cur. induction s as [|c s IH]; intros cur Hc.
  - by destruct sep.
  - cbn [split_from]. rewrite bool_decide_eq_false_2 by done.
    cbn [negb]. rewrite andb_true_r.
    destruct (startswith sep (c :: s)) eqn:Hs.
    + cbn [fmap option_fmap option_map pred].
      destruct (split_from_no_more sep (length sep - 1) [] s) as [y ->]. eauto.
    + cbn [contains] in Hc. rewrite Hs in Hc. by apply IH.
Qed.

Lemma foldM_total {A S} (f : S -> A -> result S) (l : list A) :
  (forall s x, exists s', f s x = Ok s') -> forall s, exists s', foldM f s l = Ok s'.
Proof.
  intros Hf. induction l as [|x l IH]; intros s; [simpl; eauto|].
  rewrite foldM_cons. destruct (Hf s x) as [s1 ->]. rewrite bind_Ok. apply IH.
Qed.

Section ReadableText.
Context {T : PyText}.

Lemma ris_line_total st line : exists st', ris_line st line = Ok st'.
Proof.
  destruct st as [fields entry_type]. unfold ris_line.
  destruct (negb (truthy (strip line)) || negb (contains (u "  -") (strip line))) eqn:Hskip;
    [eauto|].
  apply orb_false_iff in Hskip as [_ Hc]. apply negb_false_iff in Hc.
  destruct (split_max_1_contains (u "  -") [] (strip line)) as (tag & value & Hsplit);
    [done|done|].
  unfold split_max. rewrite Hsplit.
  assert (exists y, getitem (split (u "/") (strip value)) 0 = Ok y) as [y Hy].
  { pose proof (split_from_nonempty (u "/") None O [] (strip value)) as Hne.
    unfold split. destruct (split_from (u "/") None O [] (strip value)) as [|y l]; [done|].
    rewrite getitem_0. eauto. }
  unfold has, fields_item. rewrite Hy.
  repeat case_bool_decide; simpl; eauto;
    repeat (destruct (fields !! _); simpl; eauto).
Qed.

Lemma parse_ris_readable content :
  exists entries, parse_ris_try (Ok content) = Ok entries
                  /\ parse_ris (Ok content) = Ok entries.
Proof.
  unfold parse_ris, parse_ris_try. rewrite bind_Ok.
  destruct (foldM_total ris_record (split (u "ER  -") content)) with (s := @nil Entry)
    as [entries He].
  - intros entries record. unfold ris_record.
    destruct (negb (truthy (strip record))); [eauto|].
    destruct (foldM_total ris_line (split [c_newline] record) ris_line_total
                (∅, u "article")) as [st ->].
    rewrite bind_Ok. eauto.
  - exists entries. by rewrite He.
Qed.

Lemma parse_bibtex_readable content :
  parse_bibtex (Ok content) = Ok (bibtex_entry <$> finditer entry_pattern content).
Proof. reflexivity. Qed.

End ReadableText.

(** ** Clauses of missing fields *)

Lemma deletes_refl s : deletes s s.
Proof. exists s, [], []. by rewrite !app_nil_r. Qed.

Lemma deletes_snoc s c : deletes (s ++ c) s.
Proof. exists s, c, []. by rewrite !app_nil_r. Qed.

Lemma deletes_all s : deletes s [].
Proof. exists [], s, []. by rewrite app_nil_r. Qed.

Lemma deletes_app_r s' s x : deletes s' s -> deletes (s' ++ x) (s ++ x).
Proof.
  intros (pre & mid & post & -> & ->). exists pre, mid, (post ++ x).
  by rewrite <- !app_assoc.
Qed.

Lemma deletes_app_l s' s x : deletes s' s -> deletes (x ++ s') (x ++ s).
Proof.
  intros (pre & mid & post & -> & ->). exists (x ++ pre), mid, post.
  by rewrite <- !app_assoc.
Qed.

Lemma deletes_cons_l s' s c : deletes s' s -> deletes (c :: s') (c :: s).
Proof. apply (deletes_app_l s' s [c]). Qed.

Lemma parts_del_nil l' : parts_del [] l' -> l' = [].
Proof. by inversion 1. Qed.

Lemma parts_del_join sep l l' : parts_del l l' -> deletes (join sep l) (join sep l').
Proof.
  induction 1 as [l|l|x l l' Hl IH|p l|p p' l Hp].
  - apply deletes_refl.
  - apply deletes_all.
  - destruct l' as [|y l'].
    + destruct l as [|z l]; [apply deletes_refl|].
      rewrite join_cons by done. apply deletes_snoc.
    + destruct l as [|z l]; [by apply parts_del_nil in Hl|].
      rewrite !join_cons by done. by do 2 apply deletes_app_l.
  - destruct l as [|z l]; [apply deletes_all|].
    rewrite join_cons by done.
    exists [], (p ++ sep), (join sep (z :: l)). by rewrite <- app_assoc.
  - destruct l as [|z l]; [done|].
    rewrite !join_cons by done. by apply deletes_app_r.
Qed.

Ltac solve_deletes :=
  repeat first
    [ apply deletes_refl | apply deletes_snoc | apply deletes_app_r
    | apply deletes_cons_l ].

Ltac solve_parts :=
  first
    [ apply pd_same
    | apply pd_rest
    | apply pd_drop
    | apply pd_skip; solve_parts
    | apply pd_part; solve [solve_deletes] ].

(** Inequalities between closed field names *)
Ltac name_ne := let H := fresh in intros H; vm_compute in H; congruence.

(** Reduce the tests and reads of the composers to lookups, and the
    lookups in an updated mapping to lookups in the original. *)
Ltac to_lookups :=
  unfold format_harvard, format_apa, format_mla, format_chicago, format_ieee,
    format_vancouver, format_ama, format_acs, format_nature,
    add_field, append_field, has, fields_item, fields_get;
  repeat first
    [ rewrite lookup_insert_eq
    | rewrite lookup_insert_ne by name_ne ].

(** Case analysis on the lookups a composer still depends on *)
Ltac split_lookups :=
  repeat (cbn [mbind result_bind mret result_ret andb];
          match goal with
          | |- context [match ?m !! ?k with _ => _ end] =>
              let E := fresh "E" in destruct (m !! k) eqn:E
          | |- context [if is_article ?t then _ else _] =>
              let E := fresh "E" in destruct (is_article t) eqn:E
          | |- context [is_article ?t && _] =>
              let E := fresh "E" in destruct (is_article t) eqn:E
          | |- context [if truthy ?a then _ else _] =>
              let E := fresh "E" in destruct (truthy a) eqn:E
          end);
  cbn [mbind result_bind mret result_ret andb].

(** Case analysis on the style tests of the dispatch *)
Ltac split_styles :=
  unfold composer_of;
  repeat (case_bool_decide; cbn [orb]).

Lemma format_entry_dispatch entry style :
  format_entry_python entry style
  = (format_authors (fields_get (fields entry) f_author []) style ≫= fun authors =>
     composer_of style (type entry) authors
       (fields_get (fields entry) f_year (u "n.d."))
       (fields_get (fields entry) f_title []) (fields entry)).
Proof.
  unfold format_entry_python. destruct (format_authors _ _) as [authors|e]; [|done].
  cbn [mbind result_bind]. by split_styles.
Qed.

Section Composers.
Variables (style : pystr) (entry_type : pyval) (authors year title : pystr).
Variable fields : gmap pystr pystr.

(** The guarded reads of the composers never raise. *)
Lemma composer_total :
  exists s, composer_of style entry_type authors year title fields = Ok s.
Proof. split_styles; to_lookups; split_lookups; eauto. Qed.

(** What a composer returns is never the empty string. *)
Lemma composer_nonempty s :
  composer_of style entry_type authors year title fields = Ok s -> s <> [].
Proof.
  split_styles; to_lookups; split_lookups; intros [= <-] Hs;
    apply (f_equal length) in Hs; revert Hs;
    cbn [join app length]; rewrite ?length_app; cbn [length dq u fmap list_fmap
      list_ascii_of_string]; lia.
Qed.

(** A missing volume, number, pages or publisher leaves no text: the
    result with the field is the result without it plus one clause. *)
Lemma composer_deletes k v s' :
  k ∈ [f_volume; f_number; f_pages; f_publisher] ->
  fields !! k = None ->
  composer_of style entry_type authors year title (<[k := v]> fields) = Ok s' ->
  exists s, composer_of style entry_type authors year title fields = Ok s
            /\ deletes s' s.
Proof.
  intros Hk Hnone.
  destruct (elem_of_4 _ _ _ _ _ Hk) as [->|[->|[->| ->]]];
    split_styles; to_lookups; rewrite ?Hnone; split_lookups;
    intros Hs'%Ok_inj; subst s'; (eexists; split; [reflexivity|]);
    cbn [app]; apply parts_del_join; solve_parts.
Qed.

End Composers.

Section ComposerFields.
Variables (style : pystr) (entry_type : pyval) (authors year title : pystr).
Variable fields : gmap pystr pystr.

(** A missing journal, with no publisher to print instead, leaves no
    text either. *)
Lemma composer_deletes_journal v s' :
  fields !! f_journal = None ->
  fields !! f_publisher = None ->
  composer_of style entry_type authors year title (<[f_journal := v]> fields) = Ok s' ->
  exists s, composer_of style entry_type authors year title fields = Ok s
            /\ deletes s' s.
Proof.
  intros Hnone Hpub.
  split_styles; to_lookups; rewrite ?Hnone, ?Hpub; split_lookups;
    intros Hs'%Ok_inj; subst s'; (eexists; split; [reflexivity|]);
    cbn [app]; apply parts_del_join; solve_parts.
Qed.

(** No composer reads the author or the title from the mapping. *)
Lemma composer_ignores_author_title k v :
  k ∈ [f_author; f_title] ->
  composer_of style entry_type authors year title (<[k := v]> fields)
  = composer_of style entry_type authors year title fields.
Proof.
  intros Hk. apply elem_of_cons in Hk as [->|Hk];
    [|apply elem_of_cons in Hk as [->|Hk]; [|inversion Hk]];
    split_styles; by to_lookups.
Qed.

(** Outside vancouver, ama and acs no composer reads the year from the
    mapping: it prints the [year] it is given. *)
Lemma composer_ignores_year v :
  style ∉ [u "vancouver"; u "ama"; u "acs"] ->
  composer_of style entry_type authors year title (<[f_year := v]> fields)
  = composer_of style entry_type authors year title fields.
Proof.
  intros Hs. split_styles; try (exfalso; subst style; apply Hs; in_list);
    by to_lookups.
Qed.

(** In vancouver, ama and acs the year of an article in a journal is a
    clause of its own, left out when the year is missing, whatever [year]
    the composer is given; elsewhere these styles print that [year]. *)
Lemma composer_year_clause year' s' :
  style ∈ [u "vancouver"; u "ama"; u "acs"] ->
  fields !! f_year = None ->
  is_article entry_type && has fields f_journal = true ->
  composer_of style entry_type authors year title (<[f_year := year]> fields) = Ok s' ->
  exists s, composer_of style entry_type authors year' title fields = Ok s
            /\ deletes s' s.
Proof.
  intros Hs Hnone.
  destruct (elem_of_3 _ _ _ _ Hs) as [->|[->| ->]];
    split_styles; to_lookups; rewrite ?Hnone; split_lookups; try done;
    intros _ Hs'%Ok_inj; subst s';
    (eexists; split; [reflexivity|]);
    cbn [app]; apply parts_del_join; solve_parts.
Qed.

Lemma composer_year_given :
  fields !! f_year = None ->
  is_article entry_type && has fields f_journal = false ->
  composer_of style entry_type authors year title (<[f_year := year]> fields)
  = composer_of style entry_type authors year title fields.
Proof.
  intros Hnone.
  split_styles; to_lookups; rewrite ?Hnone; split_lookups; done.
Qed.

End ComposerFields.

(** [format_authors] returns for every style but mla, and for mla when
    the author field is empty or has a name. *)
Lemma format_authors_total author_str style :
  (style = u "mla" -> author_str = [] \/ author_names author_str <> []) ->
  exists authors, format_authors author_str style = Ok authors.
Proof.
  intros Hmla. unfold format_authors.
  destruct author_str as [|c s]; [simpl; eauto|]. cbn [truthy negb].
  set (names := author_names (c :: s)) in *.
  case_bool_decide.
  - rewrite (mapM_pure _ last_dotted) by apply author_initials_dotted_spec.
    rewrite bind_Ok.
    destruct (last_dotted <$> names) as [|a [|b [|d l]]]; [simpl; eauto..|].
    destruct (Z.ltb_spec 2 (len (a :: b :: d :: l))) as [_|Hlen].
    + destruct (getitem_ok (a :: b :: d :: l) (-1)) as [x Hx].
      { unfold len. simpl. lia. }
      unfold last_item. rewrite Hx. simpl. eauto.
    + unfold len in Hlen. simpl in Hlen. lia.
  - case_bool_decide as Hm.
    + destruct (Hmla Hm) as [?|Hnames]; [done|].
      destruct names as [|a names]; [done|].
      destruct (1 <? len (a :: names)); rewrite getitem_0; simpl; eauto.
    + case_bool_decide; [|eauto].
      rewrite (mapM_pure _ last_initials) by apply author_abbreviated_spec.
      rewrite bind_Ok. destruct (6 <? len names); eauto.
Qed.

Lemma fields_get_insert_ne (m : gmap pystr pystr) k k' v d :
  k <> k' -> fields_get (<[k := v]> m) k' d = fields_get m k' d.
Proof. intros Hne. unfold fields_get. by rewrite lookup_insert_ne. Qed.

Lemma fields_get_insert_eq (m : gmap pystr pystr) k v d :
  fields_get (<[k := v]> m) k d = v.
Proof. unfold fields_get. by rewrite lookup_insert_eq. Qed.

Lemma fields_get_None (m : gmap pystr pystr) k d :
  m !! k = None -> fields_get m k d = d.
Proof. intros Hk. unfold fields_get. by rewrite Hk. Qed.

(** Unfold the formatting of an entry with one more field. *)
Ltac with_field_reads :=
  rewrite !format_entry_dispatch; unfold with_field; cbn [fields type];
  rewrite ?fields_get_insert_eq, ?fields_get_insert_ne by name_ne.

(** A missing journal leaves no text either, when no publisher is
    printed in its place: that is, when the entry has no publisher, or is
    not an article, or the style is not one of the seven that print the
    publisher of an article without a journal. *)
Lemma format_entry_deletes_journal entry style v s' :
  fields entry !! f_journal = None ->
  fields entry !! f_publisher = None
  \/ is_article (type entry) = false
  \/ style ∉ [u "mla"; u "chicago"; u "ieee"; u "vancouver"; u "ama"; u "acs";
              u "nature"] ->
  format_entry_python (with_field entry f_journal v) style = Ok s' ->
  exists s, format_entry_python entry style = Ok s /\ deletes s' s.
Proof.
  intros Hnone Hcase. with_field_reads.
  destruct (format_authors _ _) as [authors|e]; [|done]. rewrite !bind_Ok.
  destruct Hcase as [Hpub|[Hart|Hs]].
  - by apply composer_deletes_journal.
  - split_styles; to_lookups; rewrite ?Hnone, ?Hart; split_lookups;
      intros Hs'%Ok_inj; subst s'; (eexists; split; [reflexivity|]);
      cbn [app]; apply parts_del_join; solve_parts.
  - split_styles; try (exfalso; subst style; apply Hs; in_list);
      to_lookups; rewrite ?Hnone; split_lookups;
      intros Hs'%Ok_inj; subst s'; (eexists; split; [reflexivity|]);
      cbn [app]; apply parts_del_join; solve_parts.
Qed.

(** The counterexample to C2 as stated: a missing year is printed as the
    substitute text "n.d.", a missing title leaves its full stop, and
    under style mla an author field without a name raises. *)
Lemma format_entry_missing_year_placeholder :
  let entry := {| type := VStr (u "book"); key := VStr (u "k");
                  fields := {[ f_author := u "Jane Smith"; f_title := u "A Study" ]} |} in
  let blank := {| type := VStr (u "book"); key := VStr (u "k"); fields := ∅ |} in
  let comma := {| type := VStr (u "book"); key := VStr (u "k");
                  fields := {[ f_author := u "," ]} |} in
  fields entry !! f_year = None
  /\ format_entry_python entry (u "apa") = Ok (u "Smith, J. (n.d.). A Study.")
  /\ format_entry_python blank (u "apa") = Ok (u "(n.d.). .")
  /\ format_entry_python comma (u "mla") = Raise IndexError.
Proof. vm_compute. auto. Qed.

(** C2 (amended). [format_entry_python] prints nothing for a missing
    volume, number, pages or publisher, nor for a missing journal when no
    publisher is printed in its place (the entry has no publisher, or is
    not an article, or the style is not one of the seven that print the
    publisher of an article without a journal): the result is the result
    with the field present minus one contiguous clause, or the same
    result where the style does not read the field. A missing author or title
    is formatted as the empty string. A missing year is formatted as the
    text "n.d.", except that vancouver, ama and acs leave the year clause
    of an article with a journal out. No exception is raised when the
    style is not mla, or the author field is empty or holds a name. *)
Theorem format_entry_missing_fields (entry : Entry) (style : pystr) :
  ((style = u "mla" ->
    fields_get (fields entry) f_author [] = []
    \/ author_names (fields_get (fields entry) f_author []) <> []) ->
   exists s, format_entry_python entry style = Ok s)
  /\ (forall k v s',
        k ∈ [f_volume; f_number; f_pages; f_publisher] ->
        fields entry !! k = None ->
        format_entry_python (with_field entry k v) style = Ok s' ->
        exists s, format_entry_python entry style = Ok s /\ deletes s' s)
  /\ (forall v s',
        fields entry !! f_journal = None ->
        fields entry !! f_publisher = None
        \/ is_article (type entry) = false
        \/ style ∉ [u "mla"; u "chicago"; u "ieee"; u "vancouver"; u "ama";
                    u "acs"; u "nature"] ->
        format_entry_python (with_field entry f_journal v) style = Ok s' ->
        exists s, format_entry_python entry style = Ok s /\ deletes s' s)
  /\ (fields entry !! f_author = None ->
      format_entry_python entry style
      = format_entry_python (with_field entry f_author []) style)
  /\ (fields entry !! f_title = None ->
      format_entry_python entry style
      = format_entry_python (with_field entry f_title []) style)
  /\ (fields entry !! f_year = None ->
      style ∉ [u "vancouver"; u "ama"; u "acs"]
      \/ is_article (type entry) && has (fields entry) f_journal = false ->
      format_entry_python entry style
      = format_entry_python (with_field entry f_year (u "n.d.")) style)
  /\ (forall v s',
        fields entry !! f_year = None ->
        style ∈ [u "vancouver"; u "ama"; u "acs"] ->
        is_article (type entry) && has (fields entry) f_journal = true ->
        format_entry_python (with_field entry f_year v) style = Ok s' ->
        exists s, format_entry_python entry style = Ok s /\ deletes s' s).
Proof.
  split; [|split; [|split; [|split; [|split; [|split]]]]].
  - intros Hmla. rewrite format_entry_dispatch.
    destruct (format_authors_total _ _ Hmla) as [authors ->]. rewrite bind_Ok.
    apply composer_total.
  - intros k v s' Hk Hnone.
    assert (k <> f_author /\ k <> f_year /\ k <> f_title) as (Ha & Hy & Ht).
    { destruct (elem_of_4 _ _ _ _ _ Hk) as [->|[->|[->| ->]]];
        repeat split; name_ne. }
    rewrite !format_entry_dispatch. unfold with_field. cbn [fields type].
    rewrite !fields_get_insert_ne by done.
    destruct (format_authors _ _) as [authors|e]; [|done]. rewrite !bind_Ok.
    by apply composer_deletes.
  - intros v s'. apply format_entry_deletes_journal.
  - intros Hnone. with_field_reads.
    rewrite (fields_get_None _ f_author) by done.
    destruct (format_authors _ _) as [authors|e]; [|done]. rewrite !bind_Ok.
    symmetry. apply composer_ignores_author_title. in_list.
  - intros Hnone. with_field_reads.
    rewrite (fields_get_None _ f_title) by done.
    destruct (format_authors _ _) as [authors|e]; [|done]. rewrite !bind_Ok.
    symmetry. apply composer_ignores_author_title. in_list.
  - intros Hnone Hcase. with_field_reads.
    rewrite (fields_get_None _ f_year) by done.
    destruct (format_authors _ _) as [authors|e]; [|done]. rewrite !bind_Ok.
    symmetry. destruct Hcase as [Hs|Hbranch].
    + by apply composer_ignores_year.
    + by apply composer_year_given.
  - intros v s' Hnone Hs Hbranch. with_field_reads.
    destruct (format_authors _ _) as [authors|e]; [|done]. rewrite !bind_Ok.
    by apply composer_year_clause.
Qed.

Lemma format_entry_missing_fields_witness :
  let article := {| type := VStr (u "article"); key := VStr (u "smith2020");
                    fields := list_to_map
                      [(f_author, u "Jane Smith"); (f_title, u "A Study");
                       (f_journal, u "J. Sci"); (f_number, u "2");
                       (f_pages, u "10-20")] |} in
  let book := {| type := VStr (u "book"); key := VStr (u "k"); fields := ∅ |} in
  let paper := {| type := VStr (u "article"); key := VStr (u "k");
                  fields := {[ f_title := u "A Study" ]} |} in
  let report := {| type := VStr (u "article"); key := VStr (u "k");
                   fields := {[ f_title := u "A Study"; f_publisher := u "Dover" ]} |} in
  (exists s, format_entry_python article (u "apa") = Ok s)
  /\ (exists s, format_entry_python article (u "apa") = Ok s
        /\ deletes (u "Smith, J. (n.d.). A Study. J. Sci, 5(2), 10-20.") s)
  /\ (exists s, format_entry_python paper (u "mla") = Ok s
        /\ deletes ([c_dquote] ++ u "A Study." ++ [c_dquote] ++ u " Nature, n.d.,") s)
  /\ (exists s, format_entry_python report (u "harvard") = Ok s
        /\ deletes (u "(n.d.). A Study. Nature.") s)
  /\ format_entry_python book (u "ieee")
     = format_entry_python (with_field book f_author []) (u "ieee")
  /\ format_entry_python book (u "ieee")
     = format_entry_python (with_field book f_title []) (u "ieee")
  /\ format_entry_python article (u "apa")
     = format_entry_python (with_field article f_year (u "n.d.")) (u "apa")
  /\ (exists s, format_entry_python article (u "vancouver") = Ok s
        /\ deletes (u "Smith J. A Study. J. Sci. 2020;") s).
Proof.
  intros article book paper report.
  destruct (format_entry_missing_fields report (u "harvard"))
    as (_ & _ & Hjournal' & _ & _ & _ & _).
  destruct (format_entry_missing_fields article (u "apa"))
    as (Htotal & Hopt & _ & _ & _ & Hyear & _).
  destruct (format_entry_missing_fields paper (u "mla"))
    as (_ & _ & Hjournal & _ & _ & _ & _).
  destruct (format_entry_missing_fields book (u "ieee"))
    as (_ & _ & _ & Hauthor & Htitle & _ & _).
  destruct (format_entry_missing_fields article (u "vancouver"))
    as (_ & _ & _ & _ & _ & _ & Hyear3).
  split; [apply Htotal; intros Hm; vm_compute in Hm; discriminate|].
  split; [apply (Hopt f_volume (u "5")); [in_list|vm_compute; reflexivity..]|].
  split; [apply (Hjournal (u "Nature"));
          [vm_compute; reflexivity|left; vm_compute; reflexivity
          |vm_compute; reflexivity]|].
  split; [apply (Hjournal' (u "Nature"));
          [vm_compute; reflexivity|right; right; not_in_list
          |vm_compute; reflexivity]|].
  split; [apply Hauthor; vm_compute; reflexivity|].
  split; [apply Htitle; vm_compute; reflexivity|].
  split; [apply Hyear; [vm_compute; reflexivity|left; not_in_list]|].
  apply (Hyear3 (u "2020")); [vm_compute; reflexivity|in_list|vm_compute; reflexivity..].
Defined.

(** ** The formatting stage *)

(** Whatever [format_entry_python] returns is not empty. *)
Lemma format_entry_nonempty entry style s :
  format_entry_python entry style = Ok s -> s <> [].
Proof.
  rewrite format_entry_dispatch. intros Hf.
  apply bind_inv in Hf as (authors & _ & Hf). by eapply composer_nonempty.
Qed.

Lemma truthy_nonempty {A} (l : list A) : l <> [] -> truthy l = true.
Proof. by destruct l. Qed.

Lemma format_with_python_loop style entries : forall acc refs,
  foldM (fun refs entry =>
           formatted ← format_entry_python entry style;
           Ok (if truthy formatted then refs ++ [formatted] else refs))
        acc entries = Ok refs ->
  exists rs, refs = acc ++ rs
             /\ Forall2 (fun entry r => format_entry_python entry style = Ok r) entries rs.
Proof.
  induction entries as [|entry entries IH]; intros acc refs Hf.
  - simpl in Hf. apply Ok_inj in Hf as <-. exists []. by rewrite app_nil_r.
  - rewrite foldM_cons in Hf. apply bind_inv in Hf as (acc' & Hstep & Hf).
    apply bind_inv in Hstep as (formatted & Hfmt & Hstep).
    rewrite (truthy_nonempty formatted) in Hstep by (by eapply format_entry_nonempty).
    apply Ok_inj in Hstep as <-.
    destruct (IH _ _ Hf) as (rs & -> & Hrs).
    exists (formatted :: rs). rewrite <- app_assoc. split; [done|].
    by constructor.
Qed.

(** When no entry raises, the formatting stage yields one reference for
    each entry, in order: the test on the formatted string drops none. *)
Lemma format_with_python_keeps_all style entries refs :
  format_with_python style entries = Ok refs ->
  Forall2 (fun entry r => format_entry_python entry style = Ok r) entries refs.
Proof.
  intros Hf. apply format_with_python_loop in Hf as (rs & -> & Hrs). done.
Qed.

(** ** Examples of the specification *)

Example apa_example :
  format_entry_python
    {| type := VStr (u "article"); key := VStr (u "smith2020");
       fields := list_to_map
         [(f_author, u "Jane Smith"); (f_year, u "2020"); (f_title, u "A Study");
          (f_journal, u "J. Sci"); (f_volume, u "5"); (f_number, u "2");
          (f_pages, u "10-20")] |} (u "apa")
  = Ok (u "Smith, J. (2020). A Study. J. Sci, 5(2), 10-20.").
Proof. vm_compute. reflexivity. Qed.

Example ieee_example :
  format_entry_python
    {| type := VStr (u "article"); key := VStr (u "smith2020");
       fields := list_to_map
         [(f_author, u "Jane Smith"); (f_year, u "2020"); (f_title, u "A Study");
          (f_journal, u "J. Sci"); (f_volume, u "5"); (f_number, u "2");
          (f_pages, u "10-20")] |} (u "ieee")
  = Ok (u "Smith J, " ++ dq ++ u "A Study," ++ dq
        ++ u " J. Sci, vol. 5, no. 2, pp. 10-20, 2020.").
Proof. vm_compute. reflexivity. Qed.

Example marker_examples :
  get_numbering_marker (u "roman") 1 = Ok (u "i.")
  /\ get_numbering_marker (u "symbols") 3 = Ok [8225%N]
  /\ get_numbering_marker (u "numeric_paren") 12 = Ok (u "(12)").
Proof. vm_compute. auto. Qed.

Example split_examples :
  split_ws (u " a  b ") = [u "a"; u "b"]
  /\ split (u ",") (u ",a,,b") = [[]; u "a"; []; u "b"]
  /\ split (u "ER  -") (u "ER  -xER  -") = [[]; u "x"; []]
  /\ split_max (u "b") 1 (u "abcbd") = [u "a"; u "cbd"]
  /\ replace (u " and ") (u ", ") (u "a and  and b") = u "a, , b"
  /\ str_of_int (-5) = u "-5".
Proof. vm_compute. repeat split; reflexivity. Qed.

Example regex_examples :
  finditer brace_pattern (u "a{bc}d{}e")
    = [ {[ O := u "{bc}"; 1%nat := u "bc" ]}; {[ O := u "{}"; 1%nat := [] ]} ]
  /\ sub_group1 brace_pattern (u "a{bc}d{}e{{x}}") = u "abcde{x}"
  /\ re_split blank_line_pattern
       (u "a" ++ [10; 32; 10; 10]%N ++ u "b" ++ [10; 10]%N ++ u "c")
     = [u "a"; u "b"; u "c"].
Proof. vm_compute. repeat split; reflexivity. Qed.

Example parse_bibtex_example :
  parse_bibtex (T := ascii_text)
    (Ok (u "junk @Article{ key1 , title = {A {B} c}, Year={2020} } @x{a, }"))
  = Ok [ {| type := VStr (u "x"); key := VStr (u "a"); fields := ∅ |} ]
  /\ parse_bibtex (T := ascii_text)
       (Ok (u "@Article{ key1 , Title = {A B c}, YEAR={2020} }"))
     = Ok [ {| type := VStr (u "article"); key := VStr (u "key1");
               fields := {[ f_title := u "A B c"; f_year := u "2020" ]} |} ].
Proof. vm_compute. split; reflexivity. Qed.

Example parse_ris_example :
  parse_ris (T := ascii_text)
    (Ok (u "TY  - JOUR" ++ [c_newline] ++ u "AU  - Smith, J" ++ [c_newline]
         ++ u "AU  - Doe, A" ++ [c_newline] ++ u "PY  - 2020/01/02" ++ [c_newline]
         ++ u "SP  - 1" ++ [c_newline] ++ u "EP  - 9" ++ [c_newline]
         ++ u "DO  - 10.1/x" ++ [c_newline] ++ u "ER  - " ++ [c_newline]))
  = Ok [ {| type := VStr (u "jour"); key := VStr (u "unknown");
            fields := {[ f_author := u "Smith, J and Doe, A"; f_year := u "2020";
                         f_pages := u "1-9" ]} |} ].
Proof. vm_compute. reflexivity. Qed.


(** * Further properties *)

(** ** Wrapping with indents *)

Lemma lines_fit_snoc F S gs g :
  lines_fit F S gs -> line_ok (if bool_decide (gs = []) then F else S) g ->
  lines_fit F S (gs ++ [g]).
Proof.
  destruct gs as [|g0 rest]; simpl.
  - intros _ Hg. split; [done|constructor].
  - intros [H0 Hrest] Hg. split; [done|].
    apply Forall_app. split; [done|]. by constructor.
Qed.

Lemma wrap_step_inv_widths F S ws st w :
  wrap_inv_widths F S ws st -> wrap_inv_widths F S (ws ++ [w]) (wrap_step F S st w).
Proof.
  intros (gs & Hlines & Hne & Hfit & Hws & Hlen & Hfirst & Hcur).
  unfold wrap_step.
  set (M := if is_first_line st then F else S) in *.
  destruct (Z.leb_spec (current_length st + len w + len (current_line st)) M) as [Hw|Hw].
  - exists gs. simpl. repeat split; try done; try apply Hfirst.
    + rewrite <- Hws. by rewrite app_assoc.
    + rewrite sum_len_app. simpl. lia.
    + right. left. rewrite len_join_space by (by destruct (current_line st)).
      rewrite sum_len_app, len_app. change (len [w]) with 1. simpl. lia.
  - destruct (current_line st) as [|w0 cur] eqn:Ecur; simpl.
    + exists gs. simpl. repeat split; try done; try apply Hfirst.
      * rewrite <- Hws. by rewrite app_nil_r.
      * lia.
      * right. right. exists w. split; [done|].
        change (len []) with 0 in Hw. simpl in *. fold M. lia.
    + exists (gs ++ [w0 :: cur]). simpl. repeat split; try done.
      * rewrite fmap_app. by rewrite Hlines.
      * apply Forall_app. split; [done|]. by constructor.
      * apply lines_fit_snoc; [done|]. destruct Hcur as [?|Hcur]; [done|].
        subst M. destruct (is_first_line st) eqn:Ef.
        -- rewrite bool_decide_eq_true_2 by (by apply Hfirst). done.
        -- rewrite bool_decide_eq_false_2; [done|].
           intros Hgs. apply Hfirst in Hgs. done.
      * rewrite concat_app. simpl. rewrite app_nil_r. by rewrite <- Hws.
      * lia.
      * intros Hgs. by destruct gs.
      * destruct (Z.le_gt_cases (len w) S) as [Hl|Hl].
        -- right. left. simpl. done.
        -- right. right. eauto.
Qed.

Lemma wrap_fold_inv_widths F S ws' ws st :
  wrap_inv_widths F S ws st ->
  wrap_inv_widths F S (ws ++ ws') (foldl (wrap_step F S) st ws').
Proof.
  revert ws st. induction ws' as [|w ws' IH]; intros ws st Hinv; simpl.
  - by rewrite app_nil_r.
  - replace (ws ++ w :: ws') with ((ws ++ [w]) ++ ws') by (by rewrite <- app_assoc).
    apply IH. by apply wrap_step_inv_widths.
Qed.

(** The lines of [wrap_text] are the joins of consecutive non-empty
    groups of the words of the text; the first fits the first-line width
    and the others the continuation width, single over-long words apart. *)
Lemma wrap_text_groups_widths text W first_indent later_indent :
  exists gs : list (list pystr),
    wrap_text text W first_indent later_indent = join (u " ") <$> gs
    /\ Forall (fun g => g <> []) gs
    /\ lines_fit (W - first_indent) (W - later_indent) gs
    /\ concat gs = split_ws text.
Proof.
  unfold wrap_text.
  set (st0 := {| lines := []; current_line := []; current_length := 0;
                 is_first_line := true |}).
  destruct (wrap_fold_inv_widths (W - first_indent) (W - later_indent)
              (split_ws text) [] st0)
    as (gs & Hl & Hne & Hfit & Hws & _ & Hfirst & Hcur).
  { exists []. simpl. repeat split; auto. }
  simpl in Hws.
  destruct (current_line _) as [|w cur] eqn:Ecur; simpl.
  - exists gs. rewrite app_nil_r in Hws. done.
  - exists (gs ++ [w :: cur]). repeat split.
    + rewrite fmap_app. by rewrite Hl.
    + apply Forall_app. split; [done|]. by constructor.
    + apply lines_fit_snoc; [done|]. destruct Hcur as [?|Hcur]; [done|].
      destruct (is_first_line _) eqn:Ef.
      * rewrite bool_decide_eq_true_2 by (by apply Hfirst). done.
      * rewrite bool_decide_eq_false_2; [done|].
        intros Hgs. apply Hfirst in Hgs. done.
    + rewrite concat_app. simpl. by rewrite app_nil_r.
Qed.

Lemma wrap_text_words text W first_indent later_indent :
  join (u " ") (wrap_text text W first_indent later_indent)
    = join (u " ") (split_ws text)
  /\ Forall (fun line => line <> []) (wrap_text text W first_indent later_indent)
  /\ (wrap_text text W first_indent later_indent = [] <-> split_ws text = []).
Proof.
  destruct (wrap_text_groups_widths text W first_indent later_indent)
    as (gs & -> & Hne & _ & Hws).
  split; [rewrite <- Hws; by apply join_join|]. split.
  - apply Forall_fmap, Forall_forall. intros g Hg. simpl.
    rewrite Forall_forall in Hne. specialize (Hne g Hg).
    destruct g as [|w g]; [done|].
    assert (w <> []) as Hw.
    { pose proof (split_ws_nonempty text) as Hall. rewrite <- Hws in Hall.
      rewrite Forall_forall in Hall. apply Hall.
      apply list_elem_of_In, in_concat. exists (w :: g).
      split; [by apply list_elem_of_In|by left]. }
    destruct w; [done|]. by destruct g.
  - rewrite <- Hws. split.
    + intros Hg. apply fmap_nil_inv in Hg. by subst.
    + intros Hc. destruct gs as [|g gs]; [done|].
      inversion Hne; subst. simpl in Hc. apply app_eq_nil in Hc as [? _]. done.
Qed.

(** X1. For any width and indents, [wrap_text] loses and adds no text:
    its lines rejoined with single spaces are the words of the text
    joined with single spaces; no line is empty; and there are no lines
    exactly when the text has no words. *)
Theorem wrap_text_keeps_words (text : pystr) (W first_indent later_indent : Z) :
  join (u " ") (wrap_text text W first_indent later_indent)
    = join (u " ") (split_ws text)
  /\ Forall (fun line => line <> []) (wrap_text text W first_indent later_indent)
  /\ (wrap_text text W first_indent later_indent = [] <-> split_ws text = []).
Proof. apply wrap_text_words. Qed.

(** X2. The first line [wrap_text] returns is at most the width less the
    first-line indent long, and every other line at most the width less
    the continuation indent, unless the line is a single word of the text
    that is longer than that. *)
Theorem wrap_text_lines_fit (text : pystr) (W first_indent later_indent : Z)
    (j : nat) (line : pystr) :
  wrap_text text W first_indent later_indent !! j = Some line ->
  let width := W - (if bool_decide (j = O) then first_indent else later_indent) in
  len line <= width \/ (line ∈ split_ws text /\ width < len line).
Proof.
  destruct (wrap_text_groups_widths text W first_indent later_indent)
    as (gs & -> & _ & Hfit & Hws).
  intros Hj. rewrite list_lookup_fmap in Hj.
  destruct (gs !! j) as [g|] eqn:Hg; [|done]. simpl in Hj.
  injection Hj as <-.
  assert (line_ok (W - (if bool_decide (j = O) then first_indent else later_indent)) g)
    as [Hok|(w & -> & Hw)].
  { destruct gs as [|g0 rest]; [done|]. destruct Hfit as [H0 Hrest].
    destruct j as [|j]; simpl in Hg.
    - by injection Hg as <-.
    - rewrite Forall_forall in Hrest. apply Hrest.
      by eapply list_elem_of_lookup_2. }
  - by left.
  - right. simpl. split; [|done]. rewrite <- Hws.
    apply list_elem_of_In, in_concat. exists [w].
    split; [apply list_elem_of_In; by eapply list_elem_of_lookup_2|by left].
Qed.

Lemma wrap_text_lines_fit_witness :
  wrap_text (u "[10] Knuth D. The Art of Programming.") 14 0 5
  = [u "[10] Knuth D."; u "The Art"; u "of"; u "Programming."]
  /\ (len (u "The Art") <= 14 - 5
      \/ (u "The Art" ∈ split_ws (u "[10] Knuth D. The Art of Programming.")
          /\ 14 - 5 < len (u "The Art")))
  /\ (len (u "Programming.") <= 14 - 5
      \/ (u "Programming." ∈ split_ws (u "[10] Knuth D. The Art of Programming.")
          /\ 14 - 5 < len (u "Programming."))).
Proof.
  assert (Hw : wrap_text (u "[10] Knuth D. The Art of Programming.") 14 0 5
               = [u "[10] Knuth D."; u "The Art"; u "of"; u "Programming."])
    by (vm_compute; reflexivity).
  split; [exact Hw|]. split.
  - apply (wrap_text_lines_fit (u "[10] Knuth D. The Art of Programming.") 14 0 5 1%nat).
    by rewrite Hw.
  - apply (wrap_text_lines_fit (u "[10] Knuth D. The Art of Programming.") 14 0 5 3%nat).
    by rewrite Hw.
Defined.

(** ** Sorting *)

Lemma sorted_of_ordered {A} (key : A -> pystr) (l : list A) :
  ordered_by key l -> sorted key l = l.
Proof. intros Ho. symmetry. by apply sorted_unique. Qed.

(** X3. Sorted by author, year or title, the entries are in non-decreasing
    order of the key of that order: no entry has a key that is less than
    the key of an entry before it. *)
Theorem sort_entries_ordered {T : PyText} (entries : list Entry) :
  ordered_by author_key (sort_entries (u "author") entries)
  /\ ordered_by year_key (sort_entries (u "year") entries)
  /\ ordered_by title_key (sort_entries (u "title") entries).
Proof. repeat split; apply sorted_ordered. Qed.

(** X4. Sorting is idempotent, and a list already in the order asked for
    is returned as it is. *)
Theorem sort_entries_idempotent {T : PyText} (order : pystr) (entries : list Entry) :
  sort_entries order (sort_entries order entries) = sort_entries order entries
  /\ (ordered_by author_key entries -> sort_entries (u "author") entries = entries)
  /\ (ordered_by year_key entries -> sort_entries (u "year") entries = entries)
  /\ (ordered_by title_key entries -> sort_entries (u "title") entries = entries).
Proof.
  split.
  - unfold sort_entries. repeat case_bool_decide; try done;
      apply sorted_of_ordered, sorted_ordered.
  - repeat split; intros Ho; by apply sorted_of_ordered.
Qed.

Lemma sort_entries_idempotent_witness :
  let a := {| type := VStr (u "article"); key := VStr (u "a");
              fields := {[ f_year := u "1999" ]} |} in
  let b := {| type := VStr (u "book"); key := VStr (u "b");
              fields := {[ f_title := u "Zoo" ]} |} in
  sort_entries (T := ascii_text) (u "year") [a; b] = [a; b].
Proof.
  intros a b.
  destruct (sort_entries_idempotent (T := ascii_text) (u "year") [a; b])
    as (_ & _ & Hy & _).
  apply Hy. unfold ordered_by. repeat constructor.
Defined.

(** ** Markers *)

Lemma getitem_raise {A} (l : list A) (i : Z) :
  i < - len l \/ len l <= i -> getitem l i = Raise IndexError.
Proof.
  unfold getitem, len. intros Hi.
  destruct (Z.ltb_spec i 0).
  - destruct (Z.ltb_spec (i + Z.of_nat (length l)) 0); [done|]. lia.
  - destruct (Z.ltb_spec i 0); [lia|].
    rewrite lookup_ge_None_2; [done|]. lia.
Qed.

Lemma getitem_elem_of {A} (l : list A) (i : Z) (x : A) :
  getitem l i = Ok x -> x ∈ l.
Proof.
  unfold getitem. destruct (_ <? 0); [done|].
  destruct (l !! _) eqn:Hl; [|done]. intros [= <-].
  by eapply list_elem_of_lookup_2.
Qed.

Lemma app_nonempty_r {A} (l1 l2 : list A) : l2 <> [] -> l1 ++ l2 <> [].
Proof. intros H2 H. by apply app_eq_nil in H as [_ ?]. Qed.

Ltac not_none :=
  let Hs := fresh in intros Hs; first [done | vm_compute in Hs; congruence].

(** X5. For an index that is not negative and has at most 4300 digits,
    the limit up to which the interpreter turns an integer into text,
    [get_numbering_marker] returns a marker for every style, and the
    marker is empty only for the style none. The layout only asks for
    the markers of positions in the list of references. *)
Theorem marker_produced_nonempty (style : pystr) (index : Z) :
  0 <= index < 10 ^ max_str_digits ->
  exists m, get_numbering_marker style index = Ok m
            /\ (m = [] <-> style = u "none").
Proof.
  intros [Hi _]. destruct (marker_total style index Hi) as [m Hm].
  exists m. split; [done|]. revert Hm. unfold get_numbering_marker, bracketed.
  assert (Hlen : forall x : pystr, length x <> O -> x = [] <-> False).
  { intros x Hx. split; [by intros ->|done]. }
  repeat case_bool_decide; subst;
    try (destruct (_ <? _)); try (destruct (_ <=? _));
    intros Hm;
    try (apply bind_inv in Hm as (c & _ & Hm));
    try (apply getitem_elem_of in Hm; vm_compute in Hm;
         repeat (apply elem_of_cons in Hm as [Hm|Hm];
                 [subst m; split; [done|not_none]|]);
         by inversion Hm);
    apply Ok_inj in Hm; subst m;
    try done;
    (split; [|not_none]);
    intros Hm; apply (f_equal length) in Hm;
    rewrite ?length_app in Hm; simpl in Hm; lia.
Qed.

Lemma small_below_limit i : i < 10 -> i < 10 ^ max_str_digits.
Proof.
  intros Hi. apply Z.lt_le_trans with (10 ^ 1); [lia|].
  apply Z.pow_le_mono_r; unfold max_str_digits; lia.
Qed.

Lemma marker_produced_nonempty_witness :
  exists m, get_numbering_marker (u "bullet") 0 = Ok m /\ (m = [] <-> u "bullet" = u "none").
Proof.
  apply marker_produced_nonempty. split; [lia|]. apply small_below_limit. lia.
Defined.

Lemma chr_raise i : i < 0 -> chr i = Raise ValueError.
Proof. intros Hi. unfold chr. by destruct (Z.leb_spec 0 i); [lia|]. Qed.

Lemma chr_ok i : 0 <= i < 1114112 -> chr i = Ok [Z.to_N i].
Proof.
  intros Hi. unfold chr. destruct (Z.leb_spec 0 i); [|lia].
  by destruct (Z.ltb_spec i 1114112); [|lia].
Qed.

(** The cases of a disjunction over closed style names and bounds *)
Ltac rhs_cases :=
  intros [(?&?&->)|[(?&?&->)|(?&?&->)]];
  first [ match goal with H : u _ = u _ |- _ => vm_compute in H; congruence end
        | lia
        | done ].

(** X6. For an index from the least one whose letter code fits a C
    integer up to the 4300-digit limit of the conversion to text,
    [get_numbering_marker] raises only below the tables it indexes:
    [IndexError] for the style symbols when the index is less than -8 and
    for roman when it is less than -19, and [ValueError] for alpha when
    it is less than -96. Between those bounds and zero the index counts
    from the end of the table. *)
Theorem marker_raises (style : pystr) (index : Z) (e : exn) :
  - 2 ^ 31 <= 96 + index -> index < 10 ^ max_str_digits ->
  get_numbering_marker style index = Raise e <->
  (style = u "symbols" /\ index < -8 /\ e = IndexError)
  \/ (style = u "alpha" /\ index < -96 /\ e = ValueError)
  \/ (style = u "roman" /\ index < -19 /\ e = IndexError).
Proof.
  intros _ _.
  assert (Hno : forall m : pystr,
    (style <> u "symbols") -> (style <> u "alpha") -> (style <> u "roman") ->
    Ok m = Raise e <->
    (style = u "symbols" /\ index < -8 /\ e = IndexError)
    \/ (style = u "alpha" /\ index < -96 /\ e = ValueError)
    \/ (style = u "roman" /\ index < -19 /\ e = IndexError)).
  { intros m H1 H2 H3. split; [done|]. intros [(?&_)|[(?&_)|(?&_)]]; done. }
  unfold get_numbering_marker.
  repeat (let Hs := fresh "Hs" in
          case_bool_decide as Hs;
          [subst style;
           try (apply Hno; let H := fresh in intros H; vm_compute in H; congruence)|]).
  4: by apply Hno.
  - (* symbols *)
    change (len symbols) with 9.
    destruct (Z.ltb_spec (index - 1) 9) as [Hlt|Hge]; [|split; [done|rhs_cases]].
    destruct (Z.lt_ge_cases index (-8)) as [Hlow|Hok].
    + rewrite getitem_raise by (change (len symbols) with 9; lia).
      split; [intros [= <-]; by left|rhs_cases].
    + destruct (getitem_ok symbols (index - 1)) as [m ->];
        [change (len symbols) with 9; lia|].
      split; [done|rhs_cases].
  - (* alpha *)
    destruct (Z.leb_spec index 26) as [Hle|Hgt]; [|split; [done|rhs_cases]].
    destruct (Z.lt_ge_cases index (-96)) as [Hlow|Hok].
    + rewrite chr_raise by lia. simpl.
      split; [intros [= <-]; right; by left|rhs_cases].
    + rewrite chr_ok by lia. simpl. split; [done|rhs_cases].
  - (* roman *)
    change (len roman_numerals) with 20.
    destruct (Z.ltb_spec (index - 1) 20) as [Hlt|Hge]; [|split; [done|rhs_cases]].
    destruct (Z.lt_ge_cases index (-19)) as [Hlow|Hok].
    + rewrite getitem_raise by (change (len roman_numerals) with 20; lia). simpl.
      split; [intros [= <-]; right; by right|rhs_cases].
    + destruct (getitem_ok roman_numerals (index - 1)) as [m ->];
        [change (len roman_numerals) with 20; lia|]. simpl.
      split; [done|rhs_cases].
Qed.

Lemma marker_raises_witness :
  get_numbering_marker (u "alpha") (-97) = Raise ValueError
  /\ get_numbering_marker (u "roman") (-20) = Raise IndexError.
Proof.
  split.
  - apply marker_raises; [vm_compute; discriminate|apply small_below_limit; lia|].
    right. left. split; [done|]. split; [lia|done].
  - apply marker_raises; [vm_compute; discriminate|apply small_below_limit; lia|].
    right. right. split; [done|]. split; [lia|done].
Defined.

(** ** Author lists *)

(** X7. For the styles apa, apa7, chicago and harvard, [format_authors]
    puts every author in the "Last, F. M." form (a single-token name is
    left as it is) and returns nothing for no author, the one author,
    two authors joined by " & ", or three or more joined by ", " with
    ", & " before the last. *)
Theorem format_authors_ampersand_family (author_str style : pystr) :
  style ∈ [u "apa"; u "apa7"; u "chicago"; u "harvard"] ->
  format_authors author_str style
  = Ok (ampersand_join (last_dotted <$> author_names author_str)).
Proof.
  intros Hs. destruct author_str as [|c s].
  { by destruct (elem_of_4 _ _ _ _ _ Hs) as [->|[->|[->| ->]]]. }
  unfold format_authors. cbn [truthy negb].
  rewrite bool_decide_eq_true_2 by done.
  rewrite (mapM_pure _ last_dotted) by apply author_initials_dotted_spec.
  rewrite bind_Ok. unfold ampersand_join.
  set (l := last_dotted <$> author_names (c :: s)). clearbody l.
  destruct (reverse l) as [|last [|b [|d rest]]] eqn:Hr;
    apply (f_equal reverse) in Hr; rewrite reverse_involutive in Hr; subst l;
    [done|done|done|].
  rewrite !reverse_cons.
  set (before := (reverse rest ++ [d]) ++ [b]).
  destruct (Z.ltb_spec 2 (len (before ++ [last]))) as [_|Hlen].
  - by rewrite last_item_snoc, but_last_snoc, bind_Ok.
  - subst before. rewrite !len_app in Hlen. change (len [d]) with 1 in Hlen.
    change (len [b]) with 1 in Hlen. change (len [last]) with 1 in Hlen.
    pose proof (len_nonneg (reverse rest)). lia.
Qed.

Lemma format_authors_ampersand_family_witness :
  format_authors (u "Ada B Lovelace and Alan Turing, Plato") (u "chicago")
  = Ok (u "Lovelace, A. B., Turing, A., & Plato")
  /\ format_authors (u "Ada B Lovelace and Alan Turing") (u "harvard")
     = Ok (u "Lovelace, A. B. & Turing, A.").
Proof.
  split.
  - rewrite format_authors_ampersand_family by in_list. vm_compute. reflexivity.
  - rewrite format_authors_ampersand_family by in_list. vm_compute. reflexivity.
Defined.

(** [format_authors] raises in one case only. *)
Lemma format_authors_raise_iff author_str style e :
  format_authors author_str style = Raise e <->
  style = u "mla" /\ author_str <> [] /\ author_names author_str = []
  /\ e = IndexError.
Proof.
  split.
  - intros Hr.
    destruct (decide (style = u "mla")) as [->|Hm].
    + destruct author_str as [|c s]; [done|].
      destruct (author_names (c :: s)) as [|a names] eqn:Hn; [|].
      * repeat split; try done.
        revert Hr. unfold format_authors. cbn [truthy negb]. rewrite Hn.
        style_eval. cbn. by intros [= <-].
      * destruct (format_authors_total (c :: s) (u "mla")) as [x Hx].
        { intros _. right. by rewrite Hn. }
        by rewrite Hx in Hr.
    + destruct (format_authors_total author_str style) as [x Hx]; [done|].
      by rewrite Hx in Hr.
  - intros (-> & Hne & Hn & ->). destruct author_str as [|c s]; [done|].
    unfold format_authors. cbn [truthy negb]. rewrite Hn. by style_eval.
Qed.

(** X8. [format_authors] raises in one case only: under style mla, for an
    author string that is not empty but holds no name (only commas and
    spaces), where reading the first author raises [IndexError]. With at
    least one name, style mla returns the first name as written, followed
    by ", et al." when there are more. *)
Theorem format_authors_raises (author_str style : pystr) :
  (forall e, format_authors author_str style = Raise e <->
             style = u "mla" /\ author_str <> [] /\ author_names author_str = []
             /\ e = IndexError)
  /\ (forall first others,
        author_names author_str = first :: others ->
        format_authors author_str (u "mla")
        = Ok (first ++ (if truthy others then u ", et al." else []))).
Proof.
  split; [intros e; apply format_authors_raise_iff|].
  intros first others Hn. destruct author_str as [|c s]; [done|].
  unfold format_authors. cbn [truthy negb]. rewrite Hn. style_eval.
  destruct others as [|o others].
  - cbn. by rewrite app_nil_r.
  - destruct (Z.ltb_spec 1 (len (first :: o :: others))) as [_|Hl].
    + by rewrite getitem_0.
    + unfold len in Hl. simpl in Hl. lia.
Qed.

Lemma format_authors_raises_witness :
  format_authors (u "Jane Smith and John Doe") (u "mla") = Ok (u "Jane Smith, et al.")
  /\ format_authors (u " , ") (u "mla") = Raise IndexError.
Proof.
  destruct (format_authors_raises (u "Jane Smith and John Doe") (u "mla")) as [_ Hm].
  destruct (format_authors_raises (u " , ") (u "mla")) as [Hr _].
  split.
  - rewrite (Hm (u "Jane Smith") [u "John Doe"]) by (vm_compute; reflexivity).
    vm_compute. reflexivity.
  - apply Hr. repeat split; try (vm_compute; reflexivity). discriminate.
Defined.

(** ** Records of the RIS and EndNote parsers *)

Lemma elem_of_rev {A} (x : A) (l : list A) : x ∈ rev l <-> x ∈ l.
Proof. rewrite !list_elem_of_In. symmetry. apply in_rev. Qed.

(** Splitting at one character leaves that character in no piece. *)
Lemma split_char_pieces c s : forall cur,
  c ∉ cur -> Forall (fun p => c ∉ p) (split_from [c] None O cur s).
Proof.
  induction s as [|a s IH]; intros cur Hcur; cbn [split_from].
  - constructor; [|constructor]. by rewrite elem_of_rev.
  - rewrite bool_decide_eq_false_2 by done. cbn [negb].
    rewrite andb_true_r. cbn [startswith length Nat.sub].
    rewrite andb_true_r. destruct (N.eqb_spec c a) as [<-|Hne].
    + constructor; [by rewrite elem_of_rev|].
      apply IH. apply not_elem_of_nil.
    + apply IH. rewrite elem_of_cons. intros [?|?]; [congruence|done].
Qed.

Lemma foldM_raise {A S} (f : S -> A -> result S) (Q : A -> Prop) (E : exn)
    (l : list A) :
  (forall s x e, f s x = Raise e <-> Q x /\ e = E) ->
  forall s e, foldM f s l = Raise e <-> (exists x, x ∈ l /\ Q x) /\ e = E.
Proof.
  intros Hf. induction l as [|x l IH]; intros s e.
  - simpl. split; [done|]. intros [(x & Hx & _) _]. inversion Hx.
  - rewrite foldM_cons. destruct (f s x) as [s1|e1] eqn:Hx.
    + rewrite bind_Ok, IH. split; intros [(y & Hy & HQ) He]; (split; [|done]).
      * exists y. split; [by right|done].
      * apply elem_of_cons in Hy as [->|Hy]; [|by exists y].
        assert (Hr : f s x = Raise E) by (by apply Hf). congruence.
    + apply Hf in Hx as [HQ ->]. cbn. split.
      * intros [= <-]. split; [|done]. exists x. split; [by left|done].
      * by intros [_ ->].
Qed.

Section RecordParsers.
Context {T : PyText}.
Variable Inv : pystr -> gmap pystr pystr * pystr -> Prop.
Variable P : Entry -> Prop.

Lemma ris_records_inv content :
  (forall record, Inv record (∅, u "article")) ->
  (forall record st,
      record ∈ split (u "ER  -") content -> Inv record st ->
      Forall P (record_entry st)) ->
  (forall record st line st',
      line ∈ split [c_newline] record ->
      Inv record st -> ris_line st line = Ok st' -> Inv record st') ->
  exists entries, parse_ris (Ok content) = Ok entries /\ Forall P entries.
Proof.
  intros Hfirst Hentry Hline. unfold parse_ris, try_except.
  destruct (parse_ris_try (Ok content)) as [entries|e] eqn:Hp; [|by exists []].
  exists entries. split; [done|].
  unfold parse_ris_try in Hp. rewrite bind_Ok in Hp.
  eapply (foldM_invariant (Forall P)); [|constructor|exact Hp].
  intros s record s' Hrec Hs. unfold ris_record.
  destruct (negb (truthy (strip record))); [by intros ?%Ok_inj; subst|].
  intros Hr. apply bind_inv in Hr as (st & Hst & Hr). apply Ok_inj in Hr as <-.
  apply Forall_app. split; [done|]. apply (Hentry record); [done|].
  eapply (foldM_invariant (Inv record)); [|apply Hfirst|exact Hst].
  intros s0 line s0' Hin. by apply Hline.
Qed.

Lemma endnote_records_inv content :
  (forall record, Inv record (∅, u "article")) ->
  (forall record st,
      record ∈ re_split blank_line_pattern content -> Inv record st ->
      Forall P (record_entry st)) ->
  (forall record st line st',
      line ∈ split [c_newline] record ->
      Inv record st -> endnote_line st line = Ok st' -> Inv record st') ->
  exists entries, parse_endnote (Ok content) = Ok entries /\ Forall P entries.
Proof.
  intros Hfirst Hentry Hline. unfold parse_endnote, try_except.
  destruct (parse_endnote_try (Ok content)) as [entries|e] eqn:Hp; [|by exists []].
  exists entries. split; [done|].
  unfold parse_endnote_try in Hp. rewrite bind_Ok in Hp.
  eapply (foldM_invariant (Forall P)); [|constructor|exact Hp].
  intros s record s' Hrec Hs. unfold endnote_record.
  destruct (negb (truthy (strip record))); [by intros ?%Ok_inj; subst|].
  intros Hr. apply bind_inv in Hr as (st & Hst & Hr). apply Ok_inj in Hr as <-.
  apply Forall_app. split; [done|]. apply (Hentry record); [done|].
  eapply (foldM_invariant (Inv record)); [|apply Hfirst|exact Hst].
  intros s0 line s0' Hin. by apply Hline.
Qed.

End RecordParsers.

Lemma record_entry_shaped st : Forall record_shaped (record_entry st).
Proof.
  destruct st as [fields entry_type]. unfold record_entry.
  case_bool_decide; constructor; [|constructor].
  split; [done|]. split; [done|]. by eexists.
Qed.

(** X9. Every entry [parse_ris] and [parse_endnote] return has at least
    one field: a record in which no recognised tag occurs gives no
    entry. Its type is a string and its key is the first twenty
    characters of its title, or of "unknown" when it has no title. *)
Theorem record_parsers_entries {T : PyText} :
  (forall file, exists entries,
      parse_ris file = Ok entries /\ Forall record_shaped entries)
  /\ (forall file, exists entries,
        parse_endnote file = Ok entries /\ Forall record_shaped entries).
Proof.
  split; intros [content|e]; try (by exists []).
  - apply (ris_records_inv (fun _ _ => True)); [done| |done].
    intros record st _ _. apply record_entry_shaped.
  - apply (endnote_records_inv (fun _ _ => True)); [done| |done].
    intros record st _ _. apply record_entry_shaped.
Qed.

Lemma before_not_in c s : c ∉ before c s.
Proof.
  induction s as [|a s IH]; cbn [before]; [apply not_elem_of_nil|].
  destruct (N.eqb_spec a c) as [->|Hne]; [apply not_elem_of_nil|].
  rewrite elem_of_cons. intros [?|?]; [congruence|done].
Qed.

(** The first piece of a split at one character is the text in front of
    its first occurrence. *)
Lemma split_char_first c s : forall cur,
  exists rest, split_from [c] None O cur s = (rev cur ++ before c s) :: rest.
Proof.
  induction s as [|a s IH]; intros cur; cbn [split_from before].
  - exists []. by rewrite app_nil_r.
  - rewrite bool_decide_eq_false_2 by done. cbn [negb startswith].
    rewrite !andb_true_r. rewrite N.eqb_sym.
    destruct (a =? c)%N.
    + eexists. by rewrite app_nil_r.
    + destruct (IH (a :: cur)) as [rest ->]. exists rest.
      cbn [rev]. by rewrite <- app_assoc.
Qed.

Lemma getitem_split_slash v y :
  getitem (split (u "/") v) 0 = Ok y -> y = before c_slash v.
Proof.
  unfold split. destruct (split_char_first c_slash v []) as [rest Hs].
  change (u "/") with [c_slash]. rewrite Hs, getitem_0. by intros ?%Ok_inj.
Qed.

Section RecordYears.
Context {T : PyText}.

Lemma ris_line_year record st line st' :
  line ∈ split [c_newline] record ->
  (forall y, st.1 !! f_year = Some y -> ris_year_line record y) ->
  ris_line st line = Ok st' ->
  forall y, st'.1 !! f_year = Some y -> ris_year_line record y.
Proof.
  destruct st as [fields entry_type]. unfold ris_line. cbn [fst].
  intros Hin Hf Hl y.
  destruct (negb (truthy (strip line)) || negb (contains (u "  -") (strip line)));
    [apply Ok_inj in Hl; subst st'; by apply Hf|].
  destruct (split_max (u "  -") 1 (strip line)) as [|tag [|value [|]]] eqn:Hsplit;
    try done.
  destruct (decide (strip tag = u "PY")) as [Hpy|Hpy].
  - rewrite Hpy in Hl.
    rewrite (bool_decide_eq_false_2 (u "PY" = u "TY")),
      (bool_decide_eq_false_2 (u "PY" = u "AU")),
      (bool_decide_eq_false_2 (u "PY" = u "TI")) in Hl by name_ne.
    rewrite (bool_decide_eq_true_2 (u "PY" = u "PY")) in Hl by done.
    apply bind_inv in Hl as (x & Hx & Hl). apply Ok_inj in Hl. subst st'. cbn [fst].
    rewrite lookup_insert_eq. intros Hy. apply (inj Some) in Hy. subst y.
    exists line, tag, value. repeat split; try done.
    by apply getitem_split_slash.
  - rewrite (bool_decide_eq_false_2 (strip tag = u "PY")) in Hl by done.
    repeat case_match; simplify_eq; cbn [fst]; try (by apply Hf);
      try (apply bind_inv in Hl as (x & Hx & Hl); simplify_eq; cbn [fst]);
      try (rewrite lookup_insert_ne by name_ne; by apply Hf).
Qed.

Lemma endnote_line_year record st line st' :
  line ∈ split [c_newline] record ->
  (forall y, st.1 !! f_year = Some y -> endnote_year_line record y) ->
  endnote_line st line = Ok st' ->
  forall y, st'.1 !! f_year = Some y -> endnote_year_line record y.
Proof.
  destruct st as [fields entry_type]. unfold endnote_line. cbn [fst].
  intros Hin Hf Hl y.
  destruct (negb (truthy (strip line)) || negb (startswith (u "%") line)) eqn:Hskip;
    [apply Ok_inj in Hl; subst st'; by apply Hf|].
  apply orb_false_iff in Hskip as [_ Hs]. apply negb_false_iff in Hs.
  apply bind_inv in Hl as (c & Hc & Hl).
  destruct (decide ([c] = u "D")) as [Hd|Hd].
  - rewrite Hd in Hl.
    rewrite (bool_decide_eq_false_2 (u "D" = u "0")),
      (bool_decide_eq_false_2 (u "D" = u "A")),
      (bool_decide_eq_false_2 (u "D" = u "T")) in Hl by name_ne.
    rewrite (bool_decide_eq_true_2 (u "D" = u "D")) in Hl by done.
    apply Ok_inj in Hl. subst st'. cbn [fst].
    rewrite lookup_insert_eq. intros Hy. apply (inj Some) in Hy. subst y.
    exists line. repeat split; try done.
    destruct line as [|a [|b rest]]; [done|done|].
    rewrite getitem_1 in Hc. apply Ok_inj in Hc. subst c.
    change (u "D") with [68%N] in Hd. injection Hd as ->.
    change (u "%") with [37%N] in Hs. cbn [startswith] in Hs.
    rewrite andb_true_r in Hs. apply N.eqb_eq in Hs. subst a.
    reflexivity.
  - rewrite (bool_decide_eq_false_2 ([c] = u "D")) in Hl by done.
    repeat case_match; simplify_eq; cbn [fst]; try (by apply Hf);
      try (apply bind_inv in Hl as (x & Hx & Hl); simplify_eq; cbn [fst]);
      try (rewrite lookup_insert_ne by name_ne; by apply Hf).
Qed.

End RecordYears.

(** X10. The year of an entry read from RIS is the part in front of the
    first slash of the value of a PY line of one of the records of the
    file, so it holds no slash: of the date 2020/01/02 the parser keeps
    2020. The year of an entry read from EndNote is the first four
    characters of the value of a line that starts with a percent sign
    and a D, so it has at most four characters. *)
Theorem record_parsers_year {T : PyText} (content : pystr) :
  (exists entries,
      parse_ris (Ok content) = Ok entries
      /\ Forall (fun e => forall y, fields e !! f_year = Some y ->
                                    ris_year_from content y /\ (c_slash ∉ y))
                entries)
  /\ (exists entries,
        parse_endnote (Ok content) = Ok entries
        /\ Forall (fun e => forall y, fields e !! f_year = Some y ->
                                      endnote_year_from content y /\ len y <= 4)
                  entries).
Proof.
  split.
  - apply (ris_records_inv
             (fun record st => forall y, st.1 !! f_year = Some y ->
                                         ris_year_line record y)).
    + intros record y Hy. cbn [fst] in Hy. by rewrite lookup_empty in Hy.
    + intros record [fields entry_type] Hrec Hst. unfold record_entry.
      case_bool_decide; constructor; [|constructor].
      intros y Hy. split; [exists record; split; [done|by apply Hst]|].
      destruct (Hst y Hy) as (line & tag & value & _ & _ & _ & ->).
      apply before_not_in.
    + intros record st line st'. apply ris_line_year.
  - apply (endnote_records_inv
             (fun record st => forall y, st.1 !! f_year = Some y ->
                                         endnote_year_line record y)).
    + intros record y Hy. cbn [fst] in Hy. by rewrite lookup_empty in Hy.
    + intros record [fields entry_type] Hrec Hst. unfold record_entry.
      case_bool_decide; constructor; [|constructor].
      intros y Hy. split; [exists record; split; [done|by apply Hst]|].
      destruct (Hst y Hy) as (line & _ & _ & ->).
      unfold len. rewrite length_take. lia.
    + intros record st line st'. apply endnote_line_year.
Qed.

(** ** The [except] paths of the parsers *)

(** X11. Reading RIS text never raises: whatever the text of a file that
    could be read, the [try] block of [parse_ris] runs to its end, so
    the parser returns the empty list through its [except] clause only
    when the file cannot be read. *)
Theorem parse_ris_text_never_excepts {T : PyText} (content : pystr) :
  exists entries,
    parse_ris_try (Ok content) = Ok entries /\ parse_ris (Ok content) = Ok entries.
Proof. apply parse_ris_readable. Qed.

Section EndNoteRaises.
Context {T : PyText}.

Lemma endnote_line_raises st line e :
  endnote_line st line = Raise e <-> line = u "%" /\ e = IndexError.
Proof.
  destruct st as [fields entry_type]. split.
  - unfold endnote_line.
    destruct (negb (truthy (strip line)) || negb (startswith (u "%") line)) eqn:Hskip;
      [done|].
    apply orb_false_iff in Hskip as [_ Hs]. apply negb_false_iff in Hs.
    destruct line as [|c [|d rest]]; [done| |].
    + cbn in Hs. rewrite andb_true_r in Hs. apply N.eqb_eq in Hs as <-.
      intros [= <-]. done.
    + rewrite getitem_1, bind_Ok. unfold has, fields_item.
      repeat case_bool_decide; try done; destruct (fields !! f_author); done.
  - intros [-> ->]. reflexivity.
Qed.

Lemma endnote_record_raises entries record e :
  endnote_record entries record = Raise e <->
  (strip record <> [] /\ u "%" ∈ split [c_newline] record) /\ e = IndexError.
Proof.
  unfold endnote_record. destruct (strip record) as [|c s] eqn:Hs; cbn [truthy negb].
  - split; [done|]. by intros [[? _] _].
  - destruct (foldM endnote_line (∅, u "article") (split [c_newline] record))
      as [st|e'] eqn:Hf.
    + rewrite bind_Ok. split; [done|]. intros [[_ Hin] ->].
      assert (Hr : foldM endnote_line (∅, u "article") (split [c_newline] record)
                   = Raise IndexError).
      { apply (foldM_raise endnote_line (fun line => line = u "%") IndexError).
        - intros. apply endnote_line_raises.
        - split; [|done]. by exists (u "%"). }
      congruence.
    + apply (foldM_raise endnote_line (fun line => line = u "%") IndexError)
        in Hf as [(line & Hin & ->) ->]; [|intros; apply endnote_line_raises].
      cbn. split.
      * intros [= <-]. done.
      * by intros [_ ->].
Qed.

End EndNoteRaises.

(** X12. Reading EndNote text raises exactly when a record that is not
    blank has a line made of a percent sign alone, and the exception is
    then [IndexError]: the parser reads the tag at the second character
    of a line it has only tested to start with a percent sign. The whole
    file then parses to the empty list. *)
Theorem parse_endnote_raises {T : PyText} (content : pystr) (e : exn) :
  (parse_endnote_try (Ok content) = Raise e <->
   (exists record, record ∈ re_split blank_line_pattern content
                   /\ strip record <> [] /\ u "%" ∈ split [c_newline] record)
   /\ e = IndexError)
  /\ (parse_endnote_try (Ok content) = Raise e -> parse_endnote (Ok content) = Ok []).
Proof.
  split.
  - unfold parse_endnote_try. rewrite bind_Ok.
    apply (foldM_raise endnote_record
             (fun record => strip record <> [] /\ u "%" ∈ split [c_newline] record)).
    intros. apply endnote_record_raises.
  - intros He. unfold parse_endnote. by rewrite He.
Qed.

Lemma parse_endnote_raises_witness :
  parse_endnote (T := ascii_text)
    (Ok (u "%T A Study" ++ [c_newline] ++ u "%" ++ [c_newline; c_newline]
         ++ u "%T Another")) = Ok [].
Proof.
  refine (proj2 (parse_endnote_raises (T := ascii_text) _ IndexError) _).
  apply (proj1 (parse_endnote_raises (T := ascii_text) _ IndexError)).
  split; [|reflexivity].
  exists (u "%T A Study" ++ [c_newline] ++ u "%").
  split; [apply list_elem_of_In; vm_compute; tauto|].
  split; [vm_compute; congruence|apply list_elem_of_In; vm_compute; tauto].
Defined.

(** ** Entry types of the JSON parser *)

Lemma mapM_Forall2 {A B} (R : A -> B -> Prop) (f : A -> result B)
    (l : list A) (l' : list B) :
  (forall x y, f x = Ok y -> R x y) -> mapM f l = Ok l' -> Forall2 R l l'.
Proof.
  intros Hf. revert l'. induction l as [|x l IH]; intros l' Hm.
  - simpl in Hm. apply Ok_inj in Hm as <-. constructor.
  - rewrite mapM_cons in Hm. apply bind_inv in Hm as (y & Hy & Hm).
    apply bind_inv in Hm as (ys & Hys & Hm). apply Ok_inj in Hm as <-.
    constructor; [by apply Hf|by apply IH].
Qed.

Lemma json_item_type {T : PyText} item entry :
  json_item item = Ok entry ->
  json_type_of item (type entry) /\ py_in (u "journal") (type entry) = Ok false.
Proof.
  unfold json_item, json_type_of. intros Hj.
  apply bind_inv in Hj as (has_author & _ & Hj).
  apply bind_inv in Hj as (fields0 & _ & Hj).
  apply bind_inv in Hj as (fields1 & _ & Hj).
  apply bind_inv in Hj as (fields2 & _ & Hj).
  apply bind_inv in Hj as (entry_type & Ht & Hj).
  apply bind_inv in Hj as (is_journal & Hin & Hj).
  apply bind_inv in Hj as (k & _ & Hj). apply Ok_inj in Hj as <-. cbn [type].
  destruct is_journal.
  - split; [|reflexivity]. exists entry_type. split; [done|]. by left.
  - split; [|done]. exists entry_type. split; [done|]. by right.
Qed.

(** X13. When the [try] block of [parse_json] runs to its end, the
    entries are those of the items of the file, one for one and in
    order, and the type of each is the type of its item, or
    "article-journal" when the item has none, with "article" in its
    place when "journal" occurs in it; otherwise the parser returns the
    empty list. So "journal" occurs in the type of no entry. *)
Theorem parse_json_types {T : PyText} (loaded : result pyval) :
  exists entries,
    parse_json loaded = Ok entries
    /\ Forall (fun e => py_in (u "journal") (type e) = Ok false) entries
    /\ (((exists e, parse_json_try loaded = Raise e) /\ entries = [])
        \/ exists data items,
             loaded = Ok data
             /\ iter (match data with VDict _ => VList [data] | _ => data end)
                = Ok items
             /\ Forall2 (fun item e => json_type_of item (type e)) items entries).
Proof.
  unfold parse_json, try_except.
  destruct (parse_json_try loaded) as [entries|e] eqn:Hp.
  - exists entries. split; [done|].
    unfold parse_json_try in Hp. apply bind_inv in Hp as (data & Hd & Hp).
    apply bind_inv in Hp as (items & Hi & Hp). split.
    + eapply mapM_Forall; [|exact Hp]. intros item entry Hj.
      by apply json_item_type in Hj as [_ ?].
    + right. exists data, items. split; [done|]. split; [done|].
      eapply mapM_Forall2; [|exact Hp]. intros item entry Hj.
      by apply json_item_type in Hj as [? _].
  - exists []. split; [done|]. split; [constructor|]. left. split; [by exists e|done].
Qed.

(** ** Formatting entries *)

Lemma format_entry_raise_iff entry style e :
  format_entry_python entry style = Raise e <->
  style = u "mla" /\ nameless entry /\ e = IndexError.
Proof.
  rewrite format_entry_dispatch. unfold nameless.
  set (author := fields_get (fields entry) f_author []).
  pose proof (format_authors_raise_iff author style) as Hr.
  destruct (format_authors author style) as [authors|e'] eqn:Ha.
  - rewrite bind_Ok.
    destruct (composer_total style (type entry) authors
                (fields_get (fields entry) f_year (u "n.d."))
                (fields_get (fields entry) f_title []) (fields entry)) as [s ->].
    split; [done|]. intros (Hs & [Hne Hn] & He).
    assert (Hc : Ok authors = Raise e) by (by apply Hr). done.
  - cbn. split.
    + intros [= <-]. by destruct (proj1 (Hr e') eq_refl) as (? & ? & ? & ?).
    + intros (Hs & [Hne Hn] & He). f_equal.
      destruct (proj1 (Hr e') eq_refl) as (_ & _ & _ & ->). done.
Qed.

(** X14. [format_entry_python] either returns a string that is not empty
    or raises [IndexError]; it raises exactly when the style is mla and
    the author field is not empty but holds no name. *)
Theorem format_entry_returns_or_raises (entry : Entry) (style : pystr) :
  (exists s, format_entry_python entry style = Ok s /\ s <> [])
  \/ format_entry_python entry style = Raise IndexError
     /\ style = u "mla" /\ nameless entry.
Proof.
  destruct (format_entry_python entry style) as [s|e] eqn:Hf.
  - left. exists s. split; [done|]. by eapply format_entry_nonempty.
  - right. apply format_entry_raise_iff in Hf as (Hs & Hn & ->). done.
Qed.

(** The loop of [format_with_python] as a map over the entries *)
Lemma format_with_python_Forall2 style entries refs :
  format_with_python style entries = Ok refs <->
  Forall2 (fun entry r => format_entry_python entry style = Ok r) entries refs.
Proof.
  split; [apply format_with_python_keeps_all|].
  unfold format_with_python.
  assert (Hgen : forall acc,
    Forall2 (fun entry r => format_entry_python entry style = Ok r) entries refs ->
    foldM (fun refs entry =>
             formatted ← format_entry_python entry style;
             Ok (if truthy formatted then refs ++ [formatted] else refs))
          acc entries = Ok (acc ++ refs)).
  { intros acc H. revert acc.
    induction H as [|entry r entries refs Hr _ IH]; intros acc.
    - simpl. by rewrite app_nil_r.
    - rewrite foldM_cons, Hr, bind_Ok.
      rewrite truthy_nonempty by (by eapply format_entry_nonempty).
      rewrite bind_Ok, IH, <- app_assoc. done. }
  intros H. by rewrite (Hgen [] H).
Qed.

Lemma format_with_python_raise_iff style entries e :
  format_with_python style entries = Raise e <->
  (exists entry, entry ∈ entries /\ style = u "mla" /\ nameless entry)
  /\ e = IndexError.
Proof.
  unfold format_with_python. apply foldM_raise. intros refs entry e'.
  pose proof (format_entry_raise_iff entry style e') as Hr.
  destruct (format_entry_python entry style) as [r|e0].
  - rewrite bind_Ok. split; [done|]. intros [[? ?] ?].
    assert (Hc : Ok r = Raise e') by (by apply Hr). done.
  - split.
    + intros H. assert (e0 = e') as -> by (by injection H).
      assert (Hx : @Raise pystr e' = Raise e') by done. apply Hr in Hx. tauto.
    + intros H. assert (Hx : @Raise pystr e0 = Raise e') by (apply Hr; tauto).
      injection Hx as ->. done.
Qed.

Lemma formatted_of_ok style entry r :
  format_entry_python entry style = Ok r -> formatted_of style entry = r.
Proof. unfold formatted_of. by intros ->. Qed.

Lemma format_with_python_fmap style entries :
  Forall (fun entry => exists r, format_entry_python entry style = Ok r) entries ->
  format_with_python style entries = Ok (formatted_of style <$> entries).
Proof.
  intros Hall. apply format_with_python_Forall2.
  induction Hall as [|entry entries [r Hr] _ IH]; [constructor|].
  cbn [fmap list_fmap]. constructor; [|exact IH].
  by rewrite (formatted_of_ok _ _ _ Hr).
Qed.

Lemma format_with_python_inv style entries refs :
  format_with_python style entries = Ok refs ->
  refs = formatted_of style <$> entries
  /\ Forall (fun entry => exists r, format_entry_python entry style = Ok r) entries.
Proof.
  intros H%format_with_python_Forall2.
  induction H as [|entry r entries refs Hr _ [IH1 IH2]]; [by split|].
  split; [|constructor; eauto].
  cbn [fmap list_fmap]. by rewrite (formatted_of_ok _ _ _ Hr), IH1.
Qed.

(** X15. [format_with_python] returns a list exactly when every entry is
    formatted without an exception, and the list then holds the formatted
    string of each entry, in order: as many references as entries. *)
Theorem format_with_python_all_or_raise (style : pystr) (entries : list Entry)
    (refs : list pystr) :
  format_with_python style entries = Ok refs <->
  Forall2 (fun entry r => format_entry_python entry style = Ok r) entries refs.
Proof. apply format_with_python_Forall2. Qed.

Lemma format_with_python_all_or_raise_witness :
  format_with_python (u "nature")
    [ {| type := VStr (u "book"); key := VStr (u "b1");
         fields := {[ f_title := u "Elements" ]} |};
      {| type := VStr (u "misc"); key := VStr (u "m1"); fields := ∅ |} ]
  = Ok [u "Elements."; u "."].
Proof.
  apply format_with_python_all_or_raise.
  repeat constructor; vm_compute; reflexivity.
Defined.

(** X16. Formatting does not depend on the citation key, and reads the
    entry type only to tell an article from anything else: two entries
    with the same fields that are both articles, or both not, are
    formatted alike under every style. *)
Theorem format_entry_type_key (entry entry' : Entry) (style : pystr) :
  fields entry = fields entry' ->
  is_article (type entry) = is_article (type entry') ->
  format_entry_python entry style = format_entry_python entry' style.
Proof.
  intros Hf Ht. rewrite !format_entry_dispatch, <- Hf.
  destruct (format_authors _ _) as [authors|e]; [|done]. rewrite !bind_Ok.
  split_styles; unfold format_harvard, format_apa, format_mla, format_chicago,
    format_ieee, format_vancouver, format_ama, format_acs, format_nature;
    by rewrite Ht.
Qed.

Lemma format_entry_type_key_witness :
  let book := {| type := VStr (u "book"); key := VStr (u "b1");
                 fields := {[ f_title := u "Elements"; f_publisher := u "Dover" ]} |} in
  let misc := {| type := VStr (u "misc"); key := VInt 7;
                 fields := {[ f_title := u "Elements"; f_publisher := u "Dover" ]} |} in
  format_entry_python book (u "nature") = format_entry_python misc (u "nature").
Proof.
  intros book misc. apply format_entry_type_key; vm_compute; reflexivity.
Defined.

(** *** Sorting and formatting *)

(** X17. Sorting only reorders the references: when the entries are
    formatted without an exception, so are the sorted entries, under any
    sorting order, and the references are the same up to their order. *)
Theorem sort_then_format_permutes {T : PyText} (order style : pystr)
    (entries : list Entry) (refs : list pystr) :
  format_with_python style entries = Ok refs ->
  exists refs', format_with_python style (sort_entries order entries) = Ok refs'
                /\ refs' ≡ₚ refs.
Proof.
  intros [-> Hall]%format_with_python_inv.
  exists (formatted_of style <$> sort_entries order entries). split.
  - apply format_with_python_fmap.
    rewrite Forall_forall in Hall |- *. intros entry Hin. apply Hall.
    by rewrite <- (sort_entries_perm order entries).
  - f_equiv. apply sort_entries_perm.
Qed.

Lemma sort_then_format_permutes_witness :
  let a := {| type := VStr (u "misc"); key := VStr (u "a");
              fields := {[ f_title := u "Zebra" ]} |} in
  let b := {| type := VStr (u "misc"); key := VStr (u "b");
              fields := {[ f_title := u "Apple" ]} |} in
  exists refs', format_with_python (u "acs")
                  (sort_entries (T := ascii_text) (u "title") [a; b]) = Ok refs'
                /\ refs' ≡ₚ [u "Zebra."; u "Apple."].
Proof.
  intros a b.
  apply (sort_then_format_permutes (T := ascii_text) (u "title") (u "acs") [a; b]).
  vm_compute. reflexivity.
Defined.

(** ** Words of a formatted reference *)

Lemma split_ws_from_has_word s : forall cur,
  split_ws_from cur s <> [] <-> cur <> [] \/ has_word s.
Proof.
  unfold has_word. induction s as [|a s IH]; intros cur; cbn [split_ws_from].
  - split.
    + destruct cur; [done|]. by left.
    + intros [H|(c & Hc & _)]; [|inversion Hc]. by destruct cur.
  - destruct (isspace a) eqn:Ha.
    + destruct cur as [|b cur]; cbn [truthy].
      * rewrite IH. split; (intros [H|(c & Hc & Hs)]; [done|right]).
        -- exists c. split; [by right|done].
        -- apply elem_of_cons in Hc as [->|Hc]; [congruence|]. eauto.
      * split; [by left|done].
    + rewrite IH. split; [|by left]. intros _. right. exists a. split; [by left|done].
Qed.

Lemma split_ws_has_word s : split_ws s <> [] <-> has_word s.
Proof.
  unfold split_ws. rewrite split_ws_from_has_word. split; [|by right].
  by intros [?|?].
Qed.

Lemma punctuated_has_word s : punctuated s -> has_word s.
Proof. intros [H|H]; eexists; (split; [exact H|reflexivity]). Qed.

(** Look for the character in the pieces of a concatenation. *)
Ltac find_char :=
  lazymatch goal with
  | |- _ ∈ _ ++ _ =>
      apply elem_of_app; first [left; solve [find_char] | right; solve [find_char]]
  | |- _ ∈ u _ => apply list_elem_of_In; vm_compute; tauto
  end.

Lemma composer_punctuated style entry_type authors year title fields s :
  composer_of style entry_type authors year title fields = Ok s -> punctuated s.
Proof.
  split_styles; to_lookups; split_lookups; intros Hs%Ok_inj; subst s;
    cbn [app join]; unfold punctuated;
    first [left; solve [find_char] | right; solve [find_char]].
Qed.

(** X18. Whatever [format_entry_python] returns holds a full stop or a
    comma, under every style and for every entry, also one without any
    field: a formatted reference always has a word to lay out. *)
Theorem format_entry_punctuated (entry : Entry) (style : pystr) (s : pystr) :
  format_entry_python entry style = Ok s -> punctuated s /\ split_ws s <> [].
Proof.
  rewrite format_entry_dispatch. intros Hf.
  apply bind_inv in Hf as (authors & _ & Hf).
  apply composer_punctuated in Hf. split; [done|].
  by apply split_ws_has_word, punctuated_has_word.
Qed.

Lemma format_entry_punctuated_witness :
  punctuated (dq ++ u "," ++ dq) /\ split_ws (dq ++ u "," ++ dq) <> [].
Proof.
  apply (format_entry_punctuated
           {| type := VNone; key := VNone; fields := ∅ |} (u "ieee")).
  vm_compute. reflexivity.
Defined.

(** ** Layout of the lines *)

Lemma layout_blocks opts max_chars formatted_refs :
  add_references_to_document opts max_chars formatted_refs
  = Ok (title_block opts ++
        concat (imap (fun k ref =>
                  reference_block opts max_chars (len formatted_refs)
                                  (1 + Z.of_nat k) ref) formatted_refs)).
Proof.
  unfold add_references_to_document. rewrite marker_of_ok, bind_Ok by apply len_nonneg.
  by rewrite layout_loop.
Qed.

Lemma text_imap (f : nat -> pystr -> Line) (ls : list pystr) :
  (forall j x, text (f j x) = x) -> text <$> imap f ls = ls.
Proof.
  revert f. induction ls as [|x ls IH]; intros f Hf; [done|].
  cbn [imap fmap list_fmap]. rewrite Hf. f_equal. apply IH. intros j y. apply Hf.
Qed.

Lemma text_imap_line_of opts ls : text <$> imap (line_of opts) ls = ls.
Proof. by apply text_imap. Qed.

Lemma first_lines_none {A} (f : nat -> A -> Line) (l : list A) :
  (forall j x, is_first (f j x) <> Some true) -> first_lines (imap f l) = [].
Proof.
  revert f. induction l as [|x l IH]; intros f Hf; [done|].
  cbn [imap]. unfold first_lines. rewrite filter_cons_False by apply Hf.
  apply IH. intros j y. apply Hf.
Qed.

Lemma first_lines_block opts ls :
  ls <> [] -> length (first_lines (imap (line_of opts) ls)) = 1%nat.
Proof.
  destruct ls as [|x ls]; [done|]. intros _. cbn [imap]. unfold first_lines.
  rewrite filter_cons_True by done. cbn [length]. f_equal.
  change (length (first_lines (imap (line_of opts ∘ S) ls)) = 0%nat).
  rewrite first_lines_none; [done|]. intros j y. cbn.
  rewrite bool_decide_eq_false_2 by done. done.
Qed.

Lemma first_lines_app l1 l2 : first_lines (l1 ++ l2) = first_lines l1 ++ first_lines l2.
Proof. apply filter_app. Qed.

Lemma first_lines_title opts : first_lines (title_block opts) = [].
Proof. unfold title_block. by destruct (show_title opts). Qed.

Lemma full_text_has_word marker ref : has_word ref -> has_word (full_text marker ref).
Proof.
  unfold full_text. destruct (truthy marker); [|done].
  intros (c & Hc & Hs). exists c. split; [|done].
  apply elem_of_app. right. apply elem_of_app. by right.
Qed.

Lemma reference_block_first opts max_chars n i ref :
  has_word ref ->
  length (first_lines (reference_block opts max_chars n i ref)) = 1%nat.
Proof.
  intros Href. unfold reference_block. apply first_lines_block.
  intros Hw. apply wrap_text_words in Hw. revert Hw.
  by apply split_ws_has_word, full_text_has_word.
Qed.

Lemma first_lines_blocks opts max_chars n refs : forall start,
  Forall has_word refs ->
  length (first_lines (concat (imap (fun k ref =>
            reference_block opts max_chars n (start + Z.of_nat k) ref) refs)))
  = length refs.
Proof.
  induction refs as [|ref refs IH]; intros start Hall; [done|].
  inversion Hall as [|? ? Href Hrest]; subst.
  cbn [imap concat length]. rewrite first_lines_app, length_app.
  rewrite reference_block_first by done. f_equal.
  rewrite <- (IH (start + 1) Hrest). do 3 f_equal.
  apply imap_ext. intros k x _. cbn. f_equal. lia.
Qed.

Lemma layout_first_lines opts max_chars refs :
  Forall has_word refs ->
  exists ls, add_references_to_document opts max_chars refs = Ok ls
             /\ length (first_lines ls) = length refs.
Proof.
  intros Hall. eexists. split; [apply layout_blocks|].
  rewrite first_lines_app, first_lines_title. cbn [app].
  by apply first_lines_blocks.
Qed.

(** X19. When every reference has a word, the layout flags exactly one
    line per reference as its first: no reference is dropped or merged
    with another, whatever the width, the numbering style and the
    indents, and the title line is not counted. *)
Theorem layout_one_first_line_each (opts : Options) (max_chars : Z)
    (formatted_refs : list pystr) :
  Forall (fun ref => split_ws ref <> []) formatted_refs ->
  exists ls, add_references_to_document opts max_chars formatted_refs = Ok ls
             /\ length (first_lines ls) = length formatted_refs.
Proof.
  intros Hall. apply layout_first_lines.
  eapply Forall_impl; [exact Hall|]. intros ref. apply split_ws_has_word.
Qed.

Lemma layout_one_first_line_each_witness :
  let opts := {| numbering_style := u "none"; hanging_indent := true;
                 indent_size := 20; show_title := true;
                 title_text := u "References" |} in
  exists ls, add_references_to_document opts 3 [u "Alpha beta."; u "Gamma."] = Ok ls
             /\ length (first_lines ls) = 2%nat.
Proof.
  intros opts. apply (layout_one_first_line_each opts 3 [u "Alpha beta."; u "Gamma."]).
  repeat constructor; vm_compute; congruence.
Defined.

(** X20. The layout loses no text: the lines it gives a reference,
    rejoined with single spaces, are the words of the marker and the
    reference joined with single spaces, and none of these lines is
    empty or flagged as the title. *)
Theorem layout_keeps_words (opts : Options) (max_chars : Z)
    (formatted_refs : list pystr) :
  exists blocks,
    add_references_to_document opts max_chars formatted_refs
    = Ok (title_block opts ++ concat blocks)
    /\ Forall2 (fun item block =>
                  join (u " ") (text <$> block)
                  = join (u " ")
                      (split_ws (full_text (marker_of (numbering_style opts) item.1)
                                           item.2))
                  /\ Forall (fun l => is_title l = false /\ text l <> []) block)
               (enumerate 1 formatted_refs) blocks.
Proof.
  eexists. split; [apply layout_blocks|].
  generalize (len formatted_refs). intros n.
  change 1 with (1 + 0) at 1.
  assert (Hgen : forall start,
    Forall2 (fun item block =>
               join (u " ") (text <$> block)
               = join (u " ")
                   (split_ws (full_text (marker_of (numbering_style opts) item.1)
                                        item.2))
               /\ Forall (fun l => is_title l = false /\ text l <> []) block)
            (enumerate start formatted_refs)
            (imap (fun k ref => reference_block opts max_chars n (start + Z.of_nat k) ref)
                  formatted_refs)).
  { induction formatted_refs as [|ref refs IH]; intros start; [constructor|].
    cbn [enumerate imap]. constructor.
    - cbn [fst snd]. rewrite Z.add_0_r. unfold reference_block.
      rewrite text_imap_line_of.
      destruct (wrap_text_words
                  (full_text (marker_of (numbering_style opts) start) ref)
                  max_chars 0 (continuation_indent opts n start)) as (Hj & Hne & _).
      split; [exact Hj|].
      apply Forall_forall. intros l Hl.
      apply elem_of_lookup_imap in Hl as (j & line & -> & Hline).
      split; [done|]. cbn [text line_of].
      rewrite Forall_forall in Hne. apply Hne. by eapply list_elem_of_lookup_2.
    - rewrite (imap_ext _ (fun k ref0 =>
                 reference_block opts max_chars n (start + 1 + Z.of_nat k) ref0)).
      + apply IH.
      + intros k x _. cbn. f_equal. lia. }
  rewrite Z.add_0_r. apply Hgen.
Qed.

(** ** Font family *)

(** The closed string ends with the closed suffix. *)
Ltac ends_with :=
  lazymatch goal with
  | |- exists named, ?v = named ++ ?g =>
      exists (take (length v - length g) v); vm_compute; reflexivity
  end.

(** X21. Whatever the font option holds, the family [get_font_family]
    returns ends with one of the three generic families, so the text
    always has a font to fall back on; an unknown option gives "serif". *)
Theorem get_font_family_generic (font_family : pystr) :
  (exists generic,
      generic ∈ [u "serif"; u "sans-serif"; u "monospace"]
      /\ exists named, get_font_family font_family = named ++ generic)
  /\ (font_map !! font_family = None -> get_font_family font_family = u "serif").
Proof.
  split; [|intros Hn; unfold get_font_family, fields_get; by rewrite Hn].
  unfold get_font_family, fields_get.
  destruct (font_map !! font_family) as [v|] eqn:E.
  - unfold font_map in E. apply elem_of_list_to_map_2 in E.
    repeat (apply elem_of_cons in E as [E|E];
            [injection E as -> ->;
             first [ exists (u "monospace"); split; [in_list|]; solve [ends_with]
                   | exists (u "sans-serif"); split; [in_list|]; solve [ends_with]
                   | exists (u "serif"); split; [in_list|]; solve [ends_with] ]|]).
    inversion E.
  - exists (u "serif"). split; [in_list|]. by exists [].
Qed.

Lemma get_font_family_generic_witness :
  get_font_family (u "comic sans") = u "serif".
Proof.
  apply (proj2 (get_font_family_generic (u "comic sans"))).
  vm_compute. reflexivity.
Defined.

(** ** Entry point *)

Section EntryPointProperties.
Context {T : PyText}.

Lemma parse_reference_file_total filepath :
  exists entries, parse_reference_file filepath = Ok entries.
Proof.
  unfold parse_reference_file.
  repeat case_bool_decide; eauto; apply try_except_total.
Qed.

Lemma format_sorted_raise_iff style order entries e :
  format_with_python style (sort_entries order entries) = Raise e <->
  (style = u "mla" /\ Exists nameless entries) /\ e = IndexError.
Proof.
  rewrite format_with_python_raise_iff, Exists_exists.
  split; intros [H ->]; (split; [|done]).
  - destruct H as (entry & Hin & Hs & Hn). split; [done|].
    exists entry. split; [|done]. by rewrite <- (sort_entries_perm order entries).
  - destruct H as (Hs & entry & Hin & Hn). exists entry.
    split; [|done]. by rewrite (sort_entries_perm order entries).
Qed.

(** The two backends draw alike: the call of the missing method raises
    inside the [try], and the handler draws the lines. *)
Lemma effect_unfold s filepath entries :
  bibfile s = Some filepath ->
  path_exists filepath = Ok true ->
  parse_reference_file filepath = Ok entries ->
  entries <> [] ->
  effect s
  = (formatted_refs ← format_with_python (format s)
                        (sort_entries (sort_order s) entries);
     max_chars ← max_chars s;
     lines ← add_references_to_document (layout s) max_chars formatted_refs;
     Ok (Some lines)).
Proof.
  intros Hb Hx Hp Hne. unfold effect. rewrite Hb, Hx, bind_Ok. cbn [negb].
  rewrite Hp, bind_Ok.
  rewrite truthy_nonempty by done. cbn [negb].
  destruct (format_with_python _ _) as [refs|e]; [|done]. rewrite !bind_Ok.
  unfold add_references_latex.
  destruct (bool_decide (backend s = u "latex")); by destruct (max_chars s).
Qed.

(** What [effect] does, by the file it is given *)
Lemma effect_cases s :
  (bibfile s = None /\ effect s = Ok None)
  \/ (exists filepath e, bibfile s = Some filepath
                         /\ path_exists filepath = Raise e /\ effect s = Raise e)
  \/ (exists filepath, bibfile s = Some filepath
                       /\ path_exists filepath = Ok false /\ effect s = Ok None)
  \/ (exists filepath, bibfile s = Some filepath
                       /\ path_exists filepath = Ok true
                       /\ parse_reference_file filepath = Ok [] /\ effect s = Ok None)
  \/ (exists filepath entries,
        bibfile s = Some filepath /\ path_exists filepath = Ok true
        /\ parse_reference_file filepath = Ok entries
        /\ entries <> []
        /\ effect s
           = (formatted_refs ← format_with_python (format s)
                                 (sort_entries (sort_order s) entries);
              max_chars ← max_chars s;
              lines ← add_references_to_document (layout s) max_chars formatted_refs;
              Ok (Some lines))).
Proof.
  destruct (bibfile s) as [filepath|] eqn:Hb.
  - right. destruct (path_exists filepath) as [[|]|e] eqn:Hx.
    + destruct (parse_reference_file_total filepath) as [entries Hp].
      destruct entries as [|entry entries].
      * right. right. left. exists filepath. repeat split; try done.
        unfold effect. by rewrite Hb, Hx, bind_Ok, Hp.
      * right. right. right. exists filepath, (entry :: entries).
        repeat split; try done. by apply (effect_unfold s filepath).
    + right. left. exists filepath. repeat split; try done.
      unfold effect. by rewrite Hb, Hx.
    + left. exists filepath, e. repeat split; try done.
      unfold effect. by rewrite Hb, Hx.
  - left. split; [done|]. unfold effect. by rewrite Hb.
Qed.

End EntryPointProperties.

(** X22. Up to the list of lines it lays out, [effect] raises in three
    cases only. Before anything is read, when the test whether the file
    exists raises. After the file gave at least one entry, under style
    mla when an entry has an author field that is not empty but holds no
    name, with [IndexError]; and otherwise when the computation of the
    line width raises. Parsing, sorting, the other styles and the layout
    of the lines raise nothing, whatever the backend option. *)
Theorem effect_raises {T : PyText} (s : Settings) (e : exn) :
  effect s = Raise e <->
  exists filepath,
    bibfile s = Some filepath
    /\ (path_exists filepath = Raise e
        \/ exists entries,
             path_exists filepath = Ok true
             /\ parse_reference_file filepath = Ok entries
             /\ entries <> []
             /\ ((format s = u "mla" /\ Exists nameless entries /\ e = IndexError)
                 \/ (~ (format s = u "mla" /\ Exists nameless entries)
                     /\ max_chars s = Raise e))).
Proof.
  destruct (effect_cases s) as [[Hb ->]|[(filepath & e0 & Hb & Hx & ->)
    |[(filepath & Hb & Hx & ->)|[(filepath & Hb & Hx & Hp & ->)
    |(filepath & entries & Hb & Hx & Hp & Hne & ->)]]]].
  - split; [done|]. intros (? & ? & _). congruence.
  - split.
    + intros He. injection He as ->. exists filepath. split; [done|]. by left.
    + intros (f' & Hb' & Hcase). assert (f' = filepath) as -> by congruence.
      destruct Hcase as [Hr|(es & Hx' & _)]; congruence.
  - split; [done|]. intros (f' & Hb' & Hcase).
    assert (f' = filepath) as -> by congruence.
    destruct Hcase as [Hr|(es & Hx' & _)]; congruence.
  - split; [done|]. intros (f' & Hb' & Hcase).
    assert (f' = filepath) as -> by congruence.
    destruct Hcase as [Hr|(es & Hx' & Hp' & Hne & _)]; congruence.
  - pose proof (format_sorted_raise_iff (format s) (sort_order s) entries) as Hr.
    assert (Hrhs : forall Q : list Entry -> Prop,
      (exists f', bibfile s = Some f'
         /\ (path_exists f' = Raise e
             \/ exists es, path_exists f' = Ok true
                  /\ parse_reference_file f' = Ok es /\ es <> [] /\ Q es))
      <-> Q entries).
    { intros Q. split.
      - intros (f' & Hb' & Hcase). assert (f' = filepath) as -> by congruence.
        destruct Hcase as [Hc|(es & _ & Hp' & _ & HQ)]; [congruence|].
        assert (es = entries) as -> by congruence. done.
      - intros HQ. exists filepath. split; [done|]. right. by exists entries. }
    rewrite (Hrhs (fun es =>
      (format s = u "mla" /\ Exists nameless es /\ e = IndexError)
      \/ (~ (format s = u "mla" /\ Exists nameless es) /\ max_chars s = Raise e))).
    destruct (format_with_python _ _) as [refs|e0].
    + rewrite bind_Ok.
      assert (Hnot : ~ (format s = u "mla" /\ Exists nameless entries)).
      { intros Hbad. assert (Hc : Ok refs = Raise IndexError) by (by apply Hr). done. }
      destruct (max_chars s) as [mc|e1] eqn:Hm.
      * rewrite bind_Ok, layout_blocks, bind_Ok. split; [done|].
        intros [(? & ? & _)|[_ ?]]; [tauto|done].
      * split.
        -- intros He. right. split; [done|]. by injection He as ->.
        -- intros [(? & ? & _)|[_ He]]; [tauto|]. by injection He as ->.
    + assert (He0 : (format s = u "mla" /\ Exists nameless entries) /\ e0 = IndexError)
        by (by apply Hr).
      destruct He0 as [Hbad ->]. split.
      * intros He. left. repeat split; try tauto. by injection He as ->.
      * intros [(_ & _ & ->)|[Hnot _]]; [done|tauto].
Qed.

Lemma effect_raises_witness :
  effect (T := ascii_text)
    {| bibfile := Some {| suffix := u ".RIS"; path_exists := Ok true;
                          read := Ok (u "AU  - ,"); load := Raise JSONDecodeError |};
       backend := u "latex"; format := u "mla"; sort_order := u "year";
       max_chars := Ok 80;
       layout := {| numbering_style := u "numeric"; hanging_indent := true;
                    indent_size := 20; show_title := true;
                    title_text := u "References" |} |}
  = Raise IndexError.
Proof.
  apply effect_raises. eexists. split; [reflexivity|]. right. eexists.
  split; [reflexivity|]. split; [vm_compute; reflexivity|].
  split; [discriminate|]. left. split; [reflexivity|]. split; [|reflexivity].
  apply Exists_cons_hd. split; [vm_compute; discriminate|vm_compute; reflexivity].
Defined.

(** X23. [effect] draws nothing exactly when no file is given, the file
    does not exist, or the file gives no entry. When it draws, the lines
    start with the title line if one is shown, and exactly one line per
    parsed entry is flagged as the first line of a reference: every
    entry of the file is drawn as one reference. *)
Theorem effect_draws {T : PyText} (s : Settings) :
  (effect s = Ok None <->
   bibfile s = None
   \/ exists filepath,
        bibfile s = Some filepath
        /\ (path_exists filepath = Ok false
            \/ (path_exists filepath = Ok true
                /\ parse_reference_file filepath = Ok [])))
  /\ (forall ls, effect s = Ok (Some ls) ->
        exists filepath entries rest,
          bibfile s = Some filepath
          /\ path_exists filepath = Ok true
          /\ parse_reference_file filepath = Ok entries
          /\ ls = title_block (layout s) ++ rest
          /\ length (first_lines ls) = length entries).
Proof.
  destruct (effect_cases s) as [[Hb ->]|[(filepath & e0 & Hb & Hx & ->)
    |[(filepath & Hb & Hx & ->)|[(filepath & Hb & Hx & Hp & ->)
    |(filepath & entries & Hb & Hx & Hp & Hne & ->)]]]].
  - split; [|done]. split; [by left|done].
  - split; [|done]. split; [done|].
    intros [Hn|(f' & Hb' & Hcase)]; [congruence|].
    assert (f' = filepath) as -> by congruence.
    destruct Hcase as [?|[? _]]; congruence.
  - split; [|done]. split; [|done]. intros _. right. exists filepath.
    split; [done|]. by left.
  - split; [|done]. split; [|done]. intros _. right. exists filepath.
    split; [done|]. by right.
  - split.
    + split.
      * intros He. apply bind_inv in He as (refs & _ & He).
        apply bind_inv in He as (mc & _ & He).
        apply bind_inv in He as (ls & _ & He). done.
      * intros [Hn|(f' & Hb' & Hcase)]; [congruence|].
        assert (f' = filepath) as -> by congruence.
        destruct Hcase as [?|[_ ?]]; congruence.
    + intros ls He. apply bind_inv in He as (refs & Hrefs & He).
      apply bind_inv in He as (mc & _ & He).
      apply bind_inv in He as (ls' & Hl & He). apply Ok_inj in He. simplify_eq.
      apply format_with_python_Forall2 in Hrefs.
      assert (Hwords : Forall has_word refs).
      { apply Forall_forall. intros r Hr.
        apply list_elem_of_lookup in Hr as [i Hi].
        destruct (Forall2_lookup_r _ _ _ _ _ Hrefs Hi) as (entry & _ & Hf).
        rewrite format_entry_dispatch in Hf.
        apply bind_inv in Hf as (authors & _ & Hf).
        apply composer_punctuated in Hf. by apply punctuated_has_word. }
      destruct (layout_first_lines (layout s) mc refs Hwords) as (ls0 & Hl0 & Hn).
      rewrite Hl in Hl0. apply Ok_inj in Hl0 as <-.
      exists filepath, entries. rewrite layout_blocks in Hl. apply Ok_inj in Hl.
      eexists. repeat split; try done.
      rewrite Hn. rewrite <- (Forall2_length _ _ _ Hrefs).
      by rewrite (sort_entries_perm (sort_order s) entries).
Qed.

Lemma effect_draws_witness :
  let s := {| bibfile := Some {| suffix := u ".bib"; path_exists := Ok true;
                                 read := Ok (u "@book{b, title={B}} @misc{a, title={A}}");
                                 load := Raise JSONDecodeError |};
              backend := u "inkscape"; format := u "apa"; sort_order := u "title";
              max_chars := Ok 6;
              layout := {| numbering_style := u "alpha"; hanging_indent := true;
                           indent_size := 20; show_title := true;
                           title_text := u "References" |} |} in
  exists ls, effect (T := ascii_text) s = Ok (Some ls)
             /\ length (first_lines ls) = 2%nat.
Proof.
  intros s. eexists. split; [vm_compute; reflexivity|].
  edestruct (proj2 (effect_draws (T := ascii_text) s))
    as (f & es & rest & Hb & _ & Hp & _ & Hn);
    [vm_compute; reflexivity|].
  rewrite Hn. injection Hb as <-. vm_compute in Hp. injection Hp as <-. reflexivity.
Defined.

(** ** Braces of the BibTeX field values *)

(** What the matcher accepts is a word of the pattern followed by what
    the continuation accepts, and the captures keep every property the
    groups keep. *)
Lemma rmatch_sound {R} (I : gmap nat pystr -> Prop) (r : regex) :
  groups_keep I r ->
  forall s caps (k : pystr -> gmap nat pystr -> option R) x,
    I caps -> rmatch r s caps k = Some x ->
    exists w s' caps', s = w ++ s' /\ matches r w /\ I caps' /\ k s' caps' = Some x.
Proof.
  induction r as [|p|r1 IH1 r2 IH2|r1 IH1 r2 IH2|r' IH|n r' IH];
    intros Hg s caps k x HI Hm; cbn [rmatch] in Hm.
  - exists [], s, caps. repeat split; try done. constructor.
  - destruct s as [|c s']; [done|]. destruct (p c) eqn:Hp; [|done].
    exists [c], s', caps. repeat split; try done. by constructor.
  - destruct Hg as [Hg1 Hg2].
    apply (IH1 Hg1) in Hm as (w1 & s1 & caps1 & -> & Hw1 & HI1 & Hm); [|done].
    apply (IH2 Hg2) in Hm as (w2 & s2 & caps2 & -> & Hw2 & HI2 & Hm); [|done].
    exists (w1 ++ w2), s2, caps2. rewrite <- app_assoc. repeat split; try done.
    by constructor.
  - destruct Hg as [Hg1 Hg2].
    destruct (rmatch r1 s caps k) as [y|] eqn:H1.
    + injection Hm as ->.
      apply (IH1 Hg1) in H1 as (w & s' & caps' & -> & Hw & HI' & Hk); [|done].
      exists w, s', caps'. repeat split; try done. by apply matches_alt_l.
    + apply (IH2 Hg2) in Hm as (w & s' & caps' & -> & Hw & HI' & Hk); [|done].
      exists w, s', caps'. repeat split; try done. by apply matches_alt_r.
  - cbn [groups_keep] in Hg. revert Hm. generalize (length s) at 1. intros fuel.
    revert s caps HI. induction fuel as [|fuel IHf]; intros s caps HI Hm.
    + exists [], s, caps. repeat split; try done. constructor.
    + match type of Hm with
      | match ?inner with _ => _ end = _ => destruct inner as [y|] eqn:Hin
      end.
      * injection Hm as ->.
        apply (IH Hg) in Hin as (w1 & s1 & caps1 & -> & Hw1 & HI1 & Hk); [|done].
        destruct (length s1 <? length (w1 ++ s1))%nat; [|done].
        apply IHf in Hk as (w2 & s2 & caps2 & -> & Hw2 & HI2 & Hk); [|done].
        exists (w1 ++ w2), s2, caps2. rewrite <- app_assoc.
        repeat split; try done. by constructor.
      * exists [], s, caps. repeat split; try done. constructor.
  - destruct Hg as [Hg Hn].
    apply (IH Hg) in Hm as (w & s' & caps' & -> & Hw & HI' & Hk); [|done].
    exists w, s', (<[n := take (length (w ++ s') - length s') (w ++ s')]> caps').
    rewrite length_app in *.
    replace (length w + length s' - length s')%nat with (length w) in * by lia.
    rewrite take_app_length in *.
    repeat split; try done; [by constructor|by apply Hn].
Qed.

Lemma matches_star_ind (P : pystr -> Prop) (r : regex) :
  P [] -> (forall w1 w2, matches r w1 -> P w2 -> P (w1 ++ w2)) ->
  forall w, matches (Star r) w -> P w.
Proof.
  intros Hnil Hcons w Hm. remember (Star r) as sr eqn:Hsr.
  induction Hm as [| | | | | |r0 w1 w2 H1 _ H2 IH2|]; try discriminate.
  - done.
  - injection Hsr as ->. apply Hcons; [done|]. by apply IH2.
Qed.

Lemma matches_chr_inv p w : matches (Chr p) w -> exists c, w = [c] /\ p c = true.
Proof. inversion 1; subst. eauto. Qed.

Lemma matches_seq_inv r1 r2 w :
  matches (Seq r1 r2) w -> exists w1 w2, w = w1 ++ w2 /\ matches r1 w1 /\ matches r2 w2.
Proof. inversion 1; subst. eauto. Qed.

Lemma matches_alt_inv r1 r2 w : matches (Alt r1 r2) w -> matches r1 w \/ matches r2 w.
Proof. inversion 1; subst; eauto. Qed.

Lemma none_of_brace cs c :
  negb (bool_decide (c ∈ c_lbrace :: c_rbrace :: cs)) = true ->
  c <> c_lbrace /\ c <> c_rbrace.
Proof.
  intros H%negb_true_iff%bool_decide_eq_false.
  split; intros ->; apply H; [by left|right; by left].
Qed.

Lemma paired_from_char inside c s :
  c <> c_lbrace -> c <> c_rbrace -> paired_from inside (c :: s) = paired_from inside s.
Proof.
  intros Hl Hr. cbn [paired_from].
  destruct (N.eqb_spec c c_lbrace); [done|]. by destruct (N.eqb_spec c c_rbrace).
Qed.

Lemma paired_from_skip inside w t :
  brace_free w -> paired_from inside (w ++ t) = paired_from inside t.
Proof.
  induction 1 as [|c w [Hl Hr] _ IH]; [done|].
  cbn [app]. by rewrite paired_from_char.
Qed.

Lemma paired_from_app w1 w2 : forall inside,
  paired_from inside w1 = true ->
  paired_from inside (w1 ++ w2) = paired_from false w2.
Proof.
  induction w1 as [|c w1 IH]; intros inside; cbn [app paired_from].
  - by intros ->%negb_true_iff.
  - destruct (c =? c_lbrace)%N.
    + intros [-> H]%andb_true_iff. by rewrite (IH _ H).
    + destruct (c =? c_rbrace)%N; [|apply IH].
      intros [-> H]%andb_true_iff. by rewrite (IH _ H).
Qed.

Lemma matches_class_brace_free w :
  matches (Star (none_of [c_lbrace; c_rbrace])) w -> brace_free w.
Proof.
  apply matches_star_ind; [constructor|].
  intros w1 w2 (c & -> & Hc)%matches_chr_inv Hw2.
  constructor; [|done]. by apply (none_of_brace []).
Qed.

(** What the repeated group of the two BibTeX patterns matches has its
    braces in pairs. *)
Lemma matches_braced_body cs w : matches (braced_body cs) w -> paired w.
Proof.
  unfold braced_body, paired. revert w.
  apply (matches_star_ind (fun w => paired_from false w = true)); [done|].
  intros w1 w2 [H1|H1]%matches_alt_inv Hw2.
  - apply matches_chr_inv in H1 as (c & -> & Hc).
    apply none_of_brace in Hc as [Hl Hr]. cbn [app]. by rewrite paired_from_char.
  - cbn [seqs] in H1.
    apply matches_seq_inv in H1 as (a & w' & -> & Ha & H1).
    apply matches_seq_inv in H1 as (w & b & -> & Hw & Hb).
    apply matches_chr_inv in Ha as (ca & -> & Hca%N.eqb_eq).
    apply matches_chr_inv in Hb as (cb & -> & Hcb%N.eqb_eq). subst ca cb.
    apply matches_class_brace_free in Hw.
    rewrite paired_from_app; [done|].
    cbn [app paired_from]. rewrite N.eqb_refl. cbn [negb andb].
    rewrite paired_from_skip by done. reflexivity.
Qed.

Lemma scan_inr r m : forall s skip,
  inr m ∈ scan r skip s ->
  exists s0 rest caps,
    rmatch r s0 ∅ (fun rest caps => Some (rest, caps)) = Some (rest, caps)
    /\ m = <[O := take (length s0 - length rest) s0]> caps.
Proof.
  induction s as [|c s IH]; intros skip Hin; cbn [scan] in Hin; [inversion Hin|].
  destruct skip as [|skip]; [|by eapply IH].
  destruct (rmatch r (c :: s) ∅ (fun rest caps => Some (rest, caps)))
    as [[rest caps]|] eqn:Hm.
  - destruct (length (c :: s) - length rest =? 0)%nat.
    + apply elem_of_cons in Hin as [?|Hin]; [done|]. by eapply IH.
    + apply elem_of_cons in Hin as [Heq|Hin]; [|by eapply IH].
      injection Heq as ->. by exists (c :: s), rest, caps.
  - apply elem_of_cons in Hin as [?|Hin]; [done|]. by eapply IH.
Qed.

Lemma finditer_inr r s m : m ∈ finditer r s -> inr m ∈ scan r O s.
Proof.
  unfold finditer. intros (t & Ht & Hm)%list_elem_of_omap.
  destruct t as [c|m']; [done|]. by injection Hm as ->.
Qed.

(** The value the field pattern captures has its braces in pairs. *)
Lemma field_value_paired {T : PyText} fields_str fm :
  fm ∈ finditer field_pattern fields_str -> paired (group fm 2).
Proof.
  intros Hin%finditer_inr%scan_inr. destruct Hin as (s0 & rest & caps & Hm & ->).
  unfold group. rewrite lookup_insert_ne by done.
  pose (Inv := fun caps : gmap nat pystr =>
                 forall v, caps !! 2%nat = Some v -> paired v).
  assert (Hkeep : groups_keep Inv field_pattern).
  { unfold field_pattern, Plus, lit, one_of.
    unfold braced_body at 1. unfold none_of, lit. cbn [seqs groups_keep].
    repeat lazymatch goal with
           | |- _ /\ _ => split
           | |- True => exact Logic.I
           end; unfold Inv.
    - intros caps0 w HI _ v. rewrite lookup_insert_ne by done. apply HI.
    - intros caps0 w HI Hw v. rewrite lookup_insert_eq. intros [= <-].
      by eapply matches_braced_body. }
  assert (HI0 : Inv ∅) by (intros v Hv; by rewrite lookup_empty in Hv).
  destruct (rmatch_sound Inv field_pattern Hkeep _ _ _ _ HI0 Hm)
    as (w & s' & caps' & _ & _ & HI' & Hk).
  injection Hk as -> ->.
  destruct (caps !! 2%nat) as [v|] eqn:Hv; [by apply HI'|done].
Qed.

(** *** Stripping white space *)

Lemma isspace_not_brace c : isspace c = true -> c <> c_lbrace /\ c <> c_rbrace.
Proof. intros H. split; intros ->; vm_compute in H; discriminate. Qed.

Lemma lstrip_split s :
  exists ws, s = ws ++ lstrip s /\ Forall (fun c => isspace c = true) ws.
Proof.
  induction s as [|c s (ws & Hs & Hws)]; [by exists []|].
  cbn [lstrip]. destruct (isspace c) eqn:Hc.
  - exists (c :: ws). split; [cbn [app]; by rewrite <- Hs|by constructor].
  - by exists [].
Qed.

Lemma spaces_brace_free ws : Forall (fun c => isspace c = true) ws -> brace_free ws.
Proof.
  intros H. eapply Forall_impl; [exact H|]. intros c. apply isspace_not_brace.
Qed.

Lemma paired_from_snoc inside m ws :
  brace_free ws -> paired_from inside (m ++ ws) = paired_from inside m.
Proof.
  intros Hws. revert inside. induction m as [|c m IH]; intros inside.
  - cbn [app]. rewrite <- (app_nil_r ws) at 1. by rewrite paired_from_skip.
  - cbn [app paired_from]. by rewrite !IH.
Qed.

Lemma strip_paired s : paired s -> paired (strip s).
Proof.
  unfold paired, strip. intros Hs.
  destruct (lstrip_split s) as (ws1 & Hs1 & Hws1).
  rewrite Hs1, paired_from_skip in Hs by (by apply spaces_brace_free).
  destruct (lstrip_split (rev (lstrip s))) as (ws2 & Hs2 & Hws2).
  apply (f_equal (@rev _)) in Hs2. rewrite rev_involutive, rev_app_distr in Hs2.
  rewrite Hs2, paired_from_snoc in Hs; [done|].
  apply spaces_brace_free. by apply Forall_rev.
Qed.

(** *** The substitution *)

(** A repeated character class takes every character of the class in
    front of one that is not, when the rest then matches. *)
Lemma star_class_greedy {R} (p : char -> bool) w c t caps
    (k : pystr -> gmap nat pystr -> option R) x :
  Forall (fun a => p a = true) w -> p c = false ->
  k (c :: t) caps = Some x ->
  rmatch (Star (Chr p)) (w ++ c :: t) caps k = Some x.
Proof.
  intros Hw Hc Hk. cbn [rmatch].
  assert (Hle : (length w <= length (w ++ c :: t))%nat)
    by (rewrite length_app; lia).
  revert Hle. generalize (length (w ++ c :: t)). intros fuel.
  revert fuel. induction Hw as [|a w Ha Hw IH]; intros fuel Hle.
  - destruct fuel; cbn [app]; [done|]. by rewrite Hc.
  - destruct fuel as [|fuel]; [cbn in Hle; lia|].
    cbn [app]. rewrite Ha.
    assert (Hlt : (length (w ++ c :: t) <? length (a :: w ++ c :: t))%nat = true)
      by (apply Nat.ltb_lt; cbn [length]; lia).
    rewrite Hlt. rewrite IH by (cbn in Hle; lia). done.
Qed.

Lemma rmatch_brace_pair w t :
  brace_free w ->
  rmatch brace_pattern (c_lbrace :: w ++ c_rbrace :: t) ∅
         (fun rest caps => Some (rest, caps))
  = Some (t, <[1%nat := w]> ∅).
Proof.
  intros Hw. unfold brace_pattern. cbn [seqs].
  change (rmatch (Group 1 (Star (none_of [c_lbrace; c_rbrace]))) (w ++ c_rbrace :: t) ∅
            (fun s' caps' => rmatch (lit c_rbrace) s' caps'
                               (fun rest caps => Some (rest, caps)))
          = Some (t, <[1%nat := w]> ∅)).
  change (rmatch (Star (none_of [c_lbrace; c_rbrace])) (w ++ c_rbrace :: t) ∅
            (fun s' caps' =>
               rmatch (lit c_rbrace) s'
                 (<[1%nat := take (length (w ++ c_rbrace :: t) - length s')
                                  (w ++ c_rbrace :: t)]> caps')
                 (fun rest caps => Some (rest, caps)))
          = Some (t, <[1%nat := w]> ∅)).
  apply star_class_greedy.
  - eapply Forall_impl; [exact Hw|]. intros a [Hl Hr]. cbn beta.
    apply negb_true_iff, bool_decide_eq_false. 
    intros Hin. apply elem_of_cons in Hin as [?|Hin]; [done|].
    apply elem_of_cons in Hin as [?|Hin]; [done|]. inversion Hin.
  - reflexivity.
  - cbn [rmatch lit]. rewrite N.eqb_refl. do 3 f_equal.
    rewrite length_app. cbn [length].
    replace (length w + S (length t) - S (length t))%nat with (length w) by lia.
    apply take_app_length.
Qed.

Lemma rmatch_brace_other c s :
  c <> c_lbrace ->
  rmatch brace_pattern (c :: s) ∅ (fun rest caps => Some (rest, caps)) = None.
Proof.
  intros Hc. unfold brace_pattern. cbn [seqs rmatch lit].
  by destruct (N.eqb_spec c_lbrace c) as [<-|_].
Qed.

Lemma scan_skip r skip a t :
  skip = length a -> scan r skip (a ++ t) = scan r O t.
Proof.
  intros ->. induction a as [|c a IH]; [done|]. cbn [length app scan]. exact IH.
Qed.

(** What follows an opening brace in paired text: text without braces,
    the closing brace, and paired text. *)
Lemma paired_inside s :
  paired_from true s = true ->
  exists w t, s = w ++ c_rbrace :: t /\ brace_free w /\ paired t.
Proof.
  induction s as [|c s IH]; [done|]. cbn [paired_from].
  destruct (N.eqb_spec c c_lbrace) as [->|Hl]; [done|].
  destruct (N.eqb_spec c c_rbrace) as [->|Hr].
  - intros Hs. exists [], s. repeat split; [constructor|done].
  - intros (w & t & -> & Hw & Ht)%IH. exists (c :: w), t.
    repeat split; [by constructor|done].
Qed.

(** The substitution takes the braces out of paired text. *)
Lemma sub_paired_brace_free (n : nat) : forall s,
  (length s <= n)%nat -> paired s -> brace_free (sub_group1 brace_pattern s).
Proof.
  induction n as [|n IH]; intros s Hn Hs.
  - destruct s; [constructor|cbn in Hn; lia].
  - destruct s as [|c s]; [constructor|].
    unfold paired in Hs. cbn [paired_from] in Hs.
    destruct (N.eqb_spec c c_lbrace) as [->|Hl].
    + cbn [negb andb] in Hs.
      apply paired_inside in Hs as (w & t & -> & Hw & Ht).
      unfold sub_group1. cbn [scan]. rewrite rmatch_brace_pair by done.
      assert (Hlen : (length (c_lbrace :: w ++ c_rbrace :: t) - length t
                      = S (S (length w)))%nat)
        by (cbn [length]; rewrite length_app; cbn [length]; lia).
      rewrite Hlen. cbn [Nat.eqb Nat.sub].
      replace (w ++ c_rbrace :: t) with ((w ++ [c_rbrace]) ++ t)
        by (by rewrite <- app_assoc).
      rewrite (scan_skip brace_pattern _ (w ++ [c_rbrace]) t)
        by (rewrite length_app; cbn [length]; lia).
      cbn [mbind list_bind]. apply Forall_app. split.
      * unfold group. rewrite lookup_insert_ne, lookup_insert_eq by done. exact Hw.
      * apply IH; [|done]. cbn [length] in Hn. rewrite length_app in Hn.
        cbn [length] in Hn. lia.
    + destruct (N.eqb_spec c c_rbrace) as [->|Hr]; [done|].
      unfold sub_group1. cbn [scan]. rewrite rmatch_brace_other by done.
      cbn [mbind list_bind app]. constructor; [done|].
      apply IH; [cbn [length] in Hn; lia|done].
Qed.

Lemma foldl_invariant {A S} (Inv : S -> Prop) (f : S -> A -> S) (l : list A) :
  (forall s x, x ∈ l -> Inv s -> Inv (f s x)) ->
  forall s, Inv s -> Inv (foldl f s l).
Proof.
  induction l as [|x l IH]; intros Hf s Hs; [done|].
  cbn [foldl]. apply IH.
  - intros s0 y Hy. apply Hf. by right.
  - apply Hf; [by left|done].
Qed.

Lemma bibtex_fields_brace_free {T : PyText} fields_str k v :
  bibtex_fields fields_str !! k = Some v -> brace_free v.
Proof.
  unfold bibtex_fields. revert k v.
  apply (foldl_invariant
           (fun fields : gmap pystr pystr =>
              forall k v, fields !! k = Some v -> brace_free v)).
  - intros fields fm Hfm Hfields k v.
    destruct (decide (str_lower (group fm 1) = k)) as [<-|Hne].
    + rewrite lookup_insert_eq. intros [= <-].
      apply (sub_paired_brace_free (length (strip (group fm 2)))); [done|].
      apply strip_paired. by eapply field_value_paired.
    + rewrite lookup_insert_ne by done. apply Hfields.
  - intros k v Hk. by rewrite lookup_empty in Hk.
Qed.

(** X24. No field value [parse_bibtex] returns holds a brace. In the
    value the field pattern captures, every brace belongs to a pair
    around text without braces; stripping white space keeps that, and
    the substitution takes each pair away and leaves what it encloses. *)
Theorem parse_bibtex_values_brace_free {T : PyText} (file : result pystr) :
  exists entries,
    parse_bibtex file = Ok entries
    /\ Forall (fun e => forall k v, fields e !! k = Some v ->
                                    (c_lbrace ∉ v) /\ (c_rbrace ∉ v)) entries.
Proof.
  destruct file as [content|e]; [|exists []; by split].
  eexists. split; [apply parse_bibtex_readable|].
  apply Forall_fmap, Forall_forall. intros m _ k v Hv. cbn [fields bibtex_entry] in Hv.
  apply bibtex_fields_brace_free in Hv. unfold brace_free in Hv.
  rewrite Forall_forall in Hv. split; intros Hin; by destruct (Hv _ Hin).
Qed.

(** ** Distinct markers *)

Lemma u_inj s1 s2 : u s1 = u s2 -> s1 = s2.
Proof.
  unfold u. intros H. apply (f_equal (fmap ascii_of_N)) in H.
  rewrite <- !list_fmap_compose in H.
  rewrite !(list_fmap_ext (ascii_of_N ∘ N_of_ascii) id) in H
    by (intros; apply ascii_N_embedding).
  rewrite !list_fmap_id in H.
  apply (f_equal string_of_list_ascii) in H.
  by rewrite !string_of_list_ascii_of_string in H.
Qed.

Lemma str_of_int_inj a b : str_of_int a = str_of_int b -> a = b.
Proof.
  unfold str_of_int. intros H%u_inj. apply DecimalZ.to_int_inj.
  apply (f_equal NilEmpty.int_of_string) in H. rewrite !NilEmpty.isi in H.
  by injection H.
Qed.

Lemma bracketed_inj a b : bracketed a = bracketed b -> a = b.
Proof.
  unfold bracketed. intros H. apply app_inv_head, app_inv_tail in H.
  by apply str_of_int_inj.
Qed.

Lemma table_lookup_inj (table : list pystr) i j x :
  NoDup table -> 1 <= i -> 1 <= j ->
  getitem table (i - 1) = Ok x -> getitem table (j - 1) = Ok x -> i = j.
Proof.
  intros Hnd Hi Hj. unfold getitem.
  destruct (Z.ltb_spec (i - 1) 0); [lia|]. destruct (Z.ltb_spec (j - 1) 0); [lia|].
  destruct (Z.ltb_spec (i - 1) 0); [lia|]. destruct (Z.ltb_spec (j - 1) 0); [lia|].
  destruct (table !! Z.to_nat (i - 1)) eqn:Ei; [|done].
  destruct (table !! Z.to_nat (j - 1)) eqn:Ej; [|done].
  intros [= ->] [= ->].
  pose proof (NoDup_lookup _ _ _ _ Hnd Ei Ej). lia.
Qed.

Lemma symbols_NoDup : NoDup symbols.
Proof. refine (bool_decide_unpack (NoDup symbols) _). vm_compute. exact I. Qed.

Lemma roman_numerals_NoDup : NoDup roman_numerals.
Proof.
  refine (bool_decide_unpack (NoDup roman_numerals) _). vm_compute. exact I.
Qed.

(** No entry of the two tables looks like a bracketed number. *)
Lemma symbols_not_bracketed x n : x ∈ symbols -> x <> bracketed n.
Proof.
  intros Hx. unfold bracketed. vm_compute in Hx.
  repeat (apply elem_of_cons in Hx as [->|Hx]; [discriminate|]). inversion Hx.
Qed.

Lemma roman_not_bracketed x n : x ∈ roman_numerals -> x ++ u "." <> bracketed n.
Proof.
  intros Hx. unfold bracketed. vm_compute in Hx.
  repeat (apply elem_of_cons in Hx as [->|Hx]; [discriminate|]). inversion Hx.
Qed.

Lemma marker_inj style i j m :
  style ∉ [u "bullet"; u "dash"; u "asterisk"; u "none"] ->
  1 <= i -> 1 <= j ->
  get_numbering_marker style i = Ok m ->
  get_numbering_marker style j = Ok m ->
  i = j.
Proof.
  intros Hs Hi Hj. unfold get_numbering_marker.
  repeat (let H := fresh "Hs" in
          case_bool_decide as H;
          [subst style; try (exfalso; apply Hs; in_list)|]).
  - intros H1%Ok_inj H2%Ok_inj. subst m. symmetry. by apply bracketed_inj.
  - intros H1%Ok_inj H2%Ok_inj. subst m. apply app_inv_tail in H2.
    symmetry. by apply str_of_int_inj.
  - intros H1%Ok_inj H2%Ok_inj. subst m. apply app_inv_head, app_inv_tail in H2.
    symmetry. by apply str_of_int_inj.
  - (* symbols *)
    destruct (i - 1 <? len symbols) eqn:Ei; destruct (j - 1 <? len symbols) eqn:Ej;
      intros H1 H2.
    + by apply (table_lookup_inj symbols i j m symbols_NoDup).
    + apply Ok_inj in H2. subst m. apply getitem_elem_of in H1.
      by apply (symbols_not_bracketed _ j) in H1.
    + apply Ok_inj in H1. subst m. apply getitem_elem_of in H2.
      by apply (symbols_not_bracketed _ i) in H2.
    + apply Ok_inj in H1. apply Ok_inj in H2. subst m. symmetry.
      by apply bracketed_inj.
  - (* alpha *)
    destruct (Z.leb_spec i 26); destruct (Z.leb_spec j 26);
      rewrite ?chr_ok by lia; cbn [mbind result_bind];
      intros H1%Ok_inj H2%Ok_inj; subst m.
    + injection H2 as H2. lia.
    + unfold bracketed in H2. injection H2 as H2 _. 
      change (N_of_ascii "[") with 91%N in H2. lia.
    + unfold bracketed in H2. injection H2 as H2 _.
      change (N_of_ascii "[") with 91%N in H2. lia.
    + by apply bracketed_inj.
  - (* roman *)
    destruct (i - 1 <? len roman_numerals) eqn:Ei;
      destruct (j - 1 <? len roman_numerals) eqn:Ej; intros H1 H2.
    + apply bind_inv in H1 as (r1 & H1 & E1). apply bind_inv in H2 as (r2 & H2 & E2).
      apply Ok_inj in E1. apply Ok_inj in E2. subst m.
      apply app_inv_tail in E2. subst r2.
      by apply (table_lookup_inj roman_numerals i j r1 roman_numerals_NoDup).
    + apply bind_inv in H1 as (r1 & H1 & E1). apply Ok_inj in E1. apply Ok_inj in H2.
      subst m. apply getitem_elem_of in H1. symmetry in H2.
      by apply (roman_not_bracketed r1 j) in H2.
    + apply bind_inv in H2 as (r2 & H2 & E2). apply Ok_inj in E2. apply Ok_inj in H1.
      subst m. apply getitem_elem_of in H2.
      by apply (roman_not_bracketed r2 i) in E2.
    + apply Ok_inj in H1. apply Ok_inj in H2. subst m. symmetry.
      by apply bracketed_inj.
  - (* a style that is not known *)
    intros H1%Ok_inj H2%Ok_inj. subst m. symmetry. by apply bracketed_inj.
Qed.

(** X25. Two references never get the same marker: for every numbering
    style that counts (every style but bullet, dash, asterisk and none,
    also a style that is not known), two different positions from 1 on
    have different markers. *)
Theorem marker_distinct (style : pystr) (i j : Z) :
  style ∉ [u "bullet"; u "dash"; u "asterisk"; u "none"] ->
  1 <= i -> 1 <= j -> i <> j ->
  get_numbering_marker style i <> get_numbering_marker style j.
Proof.
  intros Hs Hi Hj Hne Heq.
  destruct (marker_total style i) as [m Hm]; [lia|].
  apply Hne. apply (marker_inj style i j m); try done. by rewrite <- Heq.
Qed.

Lemma marker_distinct_witness :
  get_numbering_marker (u "roman") 20 = Ok (u "xx.")
  /\ get_numbering_marker (u "roman") 21 = Ok (u "[21]")
  /\ get_numbering_marker (u "roman") 20 <> get_numbering_marker (u "roman") 21.
Proof.
  split; [vm_compute; reflexivity|]. split; [vm_compute; reflexivity|].
  apply marker_distinct; [not_in_list|lia..].
Defined.

(** ** Greedy wrapping *)

Lemma breaks_forced_snoc F S gs g g' :
  breaks_forced F S (gs ++ [g]) ->
  match g' with
  | w :: _ => (if bool_decide (gs = []) then F else S) < len (join (u " ") (g ++ [w]))
  | [] => True
  end ->
  breaks_forced F S (gs ++ [g; g']).
Proof.
  revert F. induction gs as [|g0 gs IH]; intros F.
  - cbn [app breaks_forced]. rewrite bool_decide_eq_true_2 by done.
    intros _ Hg'. by destruct g'.
  - cbn [app breaks_forced]. rewrite bool_decide_eq_false_2 by done.
    intros [H0 Hrest] Hg'. split.
    + by destruct gs.
    + apply IH; [done|]. by destruct (bool_decide (gs = [])).
Qed.

Lemma breaks_forced_grow F S gs g w :
  g <> [] -> breaks_forced F S (gs ++ [g]) -> breaks_forced F S (gs ++ [g ++ [w]]).
Proof.
  intros Hg. revert F. induction gs as [|g0 gs IH]; intros F.
  - done.
  - cbn [app breaks_forced]. intros [H0 Hrest]. split; [|by apply IH].
    destruct gs; [|done]. cbn [app] in *. by destruct g.
Qed.

Lemma wrap_step_inv_greedy F S ws st w :
  wrap_inv_greedy F S ws st -> wrap_inv_greedy F S (ws ++ [w]) (wrap_step F S st w).
Proof.
  intros (gs & Hlines & Hne & Hws & Hlen & Hfirst & Hnil & Hforced).
  unfold wrap_step.
  set (M := if is_first_line st then F else S) in *.
  destruct (Z.leb_spec (current_length st + len w + len (current_line st)) M) as [Hw|Hw].
  - exists gs. cbn [lines current_line current_length is_first_line].
    repeat split; try done; try apply Hfirst.
    + rewrite <- Hws. by rewrite app_assoc.
    + rewrite sum_len_app. simpl. lia.
    + intros Hc. by apply app_eq_nil in Hc as [_ ?].
    + destruct (current_line st) as [|w0 cur] eqn:Ecur.
      * rewrite (Hnil eq_refl). done.
      * by apply breaks_forced_grow.
  - destruct (current_line st) as [|w0 cur] eqn:Ecur;
      cbn [truthy lines current_line current_length is_first_line].
    + exists gs. repeat split; try done; try apply Hfirst.
      * rewrite <- Hws. by rewrite app_nil_r.
      * simpl. lia.
      * rewrite (Hnil eq_refl). done.
    + exists (gs ++ [w0 :: cur]). repeat split; try done.
      * rewrite fmap_app. by rewrite Hlines.
      * apply Forall_app. split; [done|]. by constructor.
      * rewrite concat_app. simpl. rewrite app_nil_r. by rewrite <- Hws.
      * simpl. lia.
      * intros Hgs. by destruct gs.
      * rewrite <- app_assoc. cbn [app]. apply breaks_forced_snoc; [done|].
        cbn [current_line].
        rewrite (len_join_space ((w0 :: cur) ++ [w])) by done.
        rewrite sum_len_app, len_app.
        change (len [w]) with 1. cbn [sum_len] in *.
        replace (if bool_decide (gs = []) then F else S) with M; [lia|].
        subst M. destruct (is_first_line st) eqn:Ef.
        -- by rewrite bool_decide_eq_true_2 by (by apply Hfirst).
        -- rewrite bool_decide_eq_false_2; [done|].
           intros Hgs. apply Hfirst in Hgs. done.
Qed.

Lemma wrap_fold_inv_greedy F S ws' ws st :
  wrap_inv_greedy F S ws st ->
  wrap_inv_greedy F S (ws ++ ws') (foldl (wrap_step F S) st ws').
Proof.
  revert ws st. induction ws' as [|w ws' IH]; intros ws st Hinv; simpl.
  - by rewrite app_nil_r.
  - replace (ws ++ w :: ws') with ((ws ++ [w]) ++ ws') by (by rewrite <- app_assoc).
    apply IH. by apply wrap_step_inv_greedy.
Qed.

(** X26. [wrap_text] breaks a line only when it must. Its lines are the
    words of the text in consecutive groups, and no line but the last
    could take the first word of the next line: joined to the line by a
    space, that word would pass the width of the line, the width less
    the first-line indent for the first line and less the continuation
    indent for the others. *)
Theorem wrap_text_greedy (text : pystr) (W first_indent later_indent : Z) :
  exists gs : list (list pystr),
    wrap_text text W first_indent later_indent = join (u " ") <$> gs
    /\ concat gs = split_ws text
    /\ Forall (fun g => g <> []) gs
    /\ breaks_forced (W - first_indent) (W - later_indent) gs.
Proof.
  unfold wrap_text.
  set (st0 := {| lines := []; current_line := []; current_length := 0;
                 is_first_line := true |}).
  destruct (wrap_fold_inv_greedy (W - first_indent) (W - later_indent)
              (split_ws text) [] st0)
    as (gs & Hl & Hne & Hws & _ & _ & Hnil & Hforced).
  { exists []. simpl. repeat split; auto. }
  cbn [app] in Hws.
  destruct (current_line _) as [|w cur] eqn:Ecur; cbn [truthy].
  - exists gs. rewrite app_nil_r in Hws. repeat split; try done.
    rewrite (Hnil eq_refl). done.
  - exists (gs ++ [w :: cur]). repeat split; try done.
    + rewrite fmap_app. by rewrite Hl.
    + rewrite concat_app. simpl. by rewrite app_nil_r.
    + apply Forall_app. split; [done|]. by constructor.
Qed.

(** ** Names of the authors *)

Lemma lstrip_head s :
  match lstrip s with [] => True | c :: _ => isspace c = false end.
Proof.
  induction s as [|c s IH]; [done|]. cbn [lstrip].
  by destruct (isspace c) eqn:Hc.
Qed.

Lemma lstrip_fixed s :
  match s with [] => True | c :: _ => isspace c = false end -> lstrip s = s.
Proof. destruct s as [|c s]; [done|]. cbn [lstrip]. by intros ->. Qed.

Lemma lstrip_lstrip s : lstrip (lstrip s) = lstrip s.
Proof. apply lstrip_fixed, lstrip_head. Qed.

(** What [strip] returns is a piece of the string, between white space. *)
Lemma strip_split s :
  exists ws1 ws2, s = ws1 ++ strip s ++ ws2
                  /\ Forall (fun c => isspace c = true) ws1
                  /\ Forall (fun c => isspace c = true) ws2.
Proof.
  destruct (lstrip_split s) as (ws1 & Hs1 & Hws1).
  destruct (lstrip_split (rev (lstrip s))) as (ws2 & Hs2 & Hws2).
  exists ws1, (rev ws2). unfold strip. repeat split; [|done|by apply Forall_rev].
  apply (f_equal (@rev _)) in Hs2. rewrite rev_involutive, rev_app_distr in Hs2.
  by rewrite <- Hs2.
Qed.

Lemma strip_strip s : strip (strip s) = strip s.
Proof.
  assert (Hl : lstrip (strip s) = strip s).
  { apply lstrip_fixed.
    destruct (strip s) as [|b B] eqn:HB; [done|].
    unfold strip in HB.
    destruct (lstrip_split (rev (lstrip s))) as (ws2 & Hs2 & _).
    apply (f_equal (@rev _)) in Hs2. rewrite rev_involutive, rev_app_distr in Hs2.
    rewrite HB in Hs2. pose proof (lstrip_head s) as Hh. by rewrite Hs2 in Hh. }
  unfold strip at 1. rewrite Hl. unfold strip.
  by rewrite rev_involutive, lstrip_lstrip.
Qed.

Lemma strip_elem_of c s : c ∈ strip s -> c ∈ s.
Proof.
  destruct (strip_split s) as (ws1 & ws2 & Hs & _). intros Hc.
  rewrite Hs, !elem_of_app. right. by left.
Qed.

(** X27. The names [format_authors] reads off the author field are
    clean: each is not empty, holds no comma and has no white space at
    its ends, whatever the field holds. *)
Theorem author_names_clean (author_str : pystr) :
  Forall (fun name => name <> [] /\ (c_comma ∉ name) /\ strip name = name)
         (author_names author_str).
Proof.
  unfold author_names. apply Forall_forall. intros name Hin.
  apply list_elem_of_filter in Hin as [Ht Hin].
  apply list_elem_of_fmap in Hin as (piece & -> & Hpiece).
  split; [by destruct (strip piece)|]. split; [|apply strip_strip].
  intros Hc%strip_elem_of. revert Hc.
  refine (proj1 (Forall_forall (fun p => c_comma ∉ p) _) _ piece Hpiece).
  apply (split_char_pieces c_comma), not_elem_of_nil.
Qed.
